(** * The compose-market connector compilers: a shallow embedding

    The MCP server compiler ([mcp-compiler/compiler.py], [mcp-compiler/llm_service.py])
    and the model compiler ([model-compiler/compiler.py],
    [model-compiler/llm_service.py]) as Rocq functions, followed by the
    properties of the checkpointed batch pipeline.

    Python [str] values are modelled over ASCII characters; a [dict] used as
    a map keyed by record id is a [gmap string _]; external services
    (the runtime spawn call, the inference API, the clock, the scheduler's
    completion order) are explicit parameters. *)

From Stdlib Require Import String Ascii List Arith Lia Bool QArith Qminmax Permutation Sorted.
From stdpp Require Import gmap strings list fin_maps.

Open Scope string_scope.
Open Scope nat_scope.

(** ** Python string primitives (ASCII) *)

Module Py.

Definition code (c : ascii) : nat := nat_of_ascii c.

Definition in_range (lo hi : nat) (c : ascii) : bool :=
  (lo <=? code c) && (code c <=? hi).

Definition is_upper : ascii -> bool := in_range 65 90.
Definition is_lower : ascii -> bool := in_range 97 122.
Definition is_digit : ascii -> bool := in_range 48 57.

(** [str.isspace] on the ASCII range: TAB..CR, FS..US and the blank. *)
Definition is_space (c : ascii) : bool :=
  in_range 9 13 c || in_range 28 32 c.

(** The class [\w] on the ASCII range. *)
Definition is_word (c : ascii) : bool :=
  is_upper c || is_lower c || is_digit c || (code c =? 95).

Definition lower_char (c : ascii) : ascii :=
  if is_upper c then ascii_of_nat (code c + 32) else c.

Definition upper_char (c : ascii) : ascii :=
  if is_lower c then ascii_of_nat (code c - 32) else c.

Definition chars (s : string) : list ascii := list_ascii_of_string s.
Definition str (l : list ascii) : string := string_of_list_ascii l.

(** [s.lower()] and [s.upper()] *)
Definition lower (s : string) : string := str (map lower_char (chars s)).
Definition upper (s : string) : string := str (map upper_char (chars s)).

Fixpoint lstrip_by (p : ascii -> bool) (l : list ascii) : list ascii :=
  match l with
  | c :: t => if p c then lstrip_by p t else l
  | [] => []
  end.

Definition rstrip_by (p : ascii -> bool) (l : list ascii) : list ascii :=
  rev (lstrip_by p (rev l)).

Definition strip_by (p : ascii -> bool) (l : list ascii) : list ascii :=
  rstrip_by p (lstrip_by p l).

(** [s.strip()] *)
Definition strip (s : string) : string := str (strip_by is_space (chars s)).

(** [s.strip(c)] for a one-character argument *)
Definition strip_char (c : ascii) (s : string) : string :=
  str (strip_by (Ascii.eqb c) (chars s)).

(** [s[:n]] *)
Definition prefix_slice (n : nat) (s : string) : string :=
  str (take n (chars s)).

Fixpoint starts_with (p l : list ascii) : bool :=
  match p, l with
  | [], _ => true
  | a :: p', b :: l' => Ascii.eqb a b && starts_with p' l'
  | _ :: _, [] => false
  end.

Fixpoint contains_chars (p l : list ascii) : bool :=
  starts_with p l ||
  match l with
  | [] => false
  | _ :: t => contains_chars p t
  end.

(** [p in s] *)
Definition contains (p s : string) : bool := contains_chars (chars p) (chars s).

(** [s.split()] : the maximal runs of non-blank characters. *)
Fixpoint split_ws_aux (cur : list ascii) (l : list ascii) : list (list ascii) :=
  match l with
  | [] => match cur with [] => [] | _ => [rev cur] end
  | c :: t =>
      if is_space c
      then match cur with
           | [] => split_ws_aux [] t
           | _ => rev cur :: split_ws_aux [] t
           end
      else split_ws_aux (c :: cur) t
  end.

Definition split_ws (s : string) : list string :=
  map str (split_ws_aux [] (chars s)).

(** [sep.join(parts)] *)
Fixpoint join (sep : string) (parts : list string) : string :=
  match parts with
  | [] => ""
  | [p] => p
  | p :: rest => p ++ sep ++ join sep rest
  end.

(** The double-quote character. *)
Definition dquote : string := String (ascii_of_nat 34) EmptyString.

End Py.

(** ** The fragment of Python's [re] the compilers use

    A backtracking matcher in continuation-passing style: alternatives are
    tried left to right, repetition is greedy, and the first complete match
    wins, which is the order in which [re] explores them.  Positions index
    the subject text; [Group] records the span of the (single) capture
    group. *)

Module Re.

Inductive re : Type :=
| Eps
| Chr (p : ascii -> bool)
| Cat (r1 r2 : re)
| Alt (r1 r2 : re)
| Star (r : re)
| Group (r : re)
| Bol
| WordB.

Definition span : Type := (nat * nat)%type.

Definition char_at (s : list ascii) (i : nat) : option ascii := s !! i.

Definition word_at (s : list ascii) (i : nat) : bool :=
  match char_at s i with
  | Some c => Py.is_word c
  | None => false
  end.

Definition word_before (s : list ascii) (i : nat) : bool :=
  match i with
  | O => false
  | S j => word_at s j
  end.

Section Matcher.
Context {A : Type}.
Variable s : list ascii.

Fixpoint run (r : re) (pos : nat) (cap : option span)
    (k : nat -> option span -> option A) {struct r} : option A :=
  match r with
  | Eps => k pos cap
  | Chr p =>
      match char_at s pos with
      | Some c => if p c then k (S pos) cap else None
      | None => None
      end
  | Cat r1 r2 => run r1 pos cap (fun pos' cap' => run r2 pos' cap' k)
  | Alt r1 r2 =>
      match run r1 pos cap k with
      | Some x => Some x
      | None => run r2 pos cap k
      end
  | Star r1 =>
      (fix loop (fuel : nat) (pos : nat) (cap : option span) {struct fuel} : option A :=
         match fuel with
         | O => k pos cap
         | S fuel' =>
             match run r1 pos cap
                     (fun pos' cap' =>
                        if pos <? pos' then loop fuel' pos' cap' else None) with
             | Some x => Some x
             | None => k pos cap
             end
         end) (S (length s - pos)) pos cap
  | Group r1 => run r1 pos cap (fun pos' _ => k pos' (Some (pos, pos')))
  | Bol => if pos =? 0 then k pos cap else None
  | WordB => if xorb (word_before s pos) (word_at s pos) then k pos cap else None
  end.

End Matcher.

(** A match: where it starts, where it ends, and the capture group's span. *)
Record hit : Type := Hit { hit_start : nat; hit_end : nat; hit_group : option span }.

Definition match_at (r : re) (s : list ascii) (pos : nat) : option hit :=
  run s r pos None (fun e cap => Some (Hit pos e cap)).

Fixpoint search_aux (fuel : nat) (r : re) (s : list ascii) (pos : nat) : option hit :=
  match match_at r s pos with
  | Some h => Some h
  | None =>
      match fuel with
      | O => None
      | S fuel' => search_aux fuel' r s (S pos)
      end
  end.

(** The leftmost match starting at or after [pos]. *)
Definition search_from (r : re) (s : list ascii) (pos : nat) : option hit :=
  search_aux (length s - pos) r s pos.

Definition slice (s : list ascii) (b e : nat) : list ascii := take (e - b) (drop b s).

Definition group1 (s : list ascii) (h : hit) : string :=
  match hit_group h with
  | Some (b, e) => Py.str (slice s b e)
  | None => ""
  end.

(** [re.search(r, s)], returning [group(1)] of the match. *)
Definition search (r : re) (s : string) : option string :=
  let cs := Py.chars s in
  match search_from r cs 0 with
  | Some h => Some (group1 cs h)
  | None => None
  end.

Fixpoint findall_aux (fuel : nat) (r : re) (s : list ascii) (pos : nat) : list string :=
  match fuel with
  | O => []
  | S fuel' =>
      match search_from r s pos with
      | None => []
      | Some h =>
          group1 s h ::
          (if hit_start h <? hit_end h
           then findall_aux fuel' r s (hit_end h)
           else if hit_end h <? length s
                then findall_aux fuel' r s (S (hit_end h))
                else [])
      end
  end.

(** [re.findall(r, s)] for a pattern with one group. *)
Definition findall (r : re) (s : string) : list string :=
  let cs := Py.chars s in findall_aux (S (length cs)) r cs 0.

Fixpoint sub_aux (fuel : nat) (r : re) (repl : list ascii) (s : list ascii) (pos : nat)
    : list ascii :=
  match fuel with
  | O => drop pos s
  | S fuel' =>
      match search_from r s pos with
      | None => drop pos s
      | Some h =>
          slice s pos (hit_start h) ++ repl ++
          (if hit_start h <? hit_end h
           then sub_aux fuel' r repl s (hit_end h)
           else match char_at s (hit_end h) with
                | Some c => c :: sub_aux fuel' r repl s (S (hit_end h))
                | None => []
                end)
      end
  end.

(** [re.sub(r, repl, s)] with a literal replacement. *)
Definition sub (r : re) (repl : string) (s : string) : string :=
  let cs := Py.chars s in
  Py.str (sub_aux (S (length cs)) r (Py.chars repl) cs 0).

(** *** Pattern combinators *)

Definition chr (c : ascii) : re := Chr (Ascii.eqb c).

(** A character or class under [re.IGNORECASE], for the characters this
    development has.  On a Python [str] the flag also lets [[A-Z]] match
    the letters U+0130, U+0131, U+017F and U+212A, which lie outside them. *)
Definition icase (p : ascii -> bool) : ascii -> bool :=
  fun c => p c || p (Py.lower_char c) || p (Py.upper_char c).

Fixpoint lit_chars (l : list ascii) : re :=
  match l with
  | [] => Eps
  | [c] => chr c
  | c :: t => Cat (chr c) (lit_chars t)
  end.

Fixpoint ilit_chars (l : list ascii) : re :=
  match l with
  | [] => Eps
  | [c] => Chr (icase (Ascii.eqb c))
  | c :: t => Cat (Chr (icase (Ascii.eqb c))) (ilit_chars t)
  end.

Definition lit (s : string) : re := lit_chars (Py.chars s).
Definition ilit (s : string) : re := ilit_chars (Py.chars s).

Definition plus (r : re) : re := Cat r (Star r).

Fixpoint at_least (n : nat) (r : re) : re :=
  match n with
  | O => Star r
  | S n' => Cat r (at_least n' r)
  end.

Fixpoint cats (rs : list re) : re :=
  match rs with
  | [] => Eps
  | [r] => r
  | r :: t => Cat r (cats t)
  end.

Definition space : re := Chr Py.is_space.
Definition nonspace : re := Chr (fun c => negb (Py.is_space c)).
(** [.] without [re.DOTALL] *)
Definition dot : re := Chr (fun c => negb (Py.code c =? 10)).

End Re.

(** ** [compiler.py] : credential detection *)

Module Credentials.

(** The class [[A-Z_]] *)
Definition var_head (c : ascii) : bool := Py.is_upper c || (Py.code c =? 95).
(** The class [[A-Z0-9_]] *)
Definition var_tail (c : ascii) : bool :=
  Py.is_upper c || Py.is_digit c || (Py.code c =? 95).

(** [r"requires credentials:\s*([A-Z_][A-Z0-9_]+)"] *)
Definition pattern1 : Re.re :=
  Re.cats [Re.lit "requires credentials:"; Re.Star Re.space;
           Re.Group (Re.Cat (Re.Chr var_head) (Re.plus (Re.Chr var_tail)))].

(** [r"([A-Z_][A-Z0-9_]{2,})\s*(?:environment variable required|env.*required)"]
    compiled with [re.IGNORECASE] *)
Definition pattern2 : Re.re :=
  Re.cats [Re.Group (Re.Cat (Re.Chr (Re.icase var_head))
                            (Re.at_least 2 (Re.Chr (Re.icase var_tail))));
           Re.Star Re.space;
           Re.Alt (Re.ilit "environment variable required")
                  (Re.cats [Re.ilit "env"; Re.Star Re.dot; Re.ilit "required"])].

(** [r"\b([A-Z_][A-Z0-9_]{3,})\b"] *)
Definition pattern3 : Re.re :=
  Re.cats [Re.WordB;
           Re.Group (Re.Cat (Re.Chr var_head) (Re.at_least 3 (Re.Chr var_tail)));
           Re.WordB].

Definition structural_words : list string :=
  ["SERVER"; "ERROR"; "FAILED"; "TIMEOUT"; "SESSION"; "ID"; "MCP"; "API"].

Definition required (var_name : string) : string := "Required: " ++ var_name.

Definition detect_required_vars (error_msg : string) : gmap string string :=
  match Re.search pattern1 error_msg with
  | Some var_name => <[var_name := required var_name]> ∅
  | None =>
      match Re.search pattern2 error_msg with
      | Some g =>
          let var_name := Py.upper g in
          <[var_name := required var_name]> ∅
      | None =>
          foldl (fun vars_required var_name =>
                   if bool_decide (var_name ∈ structural_words)
                   then vars_required
                   else <[var_name := required var_name]> vars_required)
                ∅ (Re.findall pattern3 error_msg)
      end
  end.

End Credentials.

(** ** [llm_service.py] : output validation *)

Module Llm.

Definition MAX_RETRIES : nat := 3.
Definition BASE_RETRY_DELAY : Q := 1.
Definition MAX_RETRY_DELAY : Q := 10.

Record CleanedMetadata : Type :=
  { name : string; description : string; tags : list string }.

Definition BANNED_TAGS : list string :=
  ["mcp"; "server"; "tool"; "api"; "client"; "wrapper"; "helper"; "utility";
   "utilities"].

Record Backend : Type :=
  { provider : string; model : string; fallback : option string }.

Definition BACKENDS : list Backend :=
  [ {| provider := "qwen"; model := "qwen/qwen3-32b";
       fallback := Some "meta-llama/llama-3.3-70b-instruct" |};
    {| provider := "nousresearch"; model := "nousresearch/hermes-4-70b";
       fallback := Some "meta-llama/llama-3.3-70b-instruct" |};
    {| provider := "minimax"; model := "minimax/minimax-m2.1";
       fallback := Some "qwen/qwen3-32b" |} ].

(** [get_available_backends] *)
Definition get_available_backends : list Backend := BACKENDS.

(** The decoded response once it has passed the checks of
    [_parse_json_response] on its shape: a JSON object that has the keys
    [name], [description] and [tags], the last one a list.  The entries are
    JSON strings, on which [str] is the identity. *)
Record Payload : Type :=
  { data_name : string; data_description : string; data_tags : list string }.

Definition boilerplate : list string :=
  ["MCP Server"; "MCP"; "Server"; "| Glama"; "| PulseMCP"].

(** [rf"\s*{re.escape(phrase)}\s*"] with [re.IGNORECASE] *)
Definition phrase_pattern (phrase : string) : Re.re :=
  Re.cats [Re.Star Re.space; Re.ilit phrase; Re.Star Re.space].

(** [r"\s+by\s+\S+"] with [re.IGNORECASE] *)
Definition by_pattern : Re.re :=
  Re.cats [Re.plus Re.space; Re.ilit "by"; Re.plus Re.space; Re.plus Re.nonspace].

(** [r"^MCP server:\s*"] with [re.IGNORECASE] *)
Definition prefix_pattern : Re.re :=
  Re.cats [Re.Bol; Re.ilit "MCP server:"; Re.Star Re.space].

Definition clean_name (raw : string) : string :=
  let name := Py.strip raw in
  let name :=
    foldl (fun name phrase => Re.sub (phrase_pattern phrase) " " name)
          name boilerplate in
  let name := Re.sub by_pattern "" name in
  Py.strip (Py.join " " (Py.split_ws name)).

Definition clean_description (raw : string) : string :=
  let desc := Py.strip raw in
  let desc := Re.sub prefix_pattern "" desc in
  Py.strip (Re.sub (Re.plus Re.space) " " desc).

(** The class [[a-z0-9-]] *)
Definition tag_char (c : ascii) : bool :=
  Py.is_lower c || Py.is_digit c || (Py.code c =? 45).

Definition hyphen : ascii := ascii_of_nat 45.

Definition normalize_tag (t : string) : string :=
  let tag := Py.prefix_slice 25 (Py.strip (Py.lower t)) in
  Py.strip_char hyphen (Re.sub (Re.Chr (fun c => negb (tag_char c))) "-" tag).

Definition banned (tag : string) : bool := bool_decide (tag ∈ BANNED_TAGS).

(** The guard of the loop over the tags:
    [tag and tag not in self.BANNED_TAGS and len(tag) >= 2] *)
Definition keep_tag (tag : string) : bool :=
  negb (String.eqb tag "") && negb (banned tag) && (2 <=? String.length tag).

(** The loop [for t in data["tags"][:5]] with its accumulator [tags]. *)
Definition collect_tags (raw_tags : list string) : list string :=
  foldl (fun tags t =>
           let tag := normalize_tag t in
           if keep_tag tag then (tags ++ [tag])%list else tags)
        [] (take 5 raw_tags).

(** [_parse_json_response], from the normalisation of the name on. *)
Definition validate (data : Payload) : option CleanedMetadata :=
  let name := clean_name (data_name data) in
  if String.length name <? 3 then None else
  let name := Py.prefix_slice 60 name in
  let desc := clean_description (data_description data) in
  if String.length desc <? 20 then None else
  let desc := Py.prefix_slice 200 desc in
  let tags := collect_tags (data_tags data) in
  if length tags <? 2 then None else
  Some {| name := name; description := desc; tags := take 4 tags |}.

(** [_parse_json_response]; [decode] stands for the text surgery and
    [json.loads] with the shape checks, and answers [None] where the Python
    returns [None] or lands in one of its [except] clauses. *)
Definition parse_json_response (decode : bool -> string -> option Payload)
    (content : string) (is_reasoning_model : bool) : option CleanedMetadata :=
  match decode is_reasoning_model content with
  | Some data => validate data
  | None => None
  end.

(** *** The inference call with its retry policy

    The OpenAI client, the random source and the clock are outside the
    program.  A computation runs over a [World] that counts the requests
    sent and the random draws made and records what was done; it ends with
    a value or with a Python exception. *)

(** Exceptions a request can end with, each with its [str(e)]. *)
Inductive exn : Type :=
| RateLimitError (msg : string)
| APITimeoutError (msg : string)
| APIError (msg : string)
| Exception (msg : string).

Inductive exn_class : Type :=
| CRateLimitError | CAPITimeoutError | CAPIError | CException.

(** The class hierarchy of the [openai] package: both [RateLimitError] and
    [APITimeoutError] derive from [APIError], which derives from
    [Exception]. *)
Definition isinstance (e : exn) (c : exn_class) : bool :=
  match c, e with
  | CException, _ => true
  | CAPIError, Exception _ => false
  | CAPIError, _ => true
  | CRateLimitError, RateLimitError _ => true
  | CAPITimeoutError, APITimeoutError _ => true
  | _, _ => false
  end.

Definition exn_str (e : exn) : string :=
  match e with
  | RateLimitError m | APITimeoutError m | APIError m | Exception m => m
  end.

(** The two system messages of [_call_llm]. *)
Inductive system_message : Type :=
| StartWithBrace   (* "... Output ONLY valid JSON, no thinking, ... Start with {" *)
| OnlyValidJson.   (* "You are a JSON metadata generator. Output ONLY valid JSON." *)

Inductive event : Type :=
| Create (model : string) (system : system_message) (max_tokens : nat)
| Sleep (seconds : Q).

Record World : Type := { requests : nat; draws : nat; events : list event }.

Definition fresh : World := {| requests := 0; draws := 0; events := [] |}.

(** What is outside: the answer to the [n]-th request (the content of the
    first choice, or an exception), the [n]-th value of [random.uniform(0, 1)]
    and the decoder of [parse_json_response]. *)
Record Service : Type :=
  { respond : nat -> string -> string -> exn + option string;
    uniform : nat -> Q;
    decode : bool -> string -> option Payload }.

Definition M (A : Type) : Type := World -> (exn + A) * World.

Definition ret {A} (a : A) : M A := fun w => (inr a, w).
Definition raise {A} (e : exn) : M A := fun w => (inl e, w).
Definition bind {A B} (c : M A) (k : A -> M B) : M B :=
  fun w =>
    match c w with
    | (inl e, w') => (inl e, w')
    | (inr a, w') => k a w'
    end.

Notation "x <- c ;; k" := (bind c (fun x => k))
  (at level 62, c at next level, right associativity).
Notation "c ;;; k" := (bind c (fun _ => k))
  (at level 62, right associativity).

(** One [except C as e: h] clause. *)
Definition clause (A : Type) : Type := (exn_class * (exn -> M A))%type.

Fixpoint dispatch {A} (e : exn) (clauses : list (clause A)) : M A :=
  match clauses with
  | [] => raise e
  | (c, h) :: rest => if isinstance e c then h e else dispatch e rest
  end.

(** [try: body  except ...], the clauses tried in the order written. *)
Definition try_except {A} (body : M A) (clauses : list (clause A)) : M A :=
  fun w =>
    match body w with
    | (inl e, w') => dispatch e clauses w'
    | (inr a, w') => (inr a, w')
    end.

Definition log (ev : event) (w : World) : World :=
  {| requests := requests w; draws := draws w; events := (events w ++ [ev])%list |}.

Section Call.
Variable svc : Service.

(** [self.client.chat.completions.create(...)] followed by
    [response.choices[0].message.content] *)
Definition chat_create (model : string) (system : system_message)
    (max_tokens : nat) (prompt : string) : M (option string) :=
  fun w =>
    let w' := log (Create model system max_tokens) w in
    (respond svc (requests w) model prompt,
     {| requests := S (requests w); draws := draws w'; events := events w' |}).

Definition random_uniform : M Q :=
  fun w =>
    (inr (uniform svc (draws w)),
     {| requests := requests w; draws := S (draws w); events := events w |}).

Definition sleep (seconds : Q) : M unit :=
  fun w => (inr tt, log (Sleep seconds) w).

(** [min(BASE_RETRY_DELAY * (2**attempt) + random.uniform(0, 1), MAX_RETRY_DELAY)] *)
Definition backoff (attempt : nat) (jitter : Q) : Q :=
  Qmin (BASE_RETRY_DELAY * inject_Z (2 ^ Z.of_nat attempt) + jitter)%Q MAX_RETRY_DELAY.

Definition truthy (o : option string) : bool :=
  match o with
  | Some s => negb (String.eqb s "")
  | None => false
  end.

(** How one pass through the body of the retry loop ends. *)
Inductive control : Type :=
| Return (r : option CleanedMetadata)
| Continue
| Break.

Definition is_connection_error (e : exn) : bool :=
  Py.contains "Connection error" (exn_str e) ||
  Py.contains "connection" (Py.lower (exn_str e)).

(** The body of [for attempt in range(MAX_RETRIES)], from the current
    [model] to the way the pass ends and the [model] after it. *)
Definition attempt_body (prompt : string) (fallback_model : option string)
    (is_reasoning_model : bool) (attempt : nat) (model : string)
    : M (control * string) :=
  try_except
    (let max_tokens := if is_reasoning_model then 2048 else 600 in
     content <- chat_create model StartWithBrace max_tokens prompt ;;
     match content with
     | Some c =>
         if truthy content
         then ret (Return (parse_json_response (decode svc) c is_reasoning_model), model)
         else ret (Return None, model)
     | None => ret (Return None, model)
     end)
    [ (CRateLimitError, fun _ =>
         jitter <- random_uniform ;;
         sleep (backoff attempt jitter) ;;;
         ret (Continue, model));
      (CAPITimeoutError, fun _ =>
         (if attempt <? MAX_RETRIES - 1 then sleep BASE_RETRY_DELAY else ret tt) ;;;
         ret (Continue, model));
      (CAPIError, fun _ =>
         (if attempt <? MAX_RETRIES - 1 then sleep BASE_RETRY_DELAY else ret tt) ;;;
         ret (Continue, model));
      (CException, fun e =>
         if is_connection_error e
         then match fallback_model with
              | Some fb =>
                  if truthy fallback_model && negb (String.eqb model fb)
                  then ret (Continue, fb)
                  else ret (Break, model)
              | None => ret (Break, model)
              end
         else ret (Break, model)) ].

(** The loop; [None] when it ran out or broke off without returning. *)
Fixpoint for_attempts (prompt : string) (fallback_model : option string)
    (is_reasoning_model : bool) (attempts : list nat) (model : string)
    : M (option (option CleanedMetadata) * string) :=
  match attempts with
  | [] => ret (None, model)
  | attempt :: rest =>
      r <- attempt_body prompt fallback_model is_reasoning_model attempt model ;;
      match r with
      | (Return v, model') => ret (Some v, model')
      | (Continue, model') =>
          for_attempts prompt fallback_model is_reasoning_model rest model'
      | (Break, model') => ret (None, model')
      end
  end.

(** The single call to the fallback after the loop. *)
Definition fallback_shot (prompt : string) (fb : string) : M (option CleanedMetadata) :=
  try_except
    (content <- chat_create fb OnlyValidJson 600 prompt ;;
     match content with
     | Some c =>
         if truthy content
         then ret (parse_json_response (decode svc) c false)
         else ret None
     | None => ret None
     end)
    [ (CException, fun _ => ret None) ].

(** [LLMService._call_llm] *)
Definition call_llm (prompt : string) (backend : Backend) : M (option CleanedMetadata) :=
  let fallback_model := fallback backend in
  let is_reasoning_model :=
    Py.contains "minimax" (model backend) || Py.contains "m2.1" (model backend) in
  r <- for_attempts prompt fallback_model is_reasoning_model
                    (seq 0 MAX_RETRIES) (model backend) ;;
  match r with
  | (Some v, _) => ret v
  | (None, current) =>
      match fallback_model with
      | Some fb =>
          if truthy fallback_model && negb (String.eqb current fb)
          then fallback_shot prompt fb
          else ret None
      | None => ret None
      end
  end.

End Call.

End Llm.


(** ** [compiler.py] : timestamps *)

Module Clock.

(** An aware [datetime] in UTC, as [datetime.now(timezone.utc)] returns it. *)
Record datetime : Type :=
  { year : nat; month : nat; day : nat;
    hour : nat; minute : nat; second : nat; microsecond : nat }.

Definition digit (n : nat) : ascii := ascii_of_nat (48 + n mod 10).

(** [n] in decimal on [width] digits, zero-padded (the low [width] digits). *)
Fixpoint zero_padded (width n : nat) : list ascii :=
  match width with
  | O => []
  | S w => (zero_padded w (n / 10) ++ [digit n])%list
  end.

Definition pad (width n : nat) : string := Py.str (zero_padded width n).

(** [datetime.isoformat()] without the offset: the fraction is printed only
    when [microsecond] is not zero. *)
Definition isoformat_naive (d : datetime) : string :=
  pad 4 (year d) ++ "-" ++ pad 2 (month d) ++ "-" ++ pad 2 (day d) ++ "T" ++
  pad 2 (hour d) ++ ":" ++ pad 2 (minute d) ++ ":" ++ pad 2 (second d) ++
  (if microsecond d =? 0 then "" else "." ++ pad 6 (microsecond d)).

(** [isoformat()] of an aware UTC value. *)
Definition isoformat (d : datetime) : string := isoformat_naive d ++ "+00:00".

(** [s.replace(old, new)] for a non-empty [old]. *)
Fixpoint replace_chars (fuel : nat) (old new l : list ascii) : list ascii :=
  match fuel with
  | O => l
  | S fuel' =>
      match l with
      | [] => []
      | c :: t =>
          if Py.starts_with old l
          then (new ++ replace_chars fuel' old new (drop (length old) l))%list
          else c :: replace_chars fuel' old new t
      end
  end.

Definition replace (old new s : string) : string :=
  Py.str (replace_chars (String.length s) (Py.chars old) (Py.chars new) (Py.chars s)).

(** [datetime.now(timezone.utc).isoformat().replace("+00:00", "Z")] *)
Definition utc_stamp (now : datetime) : string :=
  replace "+00:00" "Z" (isoformat now).

(** [datetime.utcnow().isoformat() + "Z"] of the model compiler *)
Definition utcnow_stamp (now : datetime) : string := isoformat_naive now ++ "Z".

End Clock.

(** ** [compiler.py] : spawn configurations *)

Module Spawn.

Definition TRANSPORT_PRIORITY : list string := ["npx"; "stdio"; "http"; "docker"].

(** The [spawn] entry of a package. *)
Record SpawnSpec : Type :=
  { command : option string;
    spawn_args : option (list string);
    spawn_env : list (string * string) }.

Record Package : Type :=
  { spawn : option SpawnSpec;
    registryType : option string;
    identifier : option string }.

Record Remote : Type := { url : option string; type : option string }.

(** The keys [get_spawn_configs] reads, of the server or of its [raw] entry. *)
Record Origin : Type :=
  { packages : list Package;
    remotes : list Remote;
    remoteUrl : option string;
    image : option string }.

(** A spawn configuration: the dict sent to the runtime, an absent key
    being [None]. *)
Record Config : Type :=
  { transport : string;
    package : option string;
    cfg_command : option string;
    args : option (list string);
    env : option (list (string * string));
    cfg_remoteUrl : option string;
    protocol : option string;
    cfg_image : option string }.

Definition blank (t : string) : Config :=
  {| transport := t; package := None; cfg_command := None; args := None;
     env := None; cfg_remoteUrl := None; protocol := None; cfg_image := None |}.

Definition or_default {A} (o : option A) (d : A) : A :=
  match o with Some a => a | None => d end.

(** Truth value of an optional string: present and not empty. *)
Definition nonempty (o : option string) : option string :=
  match o with
  | Some s => if String.eqb s "" then None else Some s
  | None => None
  end.

(** [a or b] on optional strings *)
Definition or_else (a b : option string) : option string :=
  match nonempty a with
  | Some s => Some s
  | None => b
  end.

(** [s.split("/")[-1]] *)
Fixpoint last_segment_aux (cur : list ascii) (l : list ascii) : list ascii :=
  match l with
  | [] => rev cur
  | c :: t => if Ascii.eqb c "/"%char then last_segment_aux [] t
              else last_segment_aux (c :: cur) t
  end.

Definition last_segment (s : string) : string :=
  Py.str (last_segment_aux [] (Py.chars s)).

(** The loop over [packages]: the first package that is an [npx] spawn, an
    [npm] package or a [pypi] package gives one configuration and ends the
    loop. *)
Fixpoint package_configs (pkgs : list Package) : list Config :=
  match pkgs with
  | [] => []
  | pkg :: rest =>
      let is_npx :=
        match spawn pkg with
        | Some sp => bool_decide (command sp = Some "npx")
        | None => false
        end in
      if is_npx then
        let sp := or_default (spawn pkg) {| command := None; spawn_args := None; spawn_env := [] |} in
        let package_name :=
          match spawn_args sp with
          | Some (a :: l) => Some (List.last l a)
          | _ => identifier pkg
          end in
        [ {| transport := "npx"; package := package_name; cfg_command := None;
             args := Some (or_default (spawn_args sp) []);
             env := Some (spawn_env sp);
             cfg_remoteUrl := None; protocol := None; cfg_image := None |} ]
      else if bool_decide (registryType pkg = Some "npm") then
        [ {| transport := "npx"; package := identifier pkg; cfg_command := None;
             args := None; env := Some [];
             cfg_remoteUrl := None; protocol := None; cfg_image := None |} ]
      else if bool_decide (registryType pkg = Some "pypi") then
        let pkg_id := or_default (identifier pkg) "" in
        [ {| transport := "stdio"; package := None; cfg_command := Some "uvx";
             args := Some ["--from"; pkg_id;
                           if Py.contains "/" pkg_id then last_segment pkg_id else pkg_id];
             env := Some [];
             cfg_remoteUrl := None; protocol := None; cfg_image := None |} ]
      else package_configs rest
  end.

Definition placeholder_hosts : list string :=
  ["localhost"; "127.0.0.1"; "your-"; "example.com"; "0.0.0.0"].

(** [any(p in url.lower() for p in [...])] *)
Definition denylisted (u : string) : bool :=
  existsb (fun p => Py.contains p (Py.lower u)) placeholder_hosts.

Definition http_config (u proto : string) : Config :=
  {| transport := "http"; package := None; cfg_command := None; args := None;
     env := None; cfg_remoteUrl := Some u; protocol := Some proto; cfg_image := None |}.

Fixpoint remote_configs (rs : list Remote) : list Config :=
  match rs with
  | [] => []
  | remote :: rest =>
      match nonempty (url remote) with
      | Some u =>
          if denylisted u then remote_configs rest
          else http_config u (or_default (type remote) "sse") :: remote_configs rest
      | None => remote_configs rest
      end
  end.

(** The candidates in the order the function appends them. *)
Definition candidate_configs (server : Origin) (raw : option Origin) : list Config :=
  let r := or_default raw server in
  (package_configs (packages r) ++
   remote_configs (remotes r) ++
   match nonempty (or_else (remoteUrl r) (remoteUrl server)) with
   | Some u => if denylisted u then [] else [http_config u "sse"]
   | None => []
   end ++
   match nonempty (or_else (image r) (image server)) with
   | Some i =>
       [ {| transport := "docker"; package := None; cfg_command := None; args := None;
            env := None; cfg_remoteUrl := None; protocol := None; cfg_image := Some i |} ]
   | None => []
   end)%list.

(** The loop that keeps a configuration when its transport is not in [seen]. *)
Fixpoint dedupe (seen : list string) (configs : list Config) : list Config :=
  match configs with
  | [] => []
  | c :: rest =>
      if bool_decide (transport c ∈ seen) then dedupe seen rest
      else c :: dedupe (transport c :: seen) rest
  end.

(** [TRANSPORT_PRIORITY.index(t)], or [None] for the [ValueError] *)
Fixpoint index_of (t : string) (l : list string) : option nat :=
  match l with
  | [] => None
  | x :: rest =>
      if String.eqb x t then Some 0
      else match index_of t rest with Some i => Some (S i) | None => None end
  end.

Definition sort_key (c : Config) : nat :=
  match index_of (transport c) TRANSPORT_PRIORITY with
  | Some i => i
  | None => length TRANSPORT_PRIORITY
  end.

(** [list.sort(key=sort_key)] is stable; a stable sort has one result, the
    one insertion from the right computes. *)
Fixpoint insert_by_key (c : Config) (sorted : list Config) : list Config :=
  match sorted with
  | [] => [c]
  | d :: rest =>
      if sort_key c <=? sort_key d then c :: sorted
      else d :: insert_by_key c rest
  end.

Fixpoint sort_by_key (configs : list Config) : list Config :=
  match configs with
  | [] => []
  | c :: rest => insert_by_key c (sort_by_key rest)
  end.

Definition get_spawn_configs (server : Origin) (raw : option Origin) : list Config :=
  sort_by_key (dedupe [] (candidate_configs server raw)).

End Spawn.

(** ** [mcp-compiler/compiler.py] : the record processor *)

Module Mcp.

Definition CHECKPOINT_INTERVAL : nat := 15.

Module Progress.
Record t : Type :=
  { phase : nat; processed : nat; total : nat; last_processed_id : string;
    started_at : string; updated_at : string;
    success_count : nat; failed_count : nat; retry_count : nat }.

(** [Progress()] *)
Definition default : t :=
  {| phase := 1; processed := 0; total := 0; last_processed_id := "";
     started_at := ""; updated_at := "";
     success_count := 0; failed_count := 0; retry_count := 0 |}.
End Progress.

Record Tool : Type := { tool_name : string; tool_description : string }.

(** A record of the registry.  [origin_keys] holds the keys of the record
    that [get_spawn_configs] reads, [raw] its [raw] entry when it has one. *)
Module Server.
Record t : Type :=
  { registryId : string; name : string; namespace : string;
    description : string; repoUrl : string; slug : string; source : string;
    origin : string;
    origin_keys : Spawn.Origin; raw : option Spawn.Origin }.
End Server.

Module CompiledServer.
Record t : Type :=
  { id : string; registryId : string; name : string; slug : string;
    description : string; tags : list string; transport : string;
    tools : list Tool; tool_count : nat; spawn : Spawn.Config;
    source : string; compiled_at : string; working_transport : string;
    spawn_failed : bool; vars_required : gmap string string }.
End CompiledServer.

Module FailedServer.
Record t : Type :=
  { id : string; registryId : string; name : string; description : string;
    tags : list string; error : string; error_code : string;
    transports_tried : list string; failed_at : string; retryable : bool }.

Definition set_retryable (b : bool) (f : t) : t :=
  {| id := id f; registryId := registryId f; name := name f;
     description := description f; tags := tags f; error := error f;
     error_code := error_code f; transports_tried := transports_tried f;
     failed_at := failed_at f; retryable := b |}.
End FailedServer.

(** The dict [spawn_server_via_runtime] returns: with [success] true it
    carries the tools and no error, with [success] false an error, its code
    and no tools. *)
Inductive SpawnResult : Type :=
| Spawned (tools : list Tool)
| SpawnError (error error_code : string).

Definition success (r : SpawnResult) : bool :=
  match r with Spawned _ => true | SpawnError _ _ => false end.

(** [result.get("tools", [])] *)
Definition sr_tools (r : SpawnResult) : list Tool :=
  match r with Spawned tools => tools | SpawnError _ _ => [] end.

(** [result.get("error", "")] and [result.get("error_code", "")] *)
Definition sr_error (r : SpawnResult) : string :=
  match r with Spawned _ => "" | SpawnError e _ => e end.

Definition sr_error_code (r : SpawnResult) : string :=
  match r with Spawned _ => "" | SpawnError _ c => c end.

(** The status string of a result. *)
Inductive status : Type :=
| SUCCESS (transport : string) (n_tools : nat)
| CREDENTIALS (transport : string) (vars : list string)
| FAILED (error_code : string).

Definition result : Type :=
  (option CompiledServer.t * option FailedServer.t * bool * status)%type.

(** What a future holds once it is done. *)
Inductive outcome : Type :=
| Returned (r : result)
| Raised.

Definition process_arg : Type := (Server.t * nat * list Llm.Backend)%type.

(** What is outside the compiler: the runtime's answer to the spawn of the
    [i]-th configuration of a record, the two metadata generators (their
    [i]-th use for the record), the clock, whether the worker of a record
    dies of an exception the processor does not expect, and the order in
    which [as_completed] hands the futures back. *)
Record Outside : Type :=
  { spawn_server_via_runtime : nat -> string -> Spawn.Config -> SpawnResult;
    clean_server_with_tools :
      nat -> Server.t -> list Tool -> Llm.Backend -> option Llm.CleanedMetadata;
    clean_server_from_repo :
      nat -> Server.t -> Llm.Backend -> option Llm.CleanedMetadata;
    now : nat -> Clock.datetime;
    worker_now : string -> Clock.datetime;
    worker_dies : Server.t -> bool;
    as_completed : list process_arg -> list process_arg }.

Section Processor.
Variable out : Outside.

Definition stamp (server : Server.t) : string :=
  Clock.utc_stamp (worker_now out (Server.registryId server)).

Definition compiled_entry (server : Server.t) (m : Llm.CleanedMetadata)
    (config : Spawn.Config) (tools : list Tool) (spawn_failed : bool)
    (vars_required : gmap string string) : CompiledServer.t :=
  {| CompiledServer.id := Server.registryId server;
     CompiledServer.registryId := Server.registryId server;
     CompiledServer.name := Llm.name m;
     CompiledServer.slug := Server.slug server;
     CompiledServer.description := Llm.description m;
     CompiledServer.tags := Llm.tags m;
     CompiledServer.transport := Spawn.transport config;
     CompiledServer.tools := tools;
     CompiledServer.tool_count := length tools;
     CompiledServer.spawn := config;
     CompiledServer.source := Server.source server;
     CompiledServer.compiled_at := stamp server;
     CompiledServer.working_transport := Spawn.transport config;
     CompiledServer.spawn_failed := spawn_failed;
     CompiledServer.vars_required := vars_required |}.

(** The tail of [process_server_with_model], after the loop. *)
Definition all_transports_failed (server : Server.t) (backend : Llm.Backend)
    (i : nat) (transports_tried : list string) (last_error last_error_code : string)
    : result :=
  let llm_result := clean_server_from_repo out i server backend in
  let failed :=
    {| FailedServer.id := Server.registryId server;
       FailedServer.registryId := Server.registryId server;
       FailedServer.name :=
         match llm_result with Some m => Llm.name m | None => Server.name server end;
       FailedServer.description :=
         match llm_result with
         | Some m => Llm.description m
         | None => Server.description server
         end;
       FailedServer.tags :=
         match llm_result with Some m => Llm.tags m | None => [] end;
       FailedServer.error := last_error;
       FailedServer.error_code := last_error_code;
       FailedServer.transports_tried := transports_tried;
       FailedServer.failed_at := stamp server;
       FailedServer.retryable := false |} in
  (None, Some failed, false, FAILED last_error_code).

(** The loop [for config in spawn_configs], the [i]-th pass first. *)
Fixpoint try_configs (server : Server.t) (backend : Llm.Backend)
    (configs : list Spawn.Config) (i : nat)
    (transports_tried : list string) (last_error last_error_code : string)
    : result :=
  match configs with
  | [] => all_transports_failed server backend i transports_tried last_error last_error_code
  | config :: rest =>
      let transport := Spawn.transport config in
      let transports_tried := (transports_tried ++ [transport])%list in
      let result := spawn_server_via_runtime out i (Server.registryId server) config in
      let spawned :=
        if success result && negb (bool_decide (sr_tools result = []))
        then match clean_server_with_tools out i server (sr_tools result) backend with
             | Some m =>
                 Some (compiled_entry server m config (sr_tools result) false ∅,
                       length (sr_tools result))
             | None => None
             end
        else None in
      match spawned with
      | Some (compiled, n) => (Some compiled, None, true, SUCCESS transport n)
      | None =>
          let error_msg := sr_error result in
          let error_code := sr_error_code result in
          let vars_required := Credentials.detect_required_vars error_msg in
          let with_credentials :=
            if bool_decide (vars_required = ∅) then None
            else match clean_server_from_repo out i server backend with
                 | Some m => Some (compiled_entry server m config [] true vars_required)
                 | None => None
                 end in
          match with_credentials with
          | Some compiled =>
              (Some compiled, None, true,
               CREDENTIALS transport (map fst (map_to_list vars_required)))
          | None => try_configs server backend rest (S i) transports_tried error_msg error_code
          end
      end
  end.

(** [process_server_with_model], as the future of the record ends. *)
Definition process_server_with_model (arg : process_arg) : outcome :=
  let '(server, model_idx, backends) := arg in
  if worker_dies out server then Raised
  else match backends !! (model_idx mod length backends) with
       | None => Raised
       | Some backend =>
           Returned
             (try_configs server backend
                (Spawn.get_spawn_configs (Server.origin_keys server) (Server.raw server))
                0 [] "" "")
       end.

End Processor.

(** *** The compiler object, the files and what is printed *)

Record CompiledDoc : Type :=
  { compiledAt : string; totalCount : nat; successCount : nat;
    failedCount : nat; retryCount : nat; doc_servers : list CompiledServer.t }.

Record FailedDoc : Type :=
  { failedAt : string; failed_totalCount : nat; failed_servers : list FailedServer.t }.

(** The three files under [output/]; [None] when the file does not exist. *)
Record Disk : Type :=
  { PROGRESS_PATH : option Progress.t;
    MCPCOMPILED_PATH : option CompiledDoc;
    FAILEDSERVERS_PATH : option FailedDoc }.

Inductive file : Type := ProgressFile | CompiledFile | FailedFile.

Inductive tag : Type := OK | CRED | FAIL | ERROR | RETRY_SUCCESS | RETRY_ERROR.

(** What the run does that can be seen from outside, in order. *)
Inductive action : Type :=
| Submit (registry_id : string) (model_idx : nat)
| Line (t : tag) (registry_id : string)
| Write (f : file).

(** [self] of [MCPCompiler], with the disk and the trace of actions. *)
Record Compiler : Type :=
  { servers : list Server.t;
    compiled : gmap string CompiledServer.t;
    failed : gmap string FailedServer.t;
    progress : Progress.t;
    backends : list Llm.Backend;
    disk : Disk;
    ticks : nat;
    trace : list action }.

Definition with_compiled (m : gmap string CompiledServer.t) (c : Compiler) : Compiler :=
  {| servers := servers c; compiled := m; failed := failed c; progress := progress c;
     backends := backends c; disk := disk c; ticks := ticks c; trace := trace c |}.

Definition with_failed (m : gmap string FailedServer.t) (c : Compiler) : Compiler :=
  {| servers := servers c; compiled := compiled c; failed := m; progress := progress c;
     backends := backends c; disk := disk c; ticks := ticks c; trace := trace c |}.

Definition with_progress (p : Progress.t) (c : Compiler) : Compiler :=
  {| servers := servers c; compiled := compiled c; failed := failed c; progress := p;
     backends := backends c; disk := disk c; ticks := ticks c; trace := trace c |}.

Definition with_servers (l : list Server.t) (c : Compiler) : Compiler :=
  {| servers := l; compiled := compiled c; failed := failed c; progress := progress c;
     backends := backends c; disk := disk c; ticks := ticks c; trace := trace c |}.

Definition with_disk (d : Disk) (c : Compiler) : Compiler :=
  {| servers := servers c; compiled := compiled c; failed := failed c;
     progress := progress c; backends := backends c; disk := d;
     ticks := ticks c; trace := trace c |}.

Definition tick (c : Compiler) : Compiler :=
  {| servers := servers c; compiled := compiled c; failed := failed c;
     progress := progress c; backends := backends c; disk := disk c;
     ticks := S (ticks c); trace := trace c |}.

Definition emit (a : action) (c : Compiler) : Compiler :=
  {| servers := servers c; compiled := compiled c; failed := failed c;
     progress := progress c; backends := backends c; disk := disk c;
     ticks := ticks c; trace := (trace c ++ [a])%list |}.

Definition update_progress (f : Progress.t -> Progress.t) (c : Compiler) : Compiler :=
  with_progress (f (progress c)) c.

Import Progress.

Definition add_success (p : Progress.t) : Progress.t :=
  {| phase := phase p; processed := processed p; total := total p;
     last_processed_id := last_processed_id p; started_at := started_at p;
     updated_at := updated_at p; success_count := S (success_count p);
     failed_count := failed_count p; retry_count := retry_count p |}.

Definition add_failed (p : Progress.t) : Progress.t :=
  {| phase := phase p; processed := processed p; total := total p;
     last_processed_id := last_processed_id p; started_at := started_at p;
     updated_at := updated_at p; success_count := success_count p;
     failed_count := S (failed_count p); retry_count := retry_count p |}.

Definition add_retry (p : Progress.t) : Progress.t :=
  {| phase := phase p; processed := processed p; total := total p;
     last_processed_id := last_processed_id p; started_at := started_at p;
     updated_at := updated_at p; success_count := success_count p;
     failed_count := failed_count p; retry_count := S (retry_count p) |}.

Definition add_processed (p : Progress.t) : Progress.t :=
  {| phase := phase p; processed := S (processed p); total := total p;
     last_processed_id := last_processed_id p; started_at := started_at p;
     updated_at := updated_at p; success_count := success_count p;
     failed_count := failed_count p; retry_count := retry_count p |}.

Definition set_last (registry_id : string) (p : Progress.t) : Progress.t :=
  {| phase := phase p; processed := processed p; total := total p;
     last_processed_id := registry_id; started_at := started_at p;
     updated_at := updated_at p; success_count := success_count p;
     failed_count := failed_count p; retry_count := retry_count p |}.

Definition set_updated (s : string) (p : Progress.t) : Progress.t :=
  {| phase := phase p; processed := processed p; total := total p;
     last_processed_id := last_processed_id p; started_at := started_at p;
     updated_at := s; success_count := success_count p;
     failed_count := failed_count p; retry_count := retry_count p |}.

Definition begin_phase1 (n_servers : nat) (started : string) (p : Progress.t) : Progress.t :=
  {| phase := 1; processed := processed p; total := n_servers;
     last_processed_id := last_processed_id p;
     started_at := if String.eqb (started_at p) "" then started else started_at p;
     updated_at := updated_at p; success_count := success_count p;
     failed_count := failed_count p; retry_count := retry_count p |}.

(** [list(d.values())] *)
Definition values {V} (m : gmap string V) : list V := map snd (map_to_list m).

Section Pipeline.
Variable out : Outside.

(** [datetime.now(timezone.utc).isoformat().replace("+00:00", "Z")] in the
    main thread: the clock is read and moves on. *)
Definition stamp_now (c : Compiler) : string := Clock.utc_stamp (now out (ticks c)).

Definition load_progress (c : Compiler) : option Progress.t := PROGRESS_PATH (disk c).

(** [{s["id"]: s for s in data.get("servers", [])}], or [{}] without the file *)
Definition load_compiled (d : Disk) : gmap string CompiledServer.t :=
  match MCPCOMPILED_PATH d with
  | Some doc =>
      foldl (fun m s => <[CompiledServer.id s := s]> m) ∅ (doc_servers doc)
  | None => ∅
  end.

Definition save_progress (c : Compiler) : Compiler :=
  let c := update_progress (set_updated (stamp_now c)) c in
  let d := disk c in
  emit (Write ProgressFile)
    (tick (with_disk {| PROGRESS_PATH := Some (progress c);
                        MCPCOMPILED_PATH := MCPCOMPILED_PATH d;
                        FAILEDSERVERS_PATH := FAILEDSERVERS_PATH d |} c)).

Definition save_compiled (c : Compiler) : Compiler :=
  let servers := values (compiled c) in
  let output :=
    {| compiledAt := stamp_now c; totalCount := length servers;
       successCount := success_count (progress c);
       failedCount := size (failed c);
       retryCount := retry_count (progress c);
       doc_servers := servers |} in
  let d := disk c in
  emit (Write CompiledFile)
    (tick (with_disk {| PROGRESS_PATH := PROGRESS_PATH d;
                        MCPCOMPILED_PATH := Some output;
                        FAILEDSERVERS_PATH := FAILEDSERVERS_PATH d |} c)).

Definition save_failed (c : Compiler) : Compiler :=
  let servers := values (failed c) in
  let output :=
    {| failedAt := stamp_now c; failed_totalCount := length servers;
       failed_servers := servers |} in
  let d := disk c in
  emit (Write FailedFile)
    (tick (with_disk {| PROGRESS_PATH := PROGRESS_PATH d;
                        MCPCOMPILED_PATH := MCPCOMPILED_PATH d;
                        FAILEDSERVERS_PATH := Some output |} c)).

(** The three saves of a checkpoint, in the order of the code. *)
Definition flush (c : Compiler) : Compiler :=
  save_failed (save_compiled (save_progress c)).

(** [MCPCompiler()] on a given disk: the compiled servers are read back,
    nothing else is. *)
Definition init (d : Disk) : Compiler :=
  {| servers := []; compiled := load_compiled d; failed := ∅;
     progress := Progress.default; backends := Llm.get_available_backends;
     disk := d; ticks := 0; trace := [] |}.

(** [load_servers] on the decoded registry *)
Definition load_servers (registry : list Server.t) (c : Compiler) : Compiler :=
  with_servers (filter (fun s => Server.origin s = "mcp") registry) c.

(** *** Phase 1 *)

Fixpoint first_index (registry_id : string) (l : list Server.t) : option nat :=
  match l with
  | [] => None
  | s :: rest =>
      if String.eqb (Server.registryId s) registry_id then Some 0
      else match first_index registry_id rest with
           | Some i => Some (S i)
           | None => None
           end
  end.

(** [next((i for i, s in enumerate(l) if ...), 0) + 1] *)
Definition start_idx (last : string) (l : list Server.t) : nat :=
  S (Spawn.or_default (first_index last l) 0).

(** [l[:limit]] under [if limit:]; a limit of 0 counts as no limit. *)
Definition apply_limit {A} (limit : option nat) (l : list A) : list A :=
  match limit with
  | Some (S n) => take (S n) l
  | _ => l
  end.

Definition not_compiled (c : Compiler) (s : Server.t) : bool :=
  bool_decide (compiled c !! Server.registryId s = None).

(** [servers_to_process], once cut at the resume point, limited and
    filtered. *)
Definition servers_to_process (limit : option nat) (resume : bool) (c : Compiler)
    : list Server.t :=
  let l := servers c in
  let l :=
    if resume && negb (String.eqb (last_processed_id (progress c)) "")
    then drop (start_idx (last_processed_id (progress c)) l) l
    else l in
  let l := apply_limit limit l in
  List.filter (not_compiled c) l.

(** [[(server, idx % num_models, self.backends) for idx, server in enumerate(l)]] *)
Definition process_args (l : list Server.t) (backends : list Llm.Backend)
    : list process_arg :=
  imap (fun idx server => (server, idx mod length backends, backends)) l.

Definition arg_id (arg : process_arg) : string := Server.registryId (fst (fst arg)).

Definition submit_all (args : list process_arg) (c : Compiler) : Compiler :=
  foldl (fun c arg => emit (Submit (arg_id arg) (snd (fst arg))) c) c args.

(** The [try] block of phase 1 up to the progress counters. *)
Definition record_result (registry_id : string) (r : result) (c : Compiler) : Compiler :=
  let '(compiled_entry, failed_entry, ok, _) := r in
  let c :=
    match compiled_entry with
    | Some e =>
        let c := with_compiled (<[registry_id := e]> (compiled c)) c in
        if ok && bool_decide (CompiledServer.vars_required e = ∅)
        then emit (Line OK registry_id) (update_progress add_success c)
        else emit (Line CRED registry_id) (update_progress add_failed c)
    | None => c
    end in
  let c :=
    match failed_entry with
    | Some e =>
        let c := with_failed (<[registry_id := e]> (failed c)) c in
        emit (Line FAIL registry_id) (update_progress add_failed c)
    | None => c
    end in
  update_progress (fun p => set_last registry_id (add_processed p)) c.

(** One turn of [for future in as_completed(futures)], on the compiler and
    [checkpoint_counter]. *)
Definition consume (st : Compiler * nat) (arg : process_arg) : Compiler * nat :=
  let '(c, checkpoint_counter) := st in
  let registry_id := arg_id arg in
  match process_server_with_model out arg with
  | Returned r =>
      let c := record_result registry_id r c in
      let checkpoint_counter := S checkpoint_counter in
      if CHECKPOINT_INTERVAL <=? checkpoint_counter
      then (flush c, 0)
      else (c, checkpoint_counter)
  | Raised =>
      (update_progress add_processed (emit (Line ERROR registry_id) c),
       checkpoint_counter)
  end.

Definition resume_progress (resume : bool) (c : Compiler) : Compiler :=
  if resume
  then match load_progress c with
       | Some p => with_progress p c
       | None => c
       end
  else c.

Definition start_phase1 (c : Compiler) : Compiler :=
  let c' := update_progress (begin_phase1 (length (servers c)) (stamp_now c)) c in
  if String.eqb (started_at (progress c)) "" then tick c' else c'.

Definition run_phase1 (limit : option nat) (resume : bool) (workers : nat)
    (c : Compiler) : Compiler :=
  let c := resume_progress resume c in
  let todo := servers_to_process limit resume c in
  let c := start_phase1 c in
  match todo with
  | [] => c
  | _ :: _ =>
      let args := process_args todo (backends c) in
      let c := submit_all args c in
      flush (fst (foldl consume (c, 0) (as_completed out args)))
  end.

(** *** Phase 2 *)

Definition retryable_failure (c : Compiler) (s : Server.t) : bool :=
  match failed c !! Server.registryId s with
  | Some f => FailedServer.retryable f
  | None => false
  end.

Definition servers_to_retry (limit : option nat) (c : Compiler) : list Server.t :=
  apply_limit limit (List.filter (retryable_failure c) (servers c)).

Definition remove_from_failed (l : list Server.t) (c : Compiler) : Compiler :=
  with_failed (foldl (fun m s => delete (Server.registryId s) m) (failed c) l) c.

Definition retry_result (registry_id : string) (r : result) (c : Compiler) : Compiler :=
  let '(compiled_entry, failed_entry, ok, _) := r in
  let c :=
    match compiled_entry with
    | Some e =>
        let c := with_compiled (<[registry_id := e]> (compiled c)) c in
        if ok && bool_decide (CompiledServer.vars_required e = ∅)
        then emit (Line RETRY_SUCCESS registry_id)
               (update_progress (fun p => add_retry (add_success p)) c)
        else update_progress add_failed c
    | None => c
    end in
  match failed_entry with
  | Some e =>
      with_failed (<[registry_id := FailedServer.set_retryable false e]> (failed c)) c
  | None => c
  end.

Definition consume_retry (c : Compiler) (arg : process_arg) : Compiler :=
  match process_server_with_model out arg with
  | Returned r => retry_result (arg_id arg) r c
  | Raised => emit (Line RETRY_ERROR (arg_id arg)) c
  end.

Definition run_phase2 (limit : option nat) (c : Compiler) : Compiler :=
  let todo := servers_to_retry limit c in
  match todo with
  | [] => c
  | _ :: _ =>
      let c := remove_from_failed todo c in
      let args := process_args todo (backends c) in
      let c := submit_all args c in
      save_failed (save_compiled (foldl consume_retry c (as_completed out args)))
  end.

Definition run_all (limit : option nat) (resume : bool) (workers : nat)
    (c : Compiler) : Compiler :=
  run_phase2 limit (run_phase1 limit resume workers c).

(** The command line, after [argparse]. *)
Record Args : Type :=
  { arg_phase : option nat; arg_limit : option nat; arg_start : nat;
    arg_resume : bool; arg_workers : nat; arg_test : bool }.

Definition main (registry : list Server.t) (d : Disk) (a : Args) : Compiler :=
  let c := load_servers registry (init d) in
  let c := if 0 <? arg_start a then with_servers (drop (arg_start a) (servers c)) c else c in
  let limit :=
    match arg_limit a with
    | Some (S n) => Some (S n)
    | _ => if arg_test a then Some 10 else None
    end in
  match arg_phase a with
  | Some 1 => run_phase1 limit (arg_resume a) (arg_workers a) c
  | Some 2 => run_phase2 limit c
  | _ => run_all limit (arg_resume a) (arg_workers a) c
  end.

End Pipeline.

End Mcp.

(** ** [model-compiler/compiler.py] *)

Module Model.

Definition CHECKPOINT_INTERVAL : nat := 50.

Record ProgressData : Type :=
  { total : nat; processed : nat; success_count : nat; failed_count : nat;
    last_processed_id : option string; started_at : option string }.

(** [ProgressData()] *)
Definition no_progress : ProgressData :=
  {| total := 0; processed := 0; success_count := 0; failed_count := 0;
     last_processed_id := None; started_at := None |}.

(** An entry of [models_extended.json]; it has an [id], and may have a
    [modelId]. *)
Record Entry : Type := { modelId : option string; id : string; name : string }.

(** [s.get("modelId", s.get("id"))] *)
Definition model_id (s : Entry) : string := Spawn.or_default (modelId s) (id s).

(** [CompiledModelInfo.__dict__], the part the compiler reads *)
Record Info : Type := { info_id : string; info_name : string; contextLength : nat }.

Record Failure : Type :=
  { failure_id : string; originalName : string; failedAt : string }.

Record Backend : Type := { provider : string; model : string; endpoint : string }.

Definition BACKENDS : list Backend :=
  [ {| provider := "ollama"; model := "qwen"; endpoint := "/ollama/qwen/chat" |};
    {| provider := "ollama"; model := "qwen-14b"; endpoint := "/ollama/qwen-14b/chat" |};
    {| provider := "ollama"; model := "mistral"; endpoint := "/ollama/mistral/chat" |};
    {| provider := "ollama"; model := "gemma"; endpoint := "/ollama/gemma/chat" |};
    {| provider := "ollama"; model := "llava"; endpoint := "/ollama/llava/chat" |} ].

Record ProgressDoc : Type :=
  { doc_progress : ProgressData; updatedAt : string }.

Record CompiledDoc : Type :=
  { compiledAt : string; totalCount : nat; successCount : nat; failedCount : nat;
    models_compiled : list Info }.

Record FailedDoc : Type :=
  { doc_failedAt : string; failed_totalCount : nat; models_failed : list Failure }.

Record Disk : Type :=
  { PROGRESS_PATH : option ProgressDoc;
    COMPILED_OUTPUT_PATH : option CompiledDoc;
    FAILED_OUTPUT_PATH : option FailedDoc }.

Inductive file : Type := ProgressFile | CompiledFile | FailedFile.

Inductive action : Type :=
| Task (model_id : string) (backend : option Backend)
| Done (model_id : string)
| Write (f : file).

Record Compiler : Type :=
  { models : list Entry;
    compiled : gmap string Info;
    failed : gmap string Failure;
    progress : ProgressData;
    disk : Disk;
    ticks : nat;
    trace : list action }.

Record Outside : Type :=
  { compile_model_worker : nat -> Entry -> option Backend -> option Info;
    utcnow : nat -> Clock.datetime }.

Definition ModelCompiler (l : list Entry) (d : Disk) : Compiler :=
  {| models := l; compiled := ∅; failed := ∅; progress := no_progress;
     disk := d; ticks := 0; trace := [] |}.

Definition set_state (m : gmap string Info) (f : gmap string Failure)
    (p : ProgressData) (c : Compiler) : Compiler :=
  {| models := models c; compiled := m; failed := f; progress := p;
     disk := disk c; ticks := ticks c; trace := trace c |}.

(** [load_progress]: nothing is read unless the progress file exists. *)
Definition load_progress (c : Compiler) : Compiler :=
  match PROGRESS_PATH (disk c) with
  | None => c
  | Some doc =>
      let m :=
        match COMPILED_OUTPUT_PATH (disk c) with
        | Some cd => foldl (fun m s => <[info_id s := s]> m) (compiled c) (models_compiled cd)
        | None => compiled c
        end in
      let f :=
        match FAILED_OUTPUT_PATH (disk c) with
        | Some fd => foldl (fun m s => <[failure_id s := s]> m) (failed c) (models_failed fd)
        | None => failed c
        end in
      set_state m f (doc_progress doc) c
  end.

Section Run.
Variable out : Outside.

Definition stamp_now (c : Compiler) : string := Clock.utcnow_stamp (utcnow out (ticks c)).

Definition written (f : file) (d : Disk) (c : Compiler) : Compiler :=
  {| models := models c; compiled := compiled c; failed := failed c;
     progress := progress c; disk := d; ticks := S (ticks c);
     trace := (trace c ++ [Write f])%list |}.

Definition save_progress (c : Compiler) : Compiler :=
  written ProgressFile
    {| PROGRESS_PATH := Some {| doc_progress := progress c; updatedAt := stamp_now c |};
       COMPILED_OUTPUT_PATH := COMPILED_OUTPUT_PATH (disk c);
       FAILED_OUTPUT_PATH := FAILED_OUTPUT_PATH (disk c) |} c.

Definition save_compiled (c : Compiler) : Compiler :=
  written CompiledFile
    {| PROGRESS_PATH := PROGRESS_PATH (disk c);
       COMPILED_OUTPUT_PATH :=
         Some {| compiledAt := stamp_now c; totalCount := size (compiled c);
                 successCount := success_count (progress c);
                 failedCount := failed_count (progress c);
                 models_compiled := map snd (map_to_list (compiled c)) |};
       FAILED_OUTPUT_PATH := FAILED_OUTPUT_PATH (disk c) |} c.

Definition save_failed (c : Compiler) : Compiler :=
  written FailedFile
    {| PROGRESS_PATH := PROGRESS_PATH (disk c);
       COMPILED_OUTPUT_PATH := COMPILED_OUTPUT_PATH (disk c);
       FAILED_OUTPUT_PATH :=
         Some {| doc_failedAt := stamp_now c; failed_totalCount := size (failed c);
                 models_failed := map snd (map_to_list (failed c)) |} |} c.

Definition flush (c : Compiler) : Compiler :=
  save_failed (save_compiled (save_progress c)).

Definition first_index (key : string) (l : list Entry) : option nat :=
  fst <$> list_find (fun s => model_id s = key) l.

Definition models_to_process (limit : option nat) (resume : bool) (c : Compiler)
    : list Entry :=
  let l := models c in
  let l :=
    match Spawn.nonempty (last_processed_id (progress c)) with
    | Some last =>
        if resume then drop (S (Spawn.or_default (first_index last l) 0)) l else l
    | None => l
    end in
  let l := match limit with Some n => take n l | None => l end in
  List.filter (fun s => bool_decide (compiled c !! model_id s = None)) l.

(** The loop [for i, model in enumerate(models_to_process)] that builds
    [tasks]. *)
Definition tasks (l : list Entry) (backends : list Backend)
    : list (Entry * option Backend) :=
  imap (fun i m => (m, backends !! (i mod length backends))) l.

(** One turn of the loop over [pool.imap(...)], which yields the results
    in the order of the tasks. *)
Definition consume (c : Compiler) (it : nat * (Entry * option Backend)) : Compiler :=
  let '(i, (m, backend)) := it in
  let key := model_id m in
  let p := progress c in
  let c :=
    match compile_model_worker out i m backend with
    | Some data =>
        set_state (<[key := data]> (compiled c)) (failed c)
          {| total := total p; processed := S (processed p);
             success_count := S (success_count p); failed_count := failed_count p;
             last_processed_id := Some key; started_at := started_at p |} c
    | None =>
        set_state (compiled c)
          (<[key := {| failure_id := key; originalName := name m;
                       failedAt := stamp_now c |}]> (failed c))
          {| total := total p; processed := S (processed p);
             success_count := success_count p; failed_count := S (failed_count p);
             last_processed_id := Some key; started_at := started_at p |} c
    end in
  let c :=
    {| models := models c; compiled := compiled c; failed := failed c;
       progress := progress c; disk := disk c; ticks := ticks c;
       trace := (trace c ++ [Done key])%list |} in
  if processed (progress c) mod CHECKPOINT_INTERVAL =? 0 then flush c else c.

Definition announce (ts : list (Entry * option Backend)) (c : Compiler) : Compiler :=
  {| models := models c; compiled := compiled c; failed := failed c;
     progress := progress c; disk := disk c; ticks := ticks c;
     trace := (trace c ++ map (fun t => Task (model_id (fst t)) (snd t)) ts)%list |}.

Definition run (limit : option nat) (resume : bool) (workers : nat) (c : Compiler)
    : Compiler :=
  let c := if resume then load_progress c else c in
  let todo := models_to_process limit resume c in
  let p := progress c in
  let c :=
    set_state (compiled c) (failed c)
      {| total := length (models c); processed := processed p;
         success_count := success_count p; failed_count := failed_count p;
         last_processed_id := last_processed_id p;
         started_at :=
           match Spawn.nonempty (started_at p) with
           | Some s => Some s
           | None => Some (stamp_now c)
           end |} c in
  match todo with
  | [] => c
  | _ :: _ =>
      let ts := tasks todo BACKENDS in
      flush (foldl consume (announce ts c) (imap (fun i t => (i, t)) ts))
  end.

End Run.

End Model.

(** ** The two services: backend selection, and the tool loop of the model
    compiler ([model-compiler/llm_service.py]) *)

(** [_select_backend], the same text in both services: the first backend
    whose model is [name], when [name] is given and not empty, and
    [BACKENDS[0]] otherwise; [None] is the [IndexError] of an empty list. *)
Section SelectBackend.
Context {B : Type}.
Variable model : B -> string.

Fixpoint first_named (name : option string) (backends : list B) : option B :=
  match backends with
  | [] => None
  | b :: rest =>
      if Llm.truthy name && bool_decide (Some (model b) = name) then Some b
      else first_named name rest
  end.

Definition select_backend_in (backends : list B) (name : option string) : option B :=
  match first_named name backends with
  | Some b => Some b
  | None => head backends
  end.

End SelectBackend.

Module LLMService.

Definition select_backend : option string -> option Llm.Backend :=
  select_backend_in Llm.model Llm.BACKENDS.

End LLMService.

Module ToolCallingLLMService.

Definition select_backend : option string -> option Model.Backend :=
  select_backend_in Model.model Model.BACKENDS.

(** An entry of [msg["tool_calls"]]: [tc.get("function", {}).get("name")]
    and [func.get("arguments", {}).get("query")]. *)
Record ToolCall : Type := { function_name : option string; query : option string }.

(** [result.get("message", {})]: its content, if any, and its tool calls
    (none when the key is missing or its value is empty). *)
Record Reply : Type := { content : option string; tool_calls : list ToolCall }.

Inductive message : Type :=
| System (content : string)
| User (content : string)
| Assistant (msg : Reply)
| ToolMessage (content : string).

(** What [requests.post] ends with: a [RequestException], or a response
    with its status code and what [response.json()] holds under
    [message]. *)
Inductive response : Type :=
| RequestException
| Response (status_code : nat) (msg : Reply).

(** What the loop does that can be seen from outside, in order. *)
Inductive event : Type :=
| Post (url : string) (model : string) (messages : list message)
| Search (query : string).

(** The world outside: the edge server (which may answer the [i]-th
    request of a call as it likes), the web search, and the reading of the
    final content as JSON. *)
Record Outside (Data : Type) : Type :=
  { server : string;
    system_prompt : string;
    post : nat -> string -> string -> list message -> response;
    web_search : string -> string;
    parse_json_response : string -> option Data }.
Arguments server {Data}.
Arguments system_prompt {Data}.
Arguments post {Data}.
Arguments web_search {Data}.
Arguments parse_json_response {Data}.

Section Tools.
Context {Data : Type}.
Variable out : Outside Data.

(** The loop [for tc in msg["tool_calls"]], on [messages] and the log. *)
Fixpoint run_tools (calls : list ToolCall) (messages : list message)
    (log : list event) : list message * list event :=
  match calls with
  | [] => (messages, log)
  | tc :: rest =>
      if bool_decide (function_name tc = Some "web_search")
      then
        let query := Spawn.or_default (query tc) "" in
        let search_res := web_search out query in
        run_tools rest
          (messages ++ [ToolMessage (Py.prefix_slice 2000 search_res)])%list
          (log ++ [Search query])%list
      else run_tools rest messages log
  end.

(** The loop [for _ in range(3)], with [turns] turns left, the [i]-th
    request next. *)
Fixpoint tool_turns (url model : string) (turns i : nat) (messages : list message)
    (log : list event) : option Data * list event :=
  match turns with
  | O => (None, log)
  | S turns' =>
      let log := (log ++ [Post url model messages])%list in
      match post out i url model messages with
      | RequestException => (None, log)
      | Response status_code msg =>
          if negb (status_code =? 200) then (None, log)
          else
            match tool_calls msg with
            | _ :: _ =>
                let '(messages, log) :=
                  run_tools (tool_calls msg) (messages ++ [Assistant msg])%list log in
                tool_turns url model turns' (S i) messages log
            | [] =>
                (parse_json_response out (Spawn.or_default (content msg) ""), log)
            end
      end
  end.

(** [_call_ollama_with_tools], with the log of what it did. *)
Definition call_ollama_with_tools (prompt : string) (backend : Model.Backend)
    : option Data * list event :=
  tool_turns (server out ++ Model.endpoint backend) (Model.model backend) 3 0
    [System (system_prompt out); User prompt] [].

End Tools.

End ToolCallingLLMService.

(** ** Concrete inputs used below *)

Module Sample.

Definition msg_api_key : string :=
  "Server " ++ Py.dquote ++ "mcp:x" ++ Py.dquote ++
  " requires credentials: API_KEY. Add your key...".

Definition instant : Clock.datetime :=
  {| Clock.year := 2024; Clock.month := 1; Clock.day := 2; Clock.hour := 3;
     Clock.minute := 4; Clock.second := 5; Clock.microsecond := 4321 |}.


Definition no_origin : Spawn.Origin :=
  {| Spawn.packages := []; Spawn.remotes := []; Spawn.remoteUrl := None;
     Spawn.image := None |}.

(** A registry record with nothing to spawn from. *)
Definition server (registry_id : string) : Mcp.Server.t :=
  {| Mcp.Server.registryId := registry_id; Mcp.Server.name := registry_id;
     Mcp.Server.namespace := "acme"; Mcp.Server.description := "";
     Mcp.Server.repoUrl := ""; Mcp.Server.slug := registry_id;
     Mcp.Server.source := "registry"; Mcp.Server.origin := "mcp";
     Mcp.Server.origin_keys := no_origin; Mcp.Server.raw := None |}.

(** Nothing spawns, no metadata comes back, no worker dies, and the futures
    complete in the order of submission. *)
Definition quiet : Mcp.Outside :=
  {| Mcp.spawn_server_via_runtime := fun _ _ _ => Mcp.SpawnError "boom" "E1";
     Mcp.clean_server_with_tools := fun _ _ _ _ => None;
     Mcp.clean_server_from_repo := fun _ _ _ => None;
     Mcp.now := fun _ => instant;
     Mcp.worker_now := fun _ => instant;
     Mcp.worker_dies := fun _ => false;
     Mcp.as_completed := fun l => l |}.

(** As [quiet], but every worker dies of an unexpected exception. *)
Definition deadly : Mcp.Outside :=
  {| Mcp.spawn_server_via_runtime := Mcp.spawn_server_via_runtime quiet;
     Mcp.clean_server_with_tools := Mcp.clean_server_with_tools quiet;
     Mcp.clean_server_from_repo := Mcp.clean_server_from_repo quiet;
     Mcp.now := Mcp.now quiet;
     Mcp.worker_now := Mcp.worker_now quiet;
     Mcp.worker_dies := fun _ => true;
     Mcp.as_completed := Mcp.as_completed quiet |}.

Definition no_disk : Mcp.Disk :=
  {| Mcp.PROGRESS_PATH := None; Mcp.MCPCOMPILED_PATH := None;
     Mcp.FAILEDSERVERS_PATH := None |}.

Definition one : list Mcp.Server.t := [server "a"].

Definition two : list Mcp.Server.t := map server ["a"; "b"].

(** The failed entry an earlier, interrupted run wrote for a record. *)
Definition failure (registry_id : string) : Mcp.FailedServer.t :=
  {| Mcp.FailedServer.id := registry_id; Mcp.FailedServer.registryId := registry_id;
     Mcp.FailedServer.name := registry_id; Mcp.FailedServer.description := "";
     Mcp.FailedServer.tags := []; Mcp.FailedServer.error := "boom";
     Mcp.FailedServer.error_code := "E1"; Mcp.FailedServer.transports_tried := [];
     Mcp.FailedServer.failed_at := "2024-01-01T00:00:00Z";
     Mcp.FailedServer.retryable := false |}.

(** The disk an interrupted run leaves after [a] failed: the three
    documents of its last flush. *)
Definition interrupted : Mcp.Disk :=
  {| Mcp.PROGRESS_PATH :=
       Some {| Mcp.Progress.phase := 1; Mcp.Progress.processed := 1;
               Mcp.Progress.total := 2; Mcp.Progress.last_processed_id := "a";
               Mcp.Progress.started_at := "2024-01-01T00:00:00Z";
               Mcp.Progress.updated_at := "2024-01-01T00:00:00Z";
               Mcp.Progress.success_count := 0; Mcp.Progress.failed_count := 1;
               Mcp.Progress.retry_count := 0 |};
     Mcp.MCPCOMPILED_PATH :=
       Some {| Mcp.compiledAt := "2024-01-01T00:00:00Z"; Mcp.totalCount := 0;
               Mcp.successCount := 0; Mcp.failedCount := 1; Mcp.retryCount := 0;
               Mcp.doc_servers := [] |};
     Mcp.FAILEDSERVERS_PATH :=
       Some {| Mcp.failedAt := "2024-01-01T00:00:00Z"; Mcp.failed_totalCount := 1;
               Mcp.failed_servers := [failure "a"] |} |}.

(** [compiler.py --resume] *)
Definition resume_args : Mcp.Args :=
  {| Mcp.arg_phase := None; Mcp.arg_limit := None; Mcp.arg_start := 0;
     Mcp.arg_resume := true; Mcp.arg_workers := 3; Mcp.arg_test := false |}.

(** The same situation for the model compiler. *)
Definition models : list Model.Entry :=
  [ {| Model.modelId := None; Model.id := "a"; Model.name := "A" |};
    {| Model.modelId := None; Model.id := "b"; Model.name := "B" |} ].

Definition interrupted_models : Model.Disk :=
  {| Model.PROGRESS_PATH :=
       Some {| Model.doc_progress :=
                 {| Model.total := 2; Model.processed := 1; Model.success_count := 0;
                    Model.failed_count := 1; Model.last_processed_id := Some "a";
                    Model.started_at := Some "2024-01-01T00:00:00Z" |};
               Model.updatedAt := "2024-01-01T00:00:00Z" |};
     Model.COMPILED_OUTPUT_PATH :=
       Some {| Model.compiledAt := "2024-01-01T00:00:00Z"; Model.totalCount := 0;
               Model.successCount := 0; Model.failedCount := 1;
               Model.models_compiled := [] |};
     Model.FAILED_OUTPUT_PATH :=
       Some {| Model.doc_failedAt := "2024-01-01T00:00:00Z";
               Model.failed_totalCount := 1;
               Model.models_failed :=
                 [ {| Model.failure_id := "a"; Model.originalName := "A";
                      Model.failedAt := "2024-01-01T00:00:00Z" |} ] |} |}.

(** A response with seven tags: five generic ones first, then two good
    ones. *)
Definition seven_tags : Llm.Payload :=
  {| Llm.data_name := "File Reader";
     Llm.data_description := "Reads files from disk and lists folders.";
     Llm.data_tags := ["mcp"; "server"; "tool"; "api"; "client"; "git"; "github"] |}.

(** A service on which every request ends with the exception [e]. *)
Definition failing (e : Llm.exn) (jitter : nat -> Q)
    (decode : bool -> string -> option Llm.Payload) : Llm.Service :=
  {| Llm.respond := fun _ _ _ => inl e; Llm.uniform := jitter; Llm.decode := decode |}.

Definition qwen : Llm.Backend :=
  {| Llm.provider := "qwen"; Llm.model := "qwen/qwen3-32b";
     Llm.fallback := Some "meta-llama/llama-3.3-70b-instruct" |}.

Definition four : list Mcp.Server.t := map server ["a"; "b"; "c"; "d"].

(** Thirty-seven records [s00] .. [s36]. *)
Definition batch37 : list Mcp.Server.t :=
  map (fun n => server ("s" ++ Clock.pad 2 n)) (seq 0 37).

(** A record whose only hint is a remote on the local host. *)
Definition local_only : Spawn.Origin :=
  {| Spawn.packages := [];
     Spawn.remotes := [ {| Spawn.url := Some "http://localhost:3000"; Spawn.type := None |} ];
     Spawn.remoteUrl := None; Spawn.image := None |}.

(** As [quiet], but the worker of [b] dies of an unexpected exception. *)
Definition moody : Mcp.Outside :=
  {| Mcp.spawn_server_via_runtime := Mcp.spawn_server_via_runtime quiet;
     Mcp.clean_server_with_tools := Mcp.clean_server_with_tools quiet;
     Mcp.clean_server_from_repo := Mcp.clean_server_from_repo quiet;
     Mcp.now := Mcp.now quiet;
     Mcp.worker_now := Mcp.worker_now quiet;
     Mcp.worker_dies := fun s => String.eqb (Mcp.Server.registryId s) "b";
     Mcp.as_completed := fun l => rev l |}.



(** As [quiet], but the worker of [s03] dies of an unexpected exception. *)
Definition stumbling : Mcp.Outside :=
  {| Mcp.spawn_server_via_runtime := Mcp.spawn_server_via_runtime quiet;
     Mcp.clean_server_with_tools := Mcp.clean_server_with_tools quiet;
     Mcp.clean_server_from_repo := Mcp.clean_server_from_repo quiet;
     Mcp.now := Mcp.now quiet;
     Mcp.worker_now := Mcp.worker_now quiet;
     Mcp.worker_dies := fun s => String.eqb (Mcp.Server.registryId s) "s03";
     Mcp.as_completed := Mcp.as_completed quiet |}.

End Sample.

(** [YYYY-MM-DDTHH:MM:SS] *)
Definition to_the_second (d : Clock.datetime) : string :=
  Clock.pad 4 (Clock.year d) ++ "-" ++ Clock.pad 2 (Clock.month d) ++ "-" ++
  Clock.pad 2 (Clock.day d) ++ "T" ++ Clock.pad 2 (Clock.hour d) ++ ":" ++
  Clock.pad 2 (Clock.minute d) ++ ":" ++ Clock.pad 2 (Clock.second d).

(** What the specification promises of a timestamp: the instant to the
    second, with the fraction stripped, and a [Z]. *)
Definition stamp_to_the_second (d : Clock.datetime) : string :=
  to_the_second d ++ "Z".

(** What the code writes: the fraction is there unless it is zero. *)
Definition stamp_with_fraction (d : Clock.datetime) : string :=
  to_the_second d ++
  (if Clock.microsecond d =? 0 then "" else "." ++ Clock.pad 6 (Clock.microsecond d)) ++
  "Z".

(** The timestamps of a result, each required to be [s]. *)
Definition result_stamped (s : string) (r : Mcp.result) : Prop :=
  match r with
  | (compiled_entry, failed_entry, _, _) =>
      match compiled_entry with
      | Some e => Mcp.CompiledServer.compiled_at e = s
      | None => True
      end /\
      match failed_entry with
      | Some e => Mcp.FailedServer.failed_at e = s
      | None => True
      end
  end.

(** Orders and selections used to state what [get_spawn_configs] returns. *)
Definition key_le (a b : Spawn.Config) : Prop := Spawn.sort_key a <= Spawn.sort_key b.

Definition of_kind (t : string) (c : Spawn.Config) : bool :=
  String.eqb (Spawn.transport c) t.

Definition with_key (k : nat) (c : Spawn.Config) : bool := Spawn.sort_key c =? k.

Definition kinds (l : list Spawn.Config) : list string := map Spawn.transport l.

(** A result carries one entry: a compiled one, or a failed one that may
    not be retried. *)
Definition one_entry (r : Mcp.result) : Prop :=
  match r with
  | (Some _, None, _, _) => True
  | (None, Some e, _, _) => Mcp.FailedServer.retryable e = false
  | _ => False
  end.

(** No entry of the failed map may be retried. *)
Definition none_retryable (c : Mcp.Compiler) : Prop :=
  map_Forall (fun _ e => Mcp.FailedServer.retryable e = false) (Mcp.failed c).

(** The failed entry of what a future holds, if it holds one. *)
Definition failed_entry_of (o : Mcp.outcome) : option Mcp.FailedServer.t :=
  match o with
  | Mcp.Returned (_, e, _, _) => e
  | Mcp.Raised => None
  end.

(** *** What a run prints and writes *)

Definition submission (a : Mcp.action) : option (string * nat) :=
  match a with
  | Mcp.Submit registry_id model_idx => Some (registry_id, model_idx)
  | _ => None
  end.

(** The submissions of a trace: which record went to which backend slot. *)
Definition submitted (tr : list Mcp.action) : list (string * nat) :=
  omap submission tr.

Definition is_line (a : Mcp.action) : Prop :=
  match a with Mcp.Line _ _ => True | _ => False end.

Definition is_write (a : Mcp.action) : bool :=
  match a with Mcp.Write _ => true | _ => false end.

(** The three writes of one flush. *)
Definition flush_writes : list Mcp.action :=
  [Mcp.Write Mcp.ProgressFile; Mcp.Write Mcp.CompiledFile; Mcp.Write Mcp.FailedFile].

(** For each flush of a trace (counted when its last file is written), the
    number of lines printed before it, those of the [seen] before included:
    a line is printed for every future that completes. *)
Fixpoint flush_points (seen : nat) (tr : list Mcp.action) : list nat :=
  match tr with
  | [] => []
  | Mcp.Line _ _ :: rest => flush_points (S seen) rest
  | Mcp.Write Mcp.FailedFile :: rest => seen :: flush_points seen rest
  | _ :: rest => flush_points seen rest
  end.

(** The lines phase 1 prints for a result. *)
Definition result_lines (registry_id : string) (r : Mcp.result) : list Mcp.action :=
  match r with
  | (compiled_entry, failed_entry, ok, _) =>
      (match compiled_entry with
       | Some e =>
           [Mcp.Line (if ok && bool_decide (Mcp.CompiledServer.vars_required e = ∅)
                      then Mcp.OK else Mcp.CRED) registry_id]
       | None => []
       end ++
       match failed_entry with
       | Some _ => [Mcp.Line Mcp.FAIL registry_id]
       | None => []
       end)%list
  end.

(** The lines phase 1 prints when a future completes. *)
Definition completion_lines (out : Mcp.Outside) (arg : Mcp.process_arg)
    : list Mcp.action :=
  match Mcp.process_server_with_model out arg with
  | Mcp.Returned r => result_lines (Mcp.arg_id arg) r
  | Mcp.Raised => [Mcp.Line Mcp.ERROR (Mcp.arg_id arg)]
  end.

(** What the loop of phase 1 prints and writes on the completions [args],
    started with [checkpoint_counter = k]. *)
Fixpoint loop_actions (out : Mcp.Outside) (k : nat) (args : list Mcp.process_arg)
    : list Mcp.action :=
  match args with
  | [] => []
  | arg :: rest =>
      (completion_lines out arg ++
       match Mcp.process_server_with_model out arg with
       | Mcp.Returned _ =>
           if Mcp.CHECKPOINT_INTERVAL <=? S k
           then flush_writes ++ loop_actions out 0 rest
           else loop_actions out (S k) rest
       | Mcp.Raised => loop_actions out k rest
       end)%list
  end.

(** The future of [arg] ends with a result. *)
Definition returns (out : Mcp.Outside) (arg : Mcp.process_arg) : Prop :=
  exists r, Mcp.process_server_with_model out arg = Mcp.Returned r.

(** The flush points of [n] completions that all return, from [seen] lines
    printed and [checkpoint_counter = k] on. *)
Fixpoint cadence (seen k n : nat) : list nat :=
  match n with
  | O => []
  | S n' =>
      if Mcp.CHECKPOINT_INTERVAL <=? S k
      then S seen :: cadence (S seen) 0 n'
      else cadence (S seen) (S k) n'
  end.

(** The compiler after the first [n] completions of phase 1: a point at
    which the maps can be observed. *)
Definition phase1_after (out : Mcp.Outside) (limit : option nat) (resume : bool)
    (c : Mcp.Compiler) (n : nat) : Mcp.Compiler :=
  let c := Mcp.resume_progress resume c in
  let todo := Mcp.servers_to_process limit resume c in
  let c := Mcp.start_phase1 out c in
  let args := Mcp.process_args todo (Mcp.backends c) in
  fst (foldl (Mcp.consume out) (Mcp.submit_all args c, 0)
         (take n (Mcp.as_completed out args))).

(** The id is in neither map. *)
Definition in_neither (c : Mcp.Compiler) (registry_id : string) : Prop :=
  Mcp.compiled c !! registry_id = None /\ Mcp.failed c !! registry_id = None.

(** No id is in both maps. *)
Definition never_both (c : Mcp.Compiler) : Prop :=
  forall registry_id,
    Mcp.compiled c !! registry_id = None \/ Mcp.failed c !! registry_id = None.

(** The id is in exactly one of the two maps. *)
Definition in_exactly_one (c : Mcp.Compiler) (registry_id : string) : Prop :=
  (is_Some (Mcp.compiled c !! registry_id) /\ Mcp.failed c !! registry_id = None) \/
  (Mcp.compiled c !! registry_id = None /\ is_Some (Mcp.failed c !! registry_id)).

(** *** Tags *)

(** The tags of a list that survive normalisation and the guard. *)
Definition valid_tags (raw : list string) : list string :=
  List.filter Llm.keep_tag (map Llm.normalize_tag raw).

(** The normalisation of a tag, step by step on its characters: lower
    case, blanks trimmed, cut to 25, every character outside [a-z0-9-]
    turned into a hyphen, hyphens trimmed. *)
Definition normalized_chars (t : string) : list ascii :=
  Py.strip_by (Ascii.eqb Llm.hyphen)
    (map (fun c => if Llm.tag_char c then c else Llm.hyphen)
       (take 25 (Py.strip_by Py.is_space (map Py.lower_char (Py.chars t))))).

(** What a tag that is kept looks like. *)
Definition well_formed_tag (tag : string) : Prop :=
  Forall (fun c => Llm.tag_char c = true) (Py.chars tag) /\
  2 <= String.length tag <= 25 /\
  head (Py.chars tag) <> Some Llm.hyphen /\
  last (Py.chars tag) <> Some Llm.hyphen /\
  tag ∉ Llm.BANNED_TAGS.

(** The name and the description pass their checks. *)
Definition name_and_description_pass (data : Llm.Payload) : bool :=
  (3 <=? String.length (Llm.clean_name (Llm.data_name data))) &&
  (20 <=? String.length (Llm.clean_description (Llm.data_description data))).

(** *** The log of an inference call *)

Definition is_attempt (ev : Llm.event) : bool :=
  match ev with Llm.Create _ Llm.StartWithBrace _ => true | _ => false end.

Definition is_fallback_shot (ev : Llm.event) : bool :=
  match ev with Llm.Create _ Llm.OnlyValidJson _ => true | _ => false end.

(** The requests of the retry loop, and those of the fallback after it. *)
Definition attempts_made (evs : list Llm.event) : nat :=
  length (List.filter is_attempt evs).

Definition fallback_shots (evs : list Llm.event) : nat :=
  length (List.filter is_fallback_shot evs).

(** A pause is the fixed delay or a backoff, and never longer than the cap. *)
Definition pause_ok (ev : Llm.event) : Prop :=
  match ev with
  | Llm.Sleep d =>
      (d = Llm.BASE_RETRY_DELAY \/ exists attempt j, attempt < Llm.MAX_RETRIES /\
                                                  d = Llm.backoff attempt j) /\
      (d <= Llm.MAX_RETRY_DELAY)%Q
  | _ => True
  end.

(** A request of the retry loop goes to [model]. *)
Definition sent_to (model : string) (ev : Llm.event) : Prop :=
  match ev with
  | Llm.Create m Llm.StartWithBrace _ => m = model
  | _ => True
  end.

(** The fallback the backend designates, when it is configured and is not
    the backend's own model. *)
Definition distinct_fallback (backend : Llm.Backend) (fb : string) : Prop :=
  Llm.fallback backend = Some fb /\ fb <> "" /\ fb <> Llm.model backend.

(** A result that is not [None] comes from a response that arrived. *)
Definition answered (svc : Llm.Service) (prompt : string)
    (r : option Llm.CleanedMetadata) : Prop :=
  r = None \/ exists n m content, Llm.respond svc n m prompt = inr (Some content).

(** A request to the fallback after the loop is a last resort: the
    fallback is configured and is not the backend's model, it is asked
    for 600 tokens, and every request of the loop went to the backend's
    own model. *)
Definition last_resort (backend : Llm.Backend) (evs : list Llm.event)
    (ev : Llm.event) : Prop :=
  match ev with
  | Llm.Create fb Llm.OnlyValidJson max_tokens =>
      distinct_fallback backend fb /\ max_tokens = 600 /\
      Forall (sent_to (Llm.model backend)) evs
  | _ => True
  end.

(** *** The retry policy, case by case *)

(** [is_reasoning_model] of [_call_llm] *)
Definition reasoning_model (backend : Llm.Backend) : bool :=
  Py.contains "minimax" (Llm.model backend) || Py.contains "m2.1" (Llm.model backend).

(** [max_tokens] of a request of the loop *)
Definition tokens (reasoning : bool) : nat := if reasoning then 2048 else 600.

(** What is made of the content of a response that arrived: nothing when
    it is missing or empty, and what it parses to otherwise. *)
Definition read (svc : Llm.Service) (reasoning : bool) (content : option string)
    : option Llm.CleanedMetadata :=
  match content with
  | Some c =>
      if Llm.truthy content
      then Llm.parse_json_response (Llm.decode svc) c reasoning
      else None
  | None => None
  end.

(** The fallback to turn to from the model [current]: the one that is
    configured, when it is not [current] itself. *)
Definition usable_fallback (fallback : option string) (current : string)
    : option string :=
  match fallback with
  | Some fb =>
      if Llm.truthy fallback && negb (String.eqb current fb) then Some fb else None
  | None => None
  end.

(** The three kinds of failure of a request: a rate limit, a timeout or
    another error of the API, and anything else. *)
Definition rate_limited (e : Llm.exn) : bool :=
  match e with Llm.RateLimitError _ => true | _ => false end.

Definition transient (e : Llm.exn) : bool :=
  match e with Llm.APITimeoutError _ | Llm.APIError _ => true | _ => false end.

Definition unexpected (e : Llm.exn) : bool :=
  match e with Llm.Exception _ => true | _ => false end.

(** What follows the loop when it ended without an answer, on the model
    [current] and after [n] requests: one request to the fallback, when
    there is one to turn to, whose answer is the result; and nothing
    otherwise. *)
Definition after_the_loop (svc : Llm.Service) (prompt : string)
    (fallback : option string) (n : nat) (current : string)
    (evs : list Llm.event) (v : option Llm.CleanedMetadata) : Prop :=
  match usable_fallback fallback current with
  | Some fb =>
      evs = [Llm.Create fb Llm.OnlyValidJson 600] /\
      v = match Llm.respond svc n fb prompt with
          | inr content => read svc false content
          | inl _ => None
          end
  | None => evs = [] /\ v = None
  end.

(** The policy: what a call does from its attempt number [a] on, on the
    model [m] and after [d] draws of the jitter, and what it answers.  The
    attempt is the [a]-th request; the answer of the service decides what
    comes next. *)
Inductive retry_policy (svc : Llm.Service) (prompt : string)
    (fallback : option string) (reasoning : bool)
    : nat -> string -> nat -> list Llm.event -> option Llm.CleanedMetadata -> Prop :=
| policy_answered a m d content :
    (* a response arrived: the call answers with what it reads *)
    a < Llm.MAX_RETRIES ->
    Llm.respond svc a m prompt = inr content ->
    retry_policy svc prompt fallback reasoning a m d
      [Llm.Create m Llm.StartWithBrace (tokens reasoning)]
      (read svc reasoning content)
| policy_rate_limited a m d e evs v :
    (* a rate limit: back off, with a fresh jitter, then go on *)
    a < Llm.MAX_RETRIES ->
    Llm.respond svc a m prompt = inl e -> rate_limited e = true ->
    retry_policy svc prompt fallback reasoning (S a) m (S d) evs v ->
    retry_policy svc prompt fallback reasoning a m d
      (Llm.Create m Llm.StartWithBrace (tokens reasoning)
       :: Llm.Sleep (Llm.backoff a (Llm.uniform svc d)) :: evs) v
| policy_transient a m d e evs v :
    (* a timeout or an API error: the fixed delay before the next attempt,
       if one is left, then go on *)
    a < Llm.MAX_RETRIES ->
    Llm.respond svc a m prompt = inl e -> transient e = true ->
    retry_policy svc prompt fallback reasoning (S a) m d evs v ->
    retry_policy svc prompt fallback reasoning a m d
      (Llm.Create m Llm.StartWithBrace (tokens reasoning)
       :: (if a <? Llm.MAX_RETRIES - 1 then [Llm.Sleep Llm.BASE_RETRY_DELAY] else [])
       ++ evs)%list v
| policy_switched a m d e fb evs v :
    (* a connection error with a fallback to turn to: the attempts that
       are left go to the fallback *)
    a < Llm.MAX_RETRIES ->
    Llm.respond svc a m prompt = inl e -> unexpected e = true ->
    Llm.is_connection_error e = true -> usable_fallback fallback m = Some fb ->
    retry_policy svc prompt fallback reasoning (S a) fb d evs v ->
    retry_policy svc prompt fallback reasoning a m d
      (Llm.Create m Llm.StartWithBrace (tokens reasoning) :: evs) v
| policy_gave_up a m d e evs v :
    (* any other error: the loop is left *)
    a < Llm.MAX_RETRIES ->
    Llm.respond svc a m prompt = inl e -> unexpected e = true ->
    Llm.is_connection_error e = false \/ usable_fallback fallback m = None ->
    after_the_loop svc prompt fallback (S a) m evs v ->
    retry_policy svc prompt fallback reasoning a m d
      (Llm.Create m Llm.StartWithBrace (tokens reasoning) :: evs) v
| policy_exhausted m d evs v :
    (* no attempt is left *)
    after_the_loop svc prompt fallback Llm.MAX_RETRIES m evs v ->
    retry_policy svc prompt fallback reasoning Llm.MAX_RETRIES m d evs v.

(** The world after three attempts that each end with a timeout or an API
    error, and the request to the fallback: two pauses of the fixed delay,
    none after the last attempt. *)
Definition fixed_delay_run : Llm.World :=
  {| Llm.requests := 4; Llm.draws := 0;
     Llm.events :=
       [ Llm.Create "qwen/qwen3-32b" Llm.StartWithBrace 600;
         Llm.Sleep Llm.BASE_RETRY_DELAY;
         Llm.Create "qwen/qwen3-32b" Llm.StartWithBrace 600;
         Llm.Sleep Llm.BASE_RETRY_DELAY;
         Llm.Create "qwen/qwen3-32b" Llm.StartWithBrace 600;
         Llm.Create "meta-llama/llama-3.3-70b-instruct" Llm.OnlyValidJson 600 ] |}.

(** The character [+]. *)
Definition plus_sign : ascii := ascii_of_nat 43.

(** The ids of the records of a list of submissions. *)
Definition ids (l : list Mcp.process_arg) : list string := map Mcp.arg_id l.

(** The replacement, character by character, of the characters of a class. *)
Definition substituted (p : ascii -> bool) (repl l : list ascii) : list ascii :=
  flat_map (fun c => if p c then repl else [c]) l.

(** *** Spawn configurations *)

(** An [http] configuration has a target, and the target is not a
    placeholder; a configuration without a target is not [http]. *)
Definition http_target_allowed (c : Spawn.Config) : Prop :=
  match Spawn.cfg_remoteUrl c with
  | Some u => u <> "" /\ Spawn.denylisted u = false
  | None => Spawn.transport c <> "http"
  end.

(** The configuration comes from a package: [npx] or [stdio]. *)
Definition from_package (c : Spawn.Config) : bool :=
  String.eqb (Spawn.transport c) "npx" || String.eqb (Spawn.transport c) "stdio".

(** *** The outcomes of the record processor *)

(** A compiled entry built for [server] from one of [configs]: either the
    server spawned and showed tools, or it asked for credentials. *)
Definition compiled_shape (server : Mcp.Server.t) (configs : list Spawn.Config)
    (e : Mcp.CompiledServer.t) : Prop :=
  Mcp.CompiledServer.id e = Mcp.Server.registryId server /\
  Mcp.CompiledServer.registryId e = Mcp.Server.registryId server /\
  Mcp.CompiledServer.spawn e ∈ configs /\
  Mcp.CompiledServer.transport e = Spawn.transport (Mcp.CompiledServer.spawn e) /\
  Mcp.CompiledServer.working_transport e = Mcp.CompiledServer.transport e /\
  Mcp.CompiledServer.tool_count e = length (Mcp.CompiledServer.tools e) /\
  if Mcp.CompiledServer.spawn_failed e
  then Mcp.CompiledServer.tools e = [] /\ Mcp.CompiledServer.vars_required e <> ∅
  else Mcp.CompiledServer.tools e <> [] /\ Mcp.CompiledServer.vars_required e = ∅.

(** A failed entry built for [server] after every one of [configs] was
    tried, the [i]-th being the first: it lists their kinds in order, keeps
    the error of the last one ([e0] and [c0] when there was none), and may
    not be retried. *)
Definition failed_shape (out : Mcp.Outside) (server : Mcp.Server.t)
    (configs : list Spawn.Config) (i : nat) (tried : list string) (e0 c0 : string)
    (f : Mcp.FailedServer.t) : Prop :=
  Mcp.FailedServer.id f = Mcp.Server.registryId server /\
  Mcp.FailedServer.registryId f = Mcp.Server.registryId server /\
  Mcp.FailedServer.transports_tried f = (tried ++ kinds configs)%list /\
  Mcp.FailedServer.retryable f = false /\
  match last configs with
  | Some config =>
      let r := Mcp.spawn_server_via_runtime out (i + length configs - 1)
                 (Mcp.Server.registryId server) config in
      Mcp.FailedServer.error f = Mcp.sr_error r /\
      Mcp.FailedServer.error_code f = Mcp.sr_error_code r
  | None => Mcp.FailedServer.error f = e0 /\ Mcp.FailedServer.error_code f = c0
  end.

(** A result of the processor: one entry, of its shape, and the flag and
    the status that go with it. *)
Definition result_shape (out : Mcp.Outside) (server : Mcp.Server.t)
    (configs : list Spawn.Config) (i : nat) (tried : list string) (e0 c0 : string)
    (r : Mcp.result) : Prop :=
  match r with
  | (Some e, None, true, Mcp.SUCCESS t n) =>
      compiled_shape server configs e /\ Mcp.CompiledServer.spawn_failed e = false /\
      t = Mcp.CompiledServer.transport e /\ n = Mcp.CompiledServer.tool_count e
  | (Some e, None, true, Mcp.CREDENTIALS t vars) =>
      compiled_shape server configs e /\ Mcp.CompiledServer.spawn_failed e = true /\
      t = Mcp.CompiledServer.transport e
  | (None, Some f, false, Mcp.FAILED code) =>
      failed_shape out server configs i tried e0 c0 f /\
      code = Mcp.FailedServer.error_code f
  | _ => False
  end.

(** *** The counters of a run *)

(** The future of [arg] ends with an exception. *)
Definition raises (out : Mcp.Outside) (arg : Mcp.process_arg) : bool :=
  match Mcp.process_server_with_model out arg with
  | Mcp.Returned _ => false
  | Mcp.Raised => true
  end.

(** The records that were counted with an outcome: with tools, or not. *)
Definition settled (p : Mcp.Progress.t) : nat :=
  Mcp.Progress.success_count p + Mcp.Progress.failed_count p.

(** *** What a restart finds *)

(** One step of the dictionary comprehension of [load_compiled]. *)
Definition by_id (m : gmap string Mcp.CompiledServer.t) (s : Mcp.CompiledServer.t)
    : gmap string Mcp.CompiledServer.t :=
  <[Mcp.CompiledServer.id s := s]> m.

(** Every compiled entry is filed under its own id. *)
Definition keys_match (m : gmap string Mcp.CompiledServer.t) : Prop :=
  map_Forall (fun registry_id e => Mcp.CompiledServer.id e = registry_id) m.

(** The compiled map is filed by id, and the compiled document on disk
    reads back as that map. *)
Definition compiled_on_disk (c : Mcp.Compiler) : Prop :=
  keys_match (Mcp.compiled c) /\ Mcp.load_compiled (Mcp.disk c) = Mcp.compiled c.

(** *** The retry pass *)

(** The entries of [m] that may be retried were already in [m0]. *)
Definition retryable_from (m0 m : gmap string Mcp.FailedServer.t) : Prop :=
  forall registry_id f,
    m !! registry_id = Some f -> Mcp.FailedServer.retryable f = true ->
    m0 !! registry_id = Some f.

(** *** What a pattern matches *)

(** [matches s r pos cap pos' cap']: the pattern [r] matches the text [s]
    from [pos] up to [pos'], and turns the capture [cap] into [cap']. *)
Inductive matches (s : list ascii)
    : Re.re -> nat -> option Re.span -> nat -> option Re.span -> Prop :=
| matches_Eps pos cap : matches s Re.Eps pos cap pos cap
| matches_Chr p pos cap c :
    s !! pos = Some c -> p c = true -> matches s (Re.Chr p) pos cap (S pos) cap
| matches_Cat r1 r2 p0 c0 p1 c1 p2 c2 :
    matches s r1 p0 c0 p1 c1 -> matches s r2 p1 c1 p2 c2 ->
    matches s (Re.Cat r1 r2) p0 c0 p2 c2
| matches_Alt_l r1 r2 p0 c0 p1 c1 :
    matches s r1 p0 c0 p1 c1 -> matches s (Re.Alt r1 r2) p0 c0 p1 c1
| matches_Alt_r r1 r2 p0 c0 p1 c1 :
    matches s r2 p0 c0 p1 c1 -> matches s (Re.Alt r1 r2) p0 c0 p1 c1
| matches_Star_0 r pos cap : matches s (Re.Star r) pos cap pos cap
| matches_Star_S r p0 c0 p1 c1 p2 c2 :
    matches s r p0 c0 p1 c1 -> matches s (Re.Star r) p1 c1 p2 c2 ->
    matches s (Re.Star r) p0 c0 p2 c2
| matches_Group r p0 c0 p1 c1 :
    matches s r p0 c0 p1 c1 -> matches s (Re.Group r) p0 c0 p1 (Some (p0, p1))
| matches_Bol cap : matches s Re.Bol 0 cap 0 cap
| matches_WordB pos cap :
    xorb (Re.word_before s pos) (Re.word_at s pos) = true ->
    matches s Re.WordB pos cap pos cap.

(** The loop the matcher runs for [Re.Star r1], as a function of its own. *)
Definition star_loop {A} (s : list ascii) (r1 : Re.re)
    (k : nat -> option Re.span -> option A)
    : nat -> nat -> option Re.span -> option A :=
  fix loop (fuel : nat) (pos : nat) (cap : option Re.span) {struct fuel} : option A :=
    match fuel with
    | O => k pos cap
    | S fuel' =>
        match Re.run s r1 pos cap
                (fun pos' cap' =>
                   if pos <? pos' then loop fuel' pos' cap' else None) with
        | Some x => Some x
        | None => k pos cap
        end
    end.

(** The pattern has no capture group. *)
Fixpoint no_group (r : Re.re) : bool :=
  match r with
  | Re.Cat r1 r2 | Re.Alt r1 r2 => no_group r1 && no_group r2
  | Re.Star r1 => no_group r1
  | Re.Group _ => false
  | _ => true
  end.

(** Every character of [s] from [a] up to [b] is in the class [p]. *)
Definition all_in (s : list ascii) (p : ascii -> bool) (a b : nat) : Prop :=
  forall i, a <= i < b -> exists c, s !! i = Some c /\ p c = true.

(** A group of the text that a pattern captured. *)
Definition captured (r : Re.re) (text : string) (g : string) : Prop :=
  exists pos e cap,
    matches (Py.chars text) r pos None e cap /\
    g = Re.group1 (Py.chars text) (Re.Hit pos e cap).

(** A text of ASCII characters. *)
Definition ascii_text (text : string) : Prop :=
  Forall (fun c => Py.code c < 128) (Py.chars text).

(** The name of an environment variable, of [n] characters at least:
    capitals, digits and underscores, the first of them not a digit. *)
Definition env_name (n : nat) (var_name : string) : Prop :=
  n <= String.length var_name /\
  Forall (fun c => Credentials.var_tail c = true) (Py.chars var_name) /\
  exists c, head (Py.chars var_name) = Some c /\ Credentials.var_head c = true.

(** *** Names and descriptions *)

(** A text of [lo] to [hi] characters that does not start with a blank. *)
Definition bounded_text (lo hi : nat) (text : string) : Prop :=
  lo <= String.length text <= hi /\
  match head (Py.chars text) with
  | Some c => Py.is_space c = false
  | None => True
  end.

(** *** The tool loop *)

(** The conversations posted, in order. *)
Definition posted (log : list ToolCallingLLMService.event)
    : list (list ToolCallingLLMService.message) :=
  omap (fun ev =>
          match ev with
          | ToolCallingLLMService.Post _ _ messages => Some messages
          | ToolCallingLLMService.Search _ => None
          end) log.

(** A message the loop adds to the conversation: the reply of the model
    that asked for tools, or a search result of 2000 characters at most. *)
Definition added_message (m : ToolCallingLLMService.message) : Prop :=
  match m with
  | ToolCallingLLMService.Assistant msg => ToolCallingLLMService.tool_calls msg <> []
  | ToolCallingLLMService.ToolMessage content => String.length content <= 2000
  | _ => False
  end.

(** Each conversation of the list is the one before with messages added. *)
Fixpoint grows (first : list ToolCallingLLMService.message)
    (convs : list (list ToolCallingLLMService.message)) : Prop :=
  match convs with
  | [] => True
  | next :: rest =>
      (exists extra, next = (first ++ extra)%list /\ extra <> [] /\
                     Forall added_message extra) /\
      grows next rest
  end.


(** The request went to [url] for [model]. *)
Definition sent_for (url model : string) (ev : ToolCallingLLMService.event) : Prop :=
  match ev with
  | ToolCallingLLMService.Post u m _ => u = url /\ m = model
  | ToolCallingLLMService.Search _ => True
  end.

(** What a call of the tool loop may answer, given the conversations it
    posted, the first of them as request [i]: nothing, or what the final
    content of the last answer reads as, that answer having status 200 and
    no tool call. *)
Definition final_answer {Data} (out : ToolCallingLLMService.Outside Data)
    (url model : string) (i : nat)
    (convs : list (list ToolCallingLLMService.message)) (result : option Data) : Prop :=
  match result with
  | None => True
  | Some data =>
      exists messages msg,
        last convs = Some messages /\
        ToolCallingLLMService.post out (i + length convs - 1) url model messages
        = ToolCallingLLMService.Response 200 msg /\
        ToolCallingLLMService.tool_calls msg = [] /\
        ToolCallingLLMService.parse_json_response out
          (Spawn.or_default (ToolCallingLLMService.content msg) "") = Some data
  end.

(** *** The model compiler *)

(** The model id has an entry in one of the two maps. *)
Definition accounted (c : Model.Compiler) (key : string) : Prop :=
  is_Some (Model.compiled c !! key) \/ is_Some (Model.failed c !! key).

(** The models counted with an outcome. *)
Definition outcomes (p : Model.ProgressData) : nat :=
  Model.success_count p + Model.failed_count p.



(** * Properties *)

(** ** Credential detection *)

(** C3: on the runtime's message
    [Server "mcp:x" requires credentials: API_KEY. Add your key...]
    [detect_required_vars] returns the one-entry mapping
    [API_KEY -> Required: API_KEY]. *)
Theorem detect_required_vars_api_key :
  Credentials.detect_required_vars Sample.msg_api_key
  = {[ "API_KEY" := "Required: API_KEY" ]}.
Proof. vm_compute. reflexivity. Qed.

(** ** Timestamps *)

Lemma chars_app (a b : string) :
  Py.chars (a ++ b) = (Py.chars a ++ Py.chars b)%list.
Proof.
  unfold Py.chars. induction a as [|c a IH]; simpl; [reflexivity|].
  now rewrite IH.
Qed.

Lemma str_chars (s : string) : Py.str (Py.chars s) = s.
Proof. apply string_of_list_ascii_of_string. Qed.

Lemma chars_str (l : list ascii) : Py.chars (Py.str l) = l.
Proof. apply list_ascii_of_string_of_list_ascii. Qed.

Lemma chars_length (s : string) : length (Py.chars s) = String.length s.
Proof.
  unfold Py.chars. induction s as [|c s IH]; simpl; [reflexivity|].
  now rewrite IH.
Qed.

Lemma digit_not_plus (n : nat) : Clock.digit n <> plus_sign.
Proof.
  unfold Clock.digit, plus_sign. intros H.
  apply (f_equal nat_of_ascii) in H.
  assert (Hlt : n mod 10 < 10) by (apply Nat.mod_upper_bound; lia).
  rewrite !nat_ascii_embedding in H by lia. lia.
Qed.

Lemma zero_padded_no_plus (w n : nat) : plus_sign ∉ Clock.zero_padded w n.
Proof.
  revert n. induction w as [|w IH]; intros n; simpl.
  - apply not_elem_of_nil.
  - rewrite elem_of_app, list_elem_of_singleton. intros [H|H].
    + exact (IH _ H).
    + symmetry in H. exact (digit_not_plus _ H).
Qed.

Lemma pad_no_plus (w n : nat) : plus_sign ∉ Py.chars (Clock.pad w n).
Proof. unfold Clock.pad. rewrite chars_str. apply zero_padded_no_plus. Qed.

Lemma isoformat_naive_no_plus (d : Clock.datetime) :
  plus_sign ∉ Py.chars (Clock.isoformat_naive d).
Proof.
  unfold Clock.isoformat_naive.
  repeat (rewrite chars_app, elem_of_app; intros [H|H];
          [ first [ exact (pad_no_plus _ _ H)
                  | vm_compute in H; inversion H as [|? ? ? H']; inversion H' ]
          | revert H ]).
  destruct (Clock.microsecond d =? 0).
  - vm_compute. intros H; inversion H.
  - rewrite chars_app, elem_of_app. intros [H|H].
    + vm_compute in H. inversion H as [|? ? ? H']; inversion H'.
    + exact (pad_no_plus _ _ H).
Qed.

Lemma starts_with_plus (old l : list ascii) (c : ascii) :
  Py.starts_with (plus_sign :: old) (c :: l) = true -> c = plus_sign.
Proof.
  change (Py.starts_with (plus_sign :: old) (c :: l))
    with (Ascii.eqb plus_sign c && Py.starts_with old l).
  intros H. apply andb_prop in H as [H _].
  apply Ascii.eqb_eq in H. now symmetry.
Qed.

Lemma replace_offset (x : list ascii) (fuel : nat) :
  plus_sign ∉ x -> length x < fuel ->
  Clock.replace_chars fuel (Py.chars "+00:00") (Py.chars "Z") (x ++ Py.chars "+00:00")
  = (x ++ Py.chars "Z")%list.
Proof.
  revert fuel. induction x as [|c x IH]; intros fuel Hx Hf.
  - destruct fuel as [|fuel]; [simpl in Hf; lia|].
    destruct fuel as [|fuel]; reflexivity.
  - destruct fuel as [|fuel]; [simpl in Hf; lia|].
    assert (Hc : c <> plus_sign) by (intros ->; apply Hx; left).
    assert (Hx' : plus_sign ∉ x) by (intros H; apply Hx; now right).
    cbn [Clock.replace_chars app].
    destruct (Py.starts_with (Py.chars "+00:00") (c :: x ++ Py.chars "+00:00")) eqn:E.
    + exfalso. apply Hc. exact (starts_with_plus _ _ _ E).
    + f_equal. apply IH; [exact Hx'|simpl in Hf; lia].
Qed.

Lemma utc_stamp_eq (d : Clock.datetime) :
  Clock.utc_stamp d = Clock.isoformat_naive d ++ "Z".
Proof.
  unfold Clock.utc_stamp, Clock.replace, Clock.isoformat.
  rewrite chars_app, replace_offset.
  - rewrite <- (str_chars (Clock.isoformat_naive d ++ "Z")). now rewrite chars_app.
  - apply isoformat_naive_no_plus.
  - rewrite <- chars_length, chars_app, length_app. simpl. lia.
Qed.

Lemma string_app_cons (x : ascii) (a b : string) :
  String x a ++ b = String x (a ++ b).
Proof. reflexivity. Qed.

Lemma string_app_assoc (a b c : string) : (a ++ b) ++ c = a ++ (b ++ c).
Proof.
  induction a as [|x a IH]; [reflexivity|].
  now rewrite !string_app_cons, IH.
Qed.

Lemma utc_stamp_with_fraction (d : Clock.datetime) :
  Clock.utc_stamp d = stamp_with_fraction d.
Proof.
  rewrite utc_stamp_eq.
  unfold Clock.isoformat_naive, stamp_with_fraction, to_the_second.
  now rewrite !string_app_assoc.
Qed.

Ltac reduce_matches := cbv beta iota zeta.

Ltac stamped_leaf :=
  unfold result_stamped; split; first [reflexivity | exact I].

Lemma try_configs_stamped (out : Mcp.Outside) (server : Mcp.Server.t)
    (backend : Llm.Backend) (configs : list Spawn.Config) :
  forall i tried e ec,
    result_stamped (Mcp.stamp out server)
      (Mcp.try_configs out server backend configs i tried e ec).
Proof.
  induction configs as [|config rest IH]; intros i tried e ec.
  - unfold Mcp.try_configs, Mcp.all_transports_failed. stamped_leaf.
  - cbn [Mcp.try_configs]. reduce_matches.
    destruct (Mcp.success _ && _); reduce_matches.
    + destruct (Mcp.clean_server_with_tools _ _ _ _ _); reduce_matches.
      * stamped_leaf.
      * destruct (bool_decide _); reduce_matches; [apply IH|].
        destruct (Mcp.clean_server_from_repo _ _ _ _); reduce_matches; [|apply IH].
        stamped_leaf.
    + destruct (bool_decide _); reduce_matches; [apply IH|].
      destruct (Mcp.clean_server_from_repo _ _ _ _); reduce_matches; [|apply IH].
      stamped_leaf.
Qed.

(** C9, as the code has it: every timestamp the pipeline writes is the UTC
    instant in ISO-8601 with [Z] in place of the offset and with the
    fraction of the second kept: six digits of microseconds, left out only
    when they are zero.  This holds of [compiled_at] and [failed_at] of
    every result of the record processor and of the stamps of the saved
    documents; the model compiler's stamp has the same shape. *)
Theorem timestamps_keep_the_fraction :
  (forall d, Clock.utc_stamp d = stamp_with_fraction d) /\
  (forall d, Clock.utcnow_stamp d = stamp_with_fraction d) /\
  (forall out arg,
     match Mcp.process_server_with_model out arg with
     | Mcp.Returned r =>
         result_stamped
           (stamp_with_fraction (Mcp.worker_now out (Mcp.arg_id arg))) r
     | Mcp.Raised => True
     end) /\
  (forall out c,
     Mcp.stamp_now out c = stamp_with_fraction (Mcp.now out (Mcp.ticks c))).
Proof.
  split; [exact utc_stamp_with_fraction|].
  split.
  { intros d. rewrite <- utc_stamp_with_fraction, utc_stamp_eq. reflexivity. }
  split.
  - intros out [[server model_idx] backends]. unfold Mcp.process_server_with_model.
    destruct (Mcp.worker_dies out server); [exact I|].
    destruct (backends !! _); [|exact I].
    rewrite <- utc_stamp_with_fraction.
    change (Clock.utc_stamp (Mcp.worker_now out (Mcp.arg_id (server, model_idx, backends))))
      with (Mcp.stamp out server).
    apply try_configs_stamped.
  - intros out c. unfold Mcp.stamp_now. apply utc_stamp_with_fraction.
Qed.

(** C9 as the specification states it fails: at 03:04:05.004321 the stamp
    carries the microseconds, and differs from the instant cut to the
    second. *)
Lemma timestamp_not_stripped :
  Clock.utc_stamp Sample.instant = "2024-01-02T03:04:05.004321Z" /\
  Clock.utc_stamp Sample.instant <> stamp_to_the_second Sample.instant.
Proof. split; [reflexivity|]. vm_compute. discriminate. Qed.

(** ** The spawn resolver *)

Section SortByKey.

Lemma insert_by_key_perm (c : Spawn.Config) (l : list Spawn.Config) :
  Spawn.insert_by_key c l ≡ₚ c :: l.
Proof.
  induction l as [|d l IH]; cbn [Spawn.insert_by_key]; [reflexivity|].
  destruct (Spawn.sort_key c <=? Spawn.sort_key d); [reflexivity|].
  rewrite IH. apply perm_swap.
Qed.

Lemma sort_by_key_perm (l : list Spawn.Config) : Spawn.sort_by_key l ≡ₚ l.
Proof.
  induction l as [|c l IH]; cbn [Spawn.sort_by_key]; [reflexivity|].
  rewrite insert_by_key_perm. now rewrite IH.
Qed.

Lemma insert_by_key_sorted (c : Spawn.Config) (l : list Spawn.Config) :
  StronglySorted key_le l -> StronglySorted key_le (Spawn.insert_by_key c l).
Proof.
  induction l as [|d l IH]; intros Hs; cbn [Spawn.insert_by_key].
  - constructor; constructor.
  - apply StronglySorted_inv in Hs as [Hl Hd].
    destruct (Spawn.sort_key c <=? Spawn.sort_key d) eqn:E.
    + apply Nat.leb_le in E. constructor.
      * constructor; assumption.
      * constructor; [exact E|].
        eapply Forall_impl; [exact Hd|].
        intros x Hx. unfold key_le in *. lia.
    + apply Nat.leb_gt in E. constructor; [apply IH; exact Hl|].
      rewrite insert_by_key_perm. constructor; [unfold key_le; lia|exact Hd].
Qed.

Lemma sort_by_key_sorted (l : list Spawn.Config) :
  StronglySorted key_le (Spawn.sort_by_key l).
Proof.
  induction l as [|c l IH]; cbn [Spawn.sort_by_key]; [constructor|].
  now apply insert_by_key_sorted.
Qed.

Lemma insert_by_key_stable (k : nat) (c : Spawn.Config) (l : list Spawn.Config) :
  List.filter (with_key k) (Spawn.insert_by_key c l)
  = List.filter (with_key k) (c :: l).
Proof.
  induction l as [|d l IH]; cbn [Spawn.insert_by_key]; [reflexivity|].
  destruct (Spawn.sort_key c <=? Spawn.sort_key d) eqn:E; [reflexivity|].
  apply Nat.leb_gt in E.
  cbn [List.filter] in *. rewrite IH. unfold with_key.
  destruct (Spawn.sort_key c =? k) eqn:Ec; [|reflexivity].
  apply Nat.eqb_eq in Ec.
  destruct (Spawn.sort_key d =? k) eqn:Ed; [|reflexivity].
  apply Nat.eqb_eq in Ed. lia.
Qed.

Lemma sort_by_key_stable (k : nat) (l : list Spawn.Config) :
  List.filter (with_key k) (Spawn.sort_by_key l) = List.filter (with_key k) l.
Proof.
  induction l as [|c l IH]; cbn [Spawn.sort_by_key]; [reflexivity|].
  rewrite insert_by_key_stable. cbn [List.filter]. now rewrite IH.
Qed.

Lemma filter_filter_implied {A} (p q : A -> bool) (l : list A) :
  (forall x, p x = true -> q x = true) ->
  List.filter p (List.filter q l) = List.filter p l.
Proof.
  intros Hpq. induction l as [|x l IH]; [reflexivity|].
  cbn [List.filter]. destruct (q x) eqn:Eq.
  - cbn [List.filter]. now rewrite IH.
  - rewrite IH. destruct (p x) eqn:Ep; [|reflexivity].
    apply Hpq in Ep. congruence.
Qed.

Lemma of_kind_with_key (t : string) (c : Spawn.Config) :
  of_kind t c = true ->
  with_key (Spawn.sort_key (Spawn.blank t)) c = true.
Proof.
  unfold of_kind, with_key, Spawn.sort_key.
  intros H. apply String.eqb_eq in H. rewrite H.
  apply Nat.eqb_refl.
Qed.

(** Sorting does not reorder the configurations of one kind. *)
Lemma sort_by_key_of_kind (t : string) (l : list Spawn.Config) :
  List.filter (of_kind t) (Spawn.sort_by_key l) = List.filter (of_kind t) l.
Proof.
  rewrite <- (filter_filter_implied _ _ (Spawn.sort_by_key l) (of_kind_with_key t)).
  rewrite sort_by_key_stable.
  apply filter_filter_implied, of_kind_with_key.
Qed.

End SortByKey.

Section Dedupe.

Lemma dedupe_of_kind (t : string) (l : list Spawn.Config) :
  forall seen,
    List.filter (of_kind t) (Spawn.dedupe seen l)
    = if bool_decide (t ∈ seen) then [] else take 1 (List.filter (of_kind t) l).
Proof.
  induction l as [|c l IH]; intros seen; cbn [Spawn.dedupe List.filter].
  - now destruct (bool_decide _).
  - unfold of_kind at 2. destruct (String.eqb_spec (Spawn.transport c) t) as [E|E].
    + subst t. destruct (bool_decide_reflect (Spawn.transport c ∈ seen)) as [Hin|Hin].
      * rewrite IH. now rewrite bool_decide_eq_true_2.
      * cbn [List.filter]. unfold of_kind at 1. rewrite String.eqb_refl.
        rewrite IH, bool_decide_eq_true_2 by left. reflexivity.
    + destruct (bool_decide_reflect (Spawn.transport c ∈ seen)) as [Hin|Hin].
      * apply IH.
      * cbn [List.filter]. unfold of_kind at 1.
        destruct (String.eqb_spec (Spawn.transport c) t) as [E'|_]; [contradiction|].
        rewrite IH.
        destruct (bool_decide_reflect (t ∈ seen)) as [Ht|Ht].
        -- rewrite bool_decide_eq_true_2 by (now right). reflexivity.
        -- rewrite bool_decide_eq_false_2; [reflexivity|].
           rewrite elem_of_cons. intros [->|H]; [now apply E|now apply Ht].
Qed.

Lemma dedupe_fresh (l : list Spawn.Config) :
  forall seen c, c ∈ Spawn.dedupe seen l -> Spawn.transport c ∉ seen.
Proof.
  induction l as [|d l IH]; intros seen c; cbn [Spawn.dedupe].
  - intros H. now apply elem_of_nil in H.
  - destruct (bool_decide_reflect (Spawn.transport d ∈ seen)) as [Hin|Hin].
    + apply IH.
    + rewrite elem_of_cons. intros [->|H]; [exact Hin|].
      apply IH in H. intros Hc. apply H. now right.
Qed.

Lemma dedupe_nodup (l : list Spawn.Config) :
  forall seen, NoDup (kinds (Spawn.dedupe seen l)).
Proof.
  induction l as [|d l IH]; intros seen; cbn [Spawn.dedupe].
  - constructor.
  - destruct (bool_decide_reflect (Spawn.transport d ∈ seen)) as [Hin|Hin]; [apply IH|].
    unfold kinds. cbn [map]. constructor; [|apply IH].
    rewrite list_elem_of_fmap. intros [c [Ec Hc]].
    apply dedupe_fresh in Hc. apply Hc. rewrite Ec. left.
Qed.

End Dedupe.

Lemma sort_key_range (c : Spawn.Config) :
  Spawn.sort_key c <= 4 /\
  (Spawn.sort_key c = 4 <-> Spawn.transport c ∉ Spawn.TRANSPORT_PRIORITY).
Proof.
  unfold Spawn.sort_key, Spawn.TRANSPORT_PRIORITY.
  generalize (Spawn.transport c) as t. intros t.
  cbn [Spawn.index_of length].
  destruct (String.eqb_spec "npx" t) as [<-|E1].
  { split; [lia|]. split; [discriminate|]. intros H. exfalso. apply H. set_solver. }
  destruct (String.eqb_spec "stdio" t) as [<-|E2].
  { split; [lia|]. split; [discriminate|]. intros H. exfalso. apply H. set_solver. }
  destruct (String.eqb_spec "http" t) as [<-|E3].
  { split; [lia|]. split; [discriminate|]. intros H. exfalso. apply H. set_solver. }
  destruct (String.eqb_spec "docker" t) as [<-|E4].
  { split; [lia|]. split; [discriminate|]. intros H. exfalso. apply H. set_solver. }
  split; [lia|]. split; [|reflexivity]. intros _ Hin.
  repeat (apply elem_of_cons in Hin as [Hin|Hin]; [congruence|]).
  now apply elem_of_nil in Hin.
Qed.

(** C6: [get_spawn_configs] keeps, of the candidates of each kind, the first
    one only, and returns the kept ones sorted by the priority table
    [npx, stdio, http, docker].  The sort is stable and sends every unknown
    kind behind the four known ones, as the run on six kinds shows: the
    known kinds come out in table order, the unknown ones behind them in
    the order they came in. *)
Theorem get_spawn_configs_ordered :
  (forall server raw t,
     List.filter (of_kind t) (Spawn.get_spawn_configs server raw)
     = take 1 (List.filter (of_kind t) (Spawn.candidate_configs server raw))) /\
  (forall server raw, NoDup (kinds (Spawn.get_spawn_configs server raw))) /\
  (forall server raw, StronglySorted key_le (Spawn.get_spawn_configs server raw)) /\
  (forall l, StronglySorted key_le (Spawn.sort_by_key l)) /\
  (forall l, Spawn.sort_by_key l ≡ₚ l) /\
  (forall l k, List.filter (with_key k) (Spawn.sort_by_key l) = List.filter (with_key k) l) /\
  (forall c, Spawn.sort_key c <= 4 /\
             (Spawn.sort_key c = 4 <-> Spawn.transport c ∉ Spawn.TRANSPORT_PRIORITY)) /\
  map Spawn.sort_key (map Spawn.blank Spawn.TRANSPORT_PRIORITY) = [0; 1; 2; 3] /\
  kinds (Spawn.sort_by_key
           (Spawn.dedupe []
              (map Spawn.blank ["docker"; "zzz"; "npx"; "http"; "docker"; "aaa"; "stdio"])))
  = ["npx"; "stdio"; "http"; "docker"; "zzz"; "aaa"].
Proof.
  split.
  { intros server raw t. unfold Spawn.get_spawn_configs.
    rewrite sort_by_key_of_kind, dedupe_of_kind. reflexivity. }
  split.
  { intros server raw. unfold Spawn.get_spawn_configs, kinds.
    rewrite (sort_by_key_perm _). apply dedupe_nodup. }
  split; [intros; apply sort_by_key_sorted|].
  split; [exact sort_by_key_sorted|].
  split; [exact sort_by_key_perm|].
  split; [intros l k; apply sort_by_key_stable|].
  split; [exact sort_key_range|].
  split; reflexivity.
Qed.

(** ** The record processor *)

Lemma try_configs_one_entry (out : Mcp.Outside) (server : Mcp.Server.t)
    (backend : Llm.Backend) (configs : list Spawn.Config) :
  forall i tried e ec,
    one_entry (Mcp.try_configs out server backend configs i tried e ec).
Proof.
  induction configs as [|config rest IH]; intros i tried e ec.
  - unfold Mcp.try_configs, Mcp.all_transports_failed, one_entry. reflexivity.
  - cbn [Mcp.try_configs]. reduce_matches.
    destruct (Mcp.success _ && _); reduce_matches.
    + destruct (Mcp.clean_server_with_tools _ _ _ _ _); reduce_matches.
      * exact I.
      * destruct (bool_decide _); reduce_matches; [apply IH|].
        destruct (Mcp.clean_server_from_repo _ _ _ _); reduce_matches; [|apply IH].
        exact I.
    + destruct (bool_decide _); reduce_matches; [apply IH|].
      destruct (Mcp.clean_server_from_repo _ _ _ _); reduce_matches; [|apply IH].
      exact I.
Qed.

Lemma process_one_entry (out : Mcp.Outside) (arg : Mcp.process_arg) (r : Mcp.result) :
  Mcp.process_server_with_model out arg = Mcp.Returned r -> one_entry r.
Proof.
  destruct arg as [[server model_idx] backends].
  unfold Mcp.process_server_with_model.
  destruct (Mcp.worker_dies out server); [discriminate|].
  destruct (backends !! _); [|discriminate].
  intros [= <-]. apply try_configs_one_entry.
Qed.

(** ** The maps of the compiler through a run *)

Section Fields.
Variable out : Mcp.Outside.

Lemma flush_compiled c : Mcp.compiled (Mcp.flush out c) = Mcp.compiled c.
Proof. reflexivity. Qed.

Lemma flush_failed c : Mcp.failed (Mcp.flush out c) = Mcp.failed c.
Proof. reflexivity. Qed.

Lemma flush_servers c : Mcp.servers (Mcp.flush out c) = Mcp.servers c.
Proof. reflexivity. Qed.

Lemma flush_backends c : Mcp.backends (Mcp.flush out c) = Mcp.backends c.
Proof. reflexivity. Qed.

Lemma submit_all_fields args : forall c,
  Mcp.compiled (Mcp.submit_all args c) = Mcp.compiled c /\
  Mcp.failed (Mcp.submit_all args c) = Mcp.failed c /\
  Mcp.servers (Mcp.submit_all args c) = Mcp.servers c /\
  Mcp.backends (Mcp.submit_all args c) = Mcp.backends c.
Proof.
  unfold Mcp.submit_all. induction args as [|a args IH]; intros c; [done|].
  cbn [foldl]. destruct (IH (Mcp.emit (Mcp.Submit (Mcp.arg_id a) (snd (fst a))) c))
    as (H1 & H2 & H3 & H4).
  rewrite H1, H2, H3, H4. done.
Qed.

Lemma start_phase1_fields c :
  Mcp.compiled (Mcp.start_phase1 out c) = Mcp.compiled c /\
  Mcp.failed (Mcp.start_phase1 out c) = Mcp.failed c /\
  Mcp.servers (Mcp.start_phase1 out c) = Mcp.servers c /\
  Mcp.backends (Mcp.start_phase1 out c) = Mcp.backends c.
Proof. unfold Mcp.start_phase1. destruct (String.eqb _ _); done. Qed.

Lemma resume_progress_fields resume c :
  Mcp.compiled (Mcp.resume_progress resume c) = Mcp.compiled c /\
  Mcp.failed (Mcp.resume_progress resume c) = Mcp.failed c /\
  Mcp.servers (Mcp.resume_progress resume c) = Mcp.servers c /\
  Mcp.backends (Mcp.resume_progress resume c) = Mcp.backends c.
Proof.
  unfold Mcp.resume_progress. destruct resume; [|done].
  destruct (Mcp.load_progress c); done.
Qed.

(** What one recorded result does to the two maps. *)
Lemma record_result_maps id r c :
  one_entry r ->
  match r with
  | (Some e, _, _, _) =>
      Mcp.compiled (Mcp.record_result id r c) = <[id := e]> (Mcp.compiled c) /\
      Mcp.failed (Mcp.record_result id r c) = Mcp.failed c
  | (None, Some e, _, _) =>
      Mcp.compiled (Mcp.record_result id r c) = Mcp.compiled c /\
      Mcp.failed (Mcp.record_result id r c) = <[id := e]> (Mcp.failed c)
  | _ => False
  end.
Proof.
  destruct r as [[[[e|] [f|]] ok] msg]; cbn [one_entry]; try done.
  - intros _. unfold Mcp.record_result.
    destruct (ok && bool_decide _); done.
Qed.

Lemma record_result_none_retryable id r c :
  one_entry r -> none_retryable c -> none_retryable (Mcp.record_result id r c).
Proof.
  intros Hr Hc. pose proof (record_result_maps id r c Hr) as H.
  unfold none_retryable in *.
  destruct r as [[[[e|] [f|]] ok] msg]; try done; destruct H as [_ ->]; [done|].
  apply map_Forall_insert_2; [exact Hr|exact Hc].
Qed.

Lemma consume_none_retryable st arg :
  none_retryable (fst st) -> none_retryable (fst (Mcp.consume out st arg)).
Proof.
  destruct st as [c k]. cbn [fst]. intros Hc. unfold Mcp.consume.
  destruct (Mcp.process_server_with_model out arg) as [r|] eqn:E.
  - apply process_one_entry in E.
    pose proof (record_result_none_retryable (Mcp.arg_id arg) r c E Hc) as H.
    destruct (Mcp.CHECKPOINT_INTERVAL <=? S k); exact H.
  - exact Hc.
Qed.

Lemma foldl_consume_none_retryable args : forall st,
  none_retryable (fst st) -> none_retryable (fst (foldl (Mcp.consume out) st args)).
Proof.
  induction args as [|a args IH]; intros st H; [exact H|].
  cbn [foldl]. apply IH, consume_none_retryable, H.
Qed.

Lemma run_phase1_none_retryable limit resume workers c :
  none_retryable c -> none_retryable (Mcp.run_phase1 out limit resume workers c).
Proof.
  intros Hc. unfold Mcp.run_phase1.
  assert (H0 : none_retryable (Mcp.start_phase1 out (Mcp.resume_progress resume c))).
  { unfold none_retryable in *.
    destruct (start_phase1_fields (Mcp.resume_progress resume c)) as (_ & -> & _).
    destruct (resume_progress_fields resume c) as (_ & -> & _). exact Hc. }
  destruct (Mcp.servers_to_process _ _ _) as [|s todo]; [exact H0|].
  unfold none_retryable. rewrite flush_failed.
  apply foldl_consume_none_retryable. cbn [fst]. unfold none_retryable.
  match goal with |- context [Mcp.submit_all ?a ?c'] =>
    destruct (submit_all_fields a c') as (_ & -> & _) end.
  exact H0.
Qed.

Lemma none_retryable_nothing_to_retry limit c :
  none_retryable c -> Mcp.servers_to_retry limit c = [].
Proof.
  intros Hc. unfold Mcp.servers_to_retry.
  assert (E : List.filter (Mcp.retryable_failure c) (Mcp.servers c) = []).
  { induction (Mcp.servers c) as [|s l IH]; [reflexivity|].
    cbn [List.filter]. unfold Mcp.retryable_failure at 1.
    destruct (Mcp.failed c !! Mcp.Server.registryId s) as [f|] eqn:E; [|exact IH].
    rewrite (Hc _ _ E). exact IH. }
  rewrite E. now destruct limit as [[|n]|].
Qed.

Lemma init_none_retryable registry d :
  none_retryable (Mcp.load_servers registry (Mcp.init d)).
Proof. unfold none_retryable. apply map_Forall_empty. Qed.

End Fields.

(** C10: the processor writes [retryable = False] into every failed entry
    it builds; the retry pass takes a server only when its failed entry
    says [retryable]; so after the initial pass of a fresh compiler no
    failed entry may be retried, the list of servers to retry is empty and
    the retry pass changes nothing: no record is retried. *)
Theorem retry_pass_is_empty :
  (forall out arg,
     match failed_entry_of (Mcp.process_server_with_model out arg) with
     | Some e => Mcp.FailedServer.retryable e = false
     | None => True
     end) /\
  (forall limit c,
     forallb (Mcp.retryable_failure c) (Mcp.servers_to_retry limit c) = true) /\
  (forall out registry d limit resume workers limit',
     let c := Mcp.run_phase1 out limit resume workers
                (Mcp.load_servers registry (Mcp.init d)) in
     none_retryable c /\
     Mcp.servers_to_retry limit' c = [] /\
     (forall out', Mcp.run_phase2 out' limit' c = c)) /\
  (forall out registry d limit resume workers,
     let c0 := Mcp.load_servers registry (Mcp.init d) in
     Mcp.run_all out limit resume workers c0
     = Mcp.run_phase1 out limit resume workers c0).
Proof.
  assert (Hrun : forall out registry d limit resume workers,
             none_retryable (Mcp.run_phase1 out limit resume workers
                               (Mcp.load_servers registry (Mcp.init d)))).
  { intros. apply run_phase1_none_retryable, init_none_retryable. }
  split.
  { intros out arg.
    destruct (Mcp.process_server_with_model out arg) as [r|] eqn:E; [|exact I].
    apply process_one_entry in E.
    destruct r as [[[[e|] [f|]] ok] msg]; cbn in *; done. }
  split.
  { intros limit c. unfold Mcp.servers_to_retry.
    assert (H : forallb (Mcp.retryable_failure c)
                  (List.filter (Mcp.retryable_failure c) (Mcp.servers c)) = true).
    { apply forallb_forall. intros x Hx. now apply filter_In in Hx. }
    destruct limit as [[|n]|]; cbn [Mcp.apply_limit]; try exact H.
    apply forallb_forall. intros x Hx.
    rewrite forallb_forall in H. apply H.
    apply list_elem_of_In in Hx. apply elem_of_take in Hx as (i & Hi & _).
    apply list_elem_of_In. eapply list_elem_of_lookup_2. exact Hi. }
  split.
  { intros out registry d limit resume workers limit' c.
    pose proof (Hrun out registry d limit resume workers) as H. fold c in H.
    split; [exact H|].
    split; [now apply none_retryable_nothing_to_retry|].
    intros out'. unfold Mcp.run_phase2.
    now rewrite (none_retryable_nothing_to_retry limit' c H). }
  intros out registry d limit resume workers c0.
  unfold Mcp.run_all, Mcp.run_phase2.
  now rewrite (none_retryable_nothing_to_retry _ _ (Hrun out registry d limit resume workers)).
Qed.

(** ** The trace of phase 1 *)

Section Trace.
Variable out : Mcp.Outside.

Lemma flush_trace c :
  Mcp.trace (Mcp.flush out c) = (Mcp.trace c ++ flush_writes)%list.
Proof.
  transitivity (((Mcp.trace c ++ [Mcp.Write Mcp.ProgressFile])
                   ++ [Mcp.Write Mcp.CompiledFile]) ++ [Mcp.Write Mcp.FailedFile])%list;
    [reflexivity|].
  now rewrite <- !app_assoc.
Qed.

Lemma record_result_trace id r c :
  Mcp.trace (Mcp.record_result id r c) = (Mcp.trace c ++ result_lines id r)%list.
Proof.
  destruct r as [[[[e|] [f|]] ok] msg]; unfold Mcp.record_result, result_lines.
  - rewrite (app_assoc (Mcp.trace c)). destruct (ok && bool_decide _); reflexivity.
  - destruct (ok && bool_decide _); now rewrite app_nil_r.
  - reflexivity.
  - now rewrite app_nil_r.
Qed.

Lemma update_emit_trace f a c :
  Mcp.trace (Mcp.update_progress f (Mcp.emit a c)) = (Mcp.trace c ++ [a])%list.
Proof. reflexivity. Qed.

Lemma emit_trace a c : Mcp.trace (Mcp.emit a c) = (Mcp.trace c ++ [a])%list.
Proof. reflexivity. Qed.

Lemma foldl_consume_trace args : forall c k,
  Mcp.trace (fst (foldl (Mcp.consume out) (c, k) args))
  = (Mcp.trace c ++ loop_actions out k args)%list.
Proof.
  induction args as [|arg args IH]; intros c k.
  - cbn [foldl fst loop_actions]. now rewrite app_nil_r.
  - cbn [foldl loop_actions]. unfold Mcp.consume at 2, completion_lines.
    destruct (Mcp.process_server_with_model out arg) as [r|].
    + destruct (Mcp.CHECKPOINT_INTERVAL <=? S k).
      * rewrite IH, flush_trace, record_result_trace. now rewrite <- !app_assoc.
      * rewrite IH, record_result_trace. now rewrite <- !app_assoc.
    + rewrite IH, update_emit_trace. now rewrite <- app_assoc.
Qed.

Lemma submit_all_trace args : forall c,
  Mcp.trace (Mcp.submit_all args c)
  = (Mcp.trace c ++ map (fun arg => Mcp.Submit (Mcp.arg_id arg) (snd (fst arg))) args)%list.
Proof.
  unfold Mcp.submit_all. induction args as [|a args IH]; intros c.
  - cbn [foldl map]. now rewrite app_nil_r.
  - cbn [foldl map]. rewrite IH, emit_trace. now rewrite <- app_assoc.
Qed.

Lemma start_phase1_trace c : Mcp.trace (Mcp.start_phase1 out c) = Mcp.trace c.
Proof. unfold Mcp.start_phase1. now destruct (String.eqb _ _). Qed.

Lemma resume_progress_trace resume c :
  Mcp.trace (Mcp.resume_progress resume c) = Mcp.trace c.
Proof.
  unfold Mcp.resume_progress. destruct resume; [|reflexivity].
  now destruct (Mcp.load_progress c).
Qed.

(** The whole trace of phase 1 when there is something to process. *)
Lemma run_phase1_trace limit resume workers c :
  let c' := Mcp.resume_progress resume c in
  let todo := Mcp.servers_to_process limit resume c' in
  let args := Mcp.process_args todo (Mcp.backends c) in
  Mcp.trace (Mcp.run_phase1 out limit resume workers c)
  = match todo with
    | [] => Mcp.trace c
    | _ :: _ =>
        (Mcp.trace c
         ++ map (fun arg => Mcp.Submit (Mcp.arg_id arg) (snd (fst arg))) args
         ++ loop_actions out 0 (Mcp.as_completed out args)
         ++ flush_writes)%list
    end.
Proof.
  cbv zeta. unfold Mcp.run_phase1.
  set (c' := Mcp.resume_progress resume c).
  assert (Hb : Mcp.backends (Mcp.start_phase1 out c') = Mcp.backends c).
  { destruct (start_phase1_fields out c') as (_ & _ & _ & ->). unfold c'.
    now destruct (resume_progress_fields resume c) as (_ & _ & _ & ->). }
  destruct (Mcp.servers_to_process limit resume c') as [|s todo'].
  - rewrite start_phase1_trace. unfold c'. apply resume_progress_trace.
  - rewrite Hb, flush_trace, foldl_consume_trace, submit_all_trace, start_phase1_trace.
    unfold c'. rewrite resume_progress_trace. now rewrite <- !app_assoc.
Qed.

Lemma submitted_app (a b : list Mcp.action) :
  submitted (a ++ b) = (submitted a ++ submitted b)%list.
Proof. apply omap_app. Qed.

Lemma submitted_completion_lines arg : submitted (completion_lines out arg) = [].
Proof.
  unfold completion_lines.
  destruct (Mcp.process_server_with_model out arg) as [[[[[e|] [f|]] ok] msg]|];
    reflexivity.
Qed.

Lemma submitted_loop_actions args : forall k, submitted (loop_actions out k args) = [].
Proof.
  induction args as [|arg args IH]; intros k; [reflexivity|].
  cbn [loop_actions]. rewrite submitted_app, submitted_completion_lines.
  destruct (Mcp.process_server_with_model out arg); [|apply IH].
  destruct (Mcp.CHECKPOINT_INTERVAL <=? S k); [|apply IH].
  rewrite submitted_app, IH. reflexivity.
Qed.

Lemma submitted_imap (bs : list Llm.Backend) (l : list Mcp.Server.t) :
  forall g : nat -> nat,
    submitted (map (fun arg => Mcp.Submit (Mcp.arg_id arg) (snd (fst arg)))
                 (imap (fun idx server => (server, g idx, bs)) l))
    = imap (fun k s => (Mcp.Server.registryId s, g k)) l.
Proof.
  induction l as [|s l IH]; intros g; [reflexivity|].
  rewrite !imap_cons. cbn [map]. unfold submitted. cbn [omap list_omap submission].
  f_equal. exact (IH (g ∘ S)).
Qed.

Lemma submitted_process_args (l : list Mcp.Server.t) (bs : list Llm.Backend) :
  submitted (map (fun arg => Mcp.Submit (Mcp.arg_id arg) (snd (fst arg)))
               (Mcp.process_args l bs))
  = imap (fun k s => (Mcp.Server.registryId s, k mod length bs)) l.
Proof. apply (submitted_imap bs l (fun idx => idx mod length bs)). Qed.

End Trace.

(** ** Round-robin assignment *)

(** C7, as the code has it: the record at position [k] of the filtered
    batch is submitted with backend slot [k mod B], where [B] is the number
    of backends of the service (three for the MCP compiler, five for the
    model compiler), whatever worker count was asked for.  The same
    [process_args] assigns the slots of the retry pass. *)
Theorem slots_follow_the_backends :
  (forall out limit resume workers c,
     submitted (Mcp.trace (Mcp.run_phase1 out limit resume workers c))
     = (submitted (Mcp.trace c) ++
        imap (fun k s => (Mcp.Server.registryId s, k mod length (Mcp.backends c)))
          (Mcp.servers_to_process limit resume (Mcp.resume_progress resume c)))%list) /\
  (forall registry d,
     length (Mcp.backends (Mcp.load_servers registry (Mcp.init d))) = 3) /\
  (forall l bs k,
     Mcp.process_args l bs !! k = (fun s => (s, k mod length bs, bs)) <$> l !! k) /\
  (forall l k,
     Model.tasks l Model.BACKENDS !! k
     = (fun m => (m, Model.BACKENDS !! (k mod 5))) <$> l !! k).
Proof.
  split.
  { intros out limit resume workers c.
    pose proof (run_phase1_trace out limit resume workers c) as H. cbv zeta in H.
    rewrite H. clear H.
    destruct (Mcp.servers_to_process limit resume (Mcp.resume_progress resume c))
      as [|s todo].
    - cbn [imap]. now rewrite app_nil_r.
    - rewrite !submitted_app, submitted_process_args, submitted_loop_actions.
      cbn [app]. unfold flush_writes, submitted. cbn [omap list_omap submission].
      now rewrite app_nil_r. }
  split; [reflexivity|].
  split.
  { intros l bs k. unfold Mcp.process_args. apply list_lookup_imap. }
  intros l k. unfold Model.tasks. apply list_lookup_imap.
Qed.

(** C7 as the specification states it fails: asked for five workers, the
    MCP compiler still deals the four records out over its three backends,
    and the record at position 3 goes to slot 0, not to slot [3 mod 5]. *)
Lemma slot_is_not_position_mod_workers :
  let c := Mcp.run_phase1 Sample.quiet None false 5
             (Mcp.load_servers Sample.four (Mcp.init Sample.no_disk)) in
  submitted (Mcp.trace c) = [("a", 0); ("b", 1); ("c", 2); ("d", 0)] /\
  submitted (Mcp.trace c) !! 3 <> Some ("d", 3 mod 5).
Proof. vm_compute. split; [reflexivity|discriminate]. Qed.

(** ** Checkpoint cadence *)

Section Cadence.
Variable out : Mcp.Outside.

Lemma completion_one_line arg :
  returns out arg -> exists t, completion_lines out arg = [Mcp.Line t (Mcp.arg_id arg)].
Proof.
  intros [r E]. unfold completion_lines. rewrite E.
  apply process_one_entry in E.
  destruct r as [[[[e|] [f|]] ok] msg]; cbn [one_entry] in E; try done;
    unfold result_lines; eauto.
Qed.

Lemma loop_actions_points args : forall k seen tail,
  Forall (returns out) args ->
  flush_points seen (loop_actions out k args ++ tail)
  = (cadence seen k (length args) ++ flush_points (seen + length args) tail)%list.
Proof.
  induction args as [|arg args IH]; intros k seen tail Hall.
  - cbn [loop_actions length cadence app]. now rewrite Nat.add_0_r.
  - apply Forall_cons in Hall as [Harg Hall].
    destruct (completion_one_line arg Harg) as [t Ht].
    destruct Harg as [r Er].
    cbn [loop_actions length cadence]. rewrite Ht, Er.
    replace (seen + S (length args)) with (S seen + length args) by lia.
    destruct (Mcp.CHECKPOINT_INTERVAL <=? S k).
    + cbn [app flush_writes flush_points]. now rewrite IH.
    + cbn [app flush_points]. now rewrite IH.
Qed.

Lemma loop_actions_writes args : forall k seen,
  Forall (returns out) args ->
  List.filter is_write (loop_actions out k args)
  = concat (map (fun _ => flush_writes) (cadence seen k (length args))).
Proof.
  induction args as [|arg args IH]; intros k seen Hall; [reflexivity|].
  apply Forall_cons in Hall as [Harg Hall].
  destruct (completion_one_line arg Harg) as [t Ht].
  destruct Harg as [r Er].
  cbn [loop_actions length cadence]. rewrite Ht, Er.
  destruct (Mcp.CHECKPOINT_INTERVAL <=? S k).
  - cbn [app flush_writes List.filter is_write map concat].
    now rewrite (IH 0 (S seen) Hall).
  - cbn [app List.filter is_write]. now apply IH.
Qed.

Lemma process_args_return (l : list Mcp.Server.t) (bs : list Llm.Backend) :
  bs <> [] -> (forall s, Mcp.worker_dies out s = false) ->
  Forall (returns out) (Mcp.process_args l bs).
Proof.
  intros Hbs Halive. apply Forall_forall. intros arg Harg.
  unfold Mcp.process_args in Harg.
  apply elem_of_lookup_imap in Harg as (i & s & -> & _).
  unfold returns, Mcp.process_server_with_model. rewrite Halive.
  assert (Hlt : (i mod length bs) mod length bs < length bs).
  { apply Nat.mod_upper_bound. destruct bs; [done|]. cbn [length]. lia. }
  apply lookup_lt_is_Some_2 in Hlt as [b Hb]. rewrite Hb. eauto.
Qed.

End Cadence.

(** C8, as the code has it: a batch of 37 records, processed with
    [CHECKPOINT_INTERVAL = 15] by workers that all return, is flushed
    exactly three times, whatever the order in which the futures complete:
    after the 15th and after the 30th completion, and at the end of the
    batch (after the 37th).  Each flush writes the progress, the compiled
    and the failed document, and the last one leaves on disk what the
    compiler holds. *)
Theorem checkpoint_cadence_37 (out : Mcp.Outside) (registry : list Mcp.Server.t)
    (d : Mcp.Disk) (limit : option nat) (resume : bool) (workers : nat) :
  let c := Mcp.load_servers registry (Mcp.init d) in
  length (Mcp.servers_to_process limit resume (Mcp.resume_progress resume c)) = 37 ->
  (forall s, Mcp.worker_dies out s = false) ->
  (forall args, Mcp.as_completed out args ≡ₚ args) ->
  let c' := Mcp.run_phase1 out limit resume workers c in
  Mcp.CHECKPOINT_INTERVAL = 15 /\
  flush_points 0 (Mcp.trace c') = [15; 30; 37] /\
  List.filter is_write (Mcp.trace c')
  = (flush_writes ++ flush_writes ++ flush_writes)%list /\
  Mcp.PROGRESS_PATH (Mcp.disk c') = Some (Mcp.progress c') /\
  (Mcp.doc_servers <$> Mcp.MCPCOMPILED_PATH (Mcp.disk c'))
  = Some (Mcp.values (Mcp.compiled c')) /\
  (Mcp.failed_servers <$> Mcp.FAILEDSERVERS_PATH (Mcp.disk c'))
  = Some (Mcp.values (Mcp.failed c')).
Proof.
  intros c Hlen Halive Hperm c'.
  split; [reflexivity|].
  pose proof (run_phase1_trace out limit resume workers c) as Htr. cbv zeta in Htr.
  fold c' in Htr.
  set (todo := Mcp.servers_to_process limit resume (Mcp.resume_progress resume c)) in *.
  set (args := Mcp.process_args todo (Mcp.backends c)) in *.
  assert (Hn : length (Mcp.as_completed out args) = 37).
  { rewrite (Permutation_length (Hperm args)). unfold args, Mcp.process_args.
    now rewrite length_imap. }
  assert (Hret : Forall (returns out) (Mcp.as_completed out args)).
  { rewrite (Hperm args). apply process_args_return; [discriminate|exact Halive]. }
  assert (Hdisk : exists c0, c' = Mcp.flush out c0).
  { unfold c', Mcp.run_phase1. fold todo.
    destruct todo as [|s todo']; [discriminate|]. eauto. }
  destruct todo as [|s todo'] eqn:Etodo; [discriminate|].
  rewrite Htr. clear Htr.
  assert (Hsub : forall seen l tail,
             flush_points seen
               (map (fun arg => Mcp.Submit (Mcp.arg_id arg) (snd (fst arg))) l ++ tail)
             = flush_points seen tail).
  { intros seen l tail. induction l as [|a l IH]; [reflexivity|exact IH]. }
  assert (Hsubw : forall l tail,
             List.filter is_write
               (map (fun arg => Mcp.Submit (Mcp.arg_id arg) (snd (fst arg))) l ++ tail)
             = List.filter is_write tail).
  { intros l tail. induction l as [|a l IH]; [reflexivity|exact IH]. }
  split.
  { change (Mcp.trace c) with (@nil Mcp.action). cbn [app].
    rewrite Hsub, (loop_actions_points out _ 0 0 flush_writes Hret), Hn.
    reflexivity. }
  split.
  { change (Mcp.trace c) with (@nil Mcp.action). cbn [app].
    rewrite Hsubw, List.filter_app, (loop_actions_writes out _ 0 0 Hret), Hn.
    reflexivity. }
  destruct Hdisk as [c0 ->]. repeat split; reflexivity.
Qed.

(** The cadence at the thirty-seven records [s00] .. [s36], on an empty
    disk, with workers that return in the order of submission. *)
Lemma checkpoint_cadence_37_witness :
  let out := Sample.quiet in
  let c := Mcp.load_servers Sample.batch37 (Mcp.init Sample.no_disk) in
  let c' := Mcp.run_phase1 out None false 3 c in
  length (Mcp.servers_to_process None false (Mcp.resume_progress false c)) = 37 /\
  flush_points 0 (Mcp.trace c') = [15; 30; 37].
Proof.
  split; [vm_compute; reflexivity|].
  apply (checkpoint_cadence_37 Sample.quiet Sample.batch37 Sample.no_disk None false 3).
  - vm_compute; reflexivity.
  - intros s; reflexivity.
  - intros args; reflexivity.
Defined.

(** C8 as the specification states it fails: when the worker of [s03], one
    of the thirty-seven records, dies of an unexpected exception, the
    [except] branch of the loop counts its future as processed and leaves
    [checkpoint_counter] as it is, and the two intermediate flushes come
    after the 16th and the 31st completion. *)
Lemma raising_worker_delays_the_flushes :
  let c := Mcp.load_servers Sample.batch37 (Mcp.init Sample.no_disk) in
  let c' := Mcp.run_phase1 Sample.stumbling None false 3 c in
  length (Mcp.servers_to_process None false (Mcp.resume_progress false c)) = 37 /\
  Mcp.Progress.processed (Mcp.progress c') = 37 /\
  flush_points 0 (Mcp.trace c') = [16; 31; 37] /\
  flush_points 0 (Mcp.trace c') <> [15; 30; 37].
Proof. vm_compute. repeat split; try reflexivity. discriminate. Qed.

(** ** One outcome per id *)

Section OneOutcome.
Variable out : Mcp.Outside.

(** One completion touches the two maps at the id of its record only, and
    there as its result says. *)
Lemma consume_lookup c k arg id :
  let c1 := fst (Mcp.consume out (c, k) arg) in
  (id <> Mcp.arg_id arg ->
   Mcp.compiled c1 !! id = Mcp.compiled c !! id /\
   Mcp.failed c1 !! id = Mcp.failed c !! id) /\
  match Mcp.process_server_with_model out arg with
  | Mcp.Returned (Some e, _, _, _) =>
      Mcp.compiled c1 !! Mcp.arg_id arg = Some e /\
      Mcp.failed c1 !! Mcp.arg_id arg = Mcp.failed c !! Mcp.arg_id arg
  | Mcp.Returned (None, Some e, _, _) =>
      Mcp.compiled c1 !! Mcp.arg_id arg = Mcp.compiled c !! Mcp.arg_id arg /\
      Mcp.failed c1 !! Mcp.arg_id arg = Some e
  | _ =>
      Mcp.compiled c1 !! Mcp.arg_id arg = Mcp.compiled c !! Mcp.arg_id arg /\
      Mcp.failed c1 !! Mcp.arg_id arg = Mcp.failed c !! Mcp.arg_id arg
  end.
Proof.
  cbv zeta. unfold Mcp.consume.
  destruct (Mcp.process_server_with_model out arg) as [r|] eqn:E; [|done].
  apply process_one_entry in E.
  pose proof (record_result_maps (Mcp.arg_id arg) r c E) as H.
  assert (Hfst : forall b : bool,
             Mcp.compiled (fst (if b then (Mcp.flush out (Mcp.record_result (Mcp.arg_id arg) r c), 0)
                                else (Mcp.record_result (Mcp.arg_id arg) r c, S k)))
             = Mcp.compiled (Mcp.record_result (Mcp.arg_id arg) r c) /\
             Mcp.failed (fst (if b then (Mcp.flush out (Mcp.record_result (Mcp.arg_id arg) r c), 0)
                              else (Mcp.record_result (Mcp.arg_id arg) r c, S k)))
             = Mcp.failed (Mcp.record_result (Mcp.arg_id arg) r c)).
  { intros []; done. }
  destruct (Hfst (Mcp.CHECKPOINT_INTERVAL <=? S k)) as [-> ->]. clear Hfst.
  destruct r as [[[[e|] [f|]] ok] msg]; cbn [one_entry] in E; try done;
    destruct H as [-> ->].
  - split; [|now rewrite lookup_insert_eq].
    intros Hne. now rewrite lookup_insert_ne.
  - split; [|now rewrite lookup_insert_eq].
    intros Hne. now rewrite lookup_insert_ne.
Qed.

Lemma foldl_consume_elsewhere l : forall c k id,
  id ∉ ids l ->
  let c' := fst (foldl (Mcp.consume out) (c, k) l) in
  Mcp.compiled c' !! id = Mcp.compiled c !! id /\
  Mcp.failed c' !! id = Mcp.failed c !! id.
Proof.
  induction l as [|a l IH]; intros c k id Hid; [done|].
  cbn [foldl]. cbv zeta.
  destruct (Mcp.consume out (c, k) a) as [c1 k1] eqn:E.
  apply not_elem_of_cons in Hid as [Hne Hid].
  destruct (IH c1 k1 id Hid) as [-> ->].
  destruct (consume_lookup c k a id) as [H _]. rewrite E in H. now apply H.
Qed.

(** Through the completions of records with distinct ids that are in
    neither map, the maps stay disjoint. *)
Lemma foldl_consume_disjoint l : forall c k,
  NoDup (ids l) ->
  Forall (in_neither c) (ids l) ->
  never_both c ->
  never_both (fst (foldl (Mcp.consume out) (c, k) l)).
Proof.
  induction l as [|a l IH]; intros c k Hnd Hfresh Hdis; [exact Hdis|].
  cbn [foldl].
  destruct (Mcp.consume out (c, k) a) as [c1 k1] eqn:E.
  cbn [ids map] in Hnd, Hfresh. apply NoDup_cons in Hnd as [Ha Hnd].
  apply Forall_cons in Hfresh as [[Hca Hfa] Hfresh].
  pose proof (consume_lookup c k a) as Hstep. rewrite E in Hstep. cbn [fst] in Hstep.
  apply IH; [exact Hnd| |].
  - apply Forall_forall. intros id Hid.
    rewrite Forall_forall in Hfresh. destruct (Hfresh id Hid) as [H1 H2].
    destruct (Hstep id) as [Hne _].
    assert (Hneq : id <> Mcp.arg_id a) by (intros ->; exact (Ha Hid)).
    destruct (Hne Hneq) as [He1 He2]. split; congruence.
  - intros id.
    destruct (decide (id = Mcp.arg_id a)) as [->|Hneq].
    + destruct (Hstep (Mcp.arg_id a)) as [_ Hat].
      destruct (Mcp.process_server_with_model out a) as [[[[[e|] [f|]] ok] msg]|];
        destruct Hat as [H1 H2]; first [right; congruence | left; congruence].
    + destruct (Hstep id) as [Hne _]. destruct (Hne Hneq) as [H1 H2].
      rewrite H1, H2. apply Hdis.
Qed.

(** Where the record of a completion ends up. *)
Lemma foldl_consume_at l : forall c k arg,
  NoDup (ids l) -> arg ∈ l -> in_neither c (Mcp.arg_id arg) ->
  let c' := fst (foldl (Mcp.consume out) (c, k) l) in
  match Mcp.process_server_with_model out arg with
  | Mcp.Returned _ => in_exactly_one c' (Mcp.arg_id arg)
  | Mcp.Raised => in_neither c' (Mcp.arg_id arg)
  end.
Proof.
  induction l as [|a l IH]; intros c k arg Hnd Hin Hfresh; [now apply elem_of_nil in Hin|].
  cbn [foldl]. cbv zeta.
  destruct (Mcp.consume out (c, k) a) as [c1 k1] eqn:E.
  cbn [ids map] in Hnd. apply NoDup_cons in Hnd as [Ha Hnd].
  pose proof (consume_lookup c k a) as Hstep. rewrite E in Hstep. cbn [fst] in Hstep.
  destruct Hfresh as [Hc Hf].
  destruct (decide (Mcp.arg_id arg = Mcp.arg_id a)) as [Heq|Hneq].
  - assert (arg = a) as ->.
    { apply elem_of_cons in Hin as [->|Hin]; [reflexivity|].
      exfalso. apply Ha. rewrite <- Heq. unfold ids.
      apply list_elem_of_In, in_map, list_elem_of_In, Hin. }
    destruct (foldl_consume_elsewhere l c1 k1 (Mcp.arg_id a) Ha) as [H1 H2].
    cbv zeta in H1, H2.
    destruct (Hstep (Mcp.arg_id a)) as [_ Hat].
    pose proof (process_one_entry out a) as Hone.
    destruct (Mcp.process_server_with_model out a) as [[[[[e|] [f|]] ok] msg]|].
    + now specialize (Hone _ eq_refl).
    + destruct Hat as [Hat1 Hat2]. left. rewrite H1, H2, Hat1, Hat2. eauto.
    + destruct Hat as [Hat1 Hat2]. right. rewrite H1, H2, Hat1, Hat2. eauto.
    + now specialize (Hone _ eq_refl).
    + destruct Hat as [Hat1 Hat2]. split; congruence.
  - apply elem_of_cons in Hin as [->|Hin]; [done|].
    apply IH; [exact Hnd|exact Hin|].
    destruct (Hstep (Mcp.arg_id arg)) as [Hne _].
    destruct (Hne Hneq) as [H1 H2]. split; congruence.
Qed.

End OneOutcome.

Section Batch.

Lemma List_filter_sublist {A} (p : A -> bool) (l : list A) :
  List.filter p l `sublist_of` l.
Proof.
  induction l as [|x l IH]; cbn [List.filter]; [constructor|].
  destruct (p x); now constructor.
Qed.

Lemma map_sublist {A B} (f : A -> B) (l1 l2 : list A) :
  l1 `sublist_of` l2 -> map f l1 `sublist_of` map f l2.
Proof. induction 1; cbn [map]; now constructor. Qed.

Lemma apply_limit_sublist {A} (limit : option nat) (l : list A) :
  Mcp.apply_limit limit l `sublist_of` l.
Proof. destruct limit as [[|n]|]; cbn [Mcp.apply_limit]; [done|apply sublist_take|done]. Qed.

Lemma servers_to_process_sublist limit resume c :
  Mcp.servers_to_process limit resume c `sublist_of` Mcp.servers c.
Proof.
  unfold Mcp.servers_to_process.
  etransitivity; [apply List_filter_sublist|].
  etransitivity; [apply apply_limit_sublist|].
  destruct (resume && _); [apply sublist_drop|done].
Qed.

Lemma servers_to_process_fresh limit resume c s :
  s ∈ Mcp.servers_to_process limit resume c ->
  Mcp.compiled c !! Mcp.Server.registryId s = None.
Proof.
  unfold Mcp.servers_to_process. intros H.
  apply list_elem_of_In, filter_In in H as [_ H].
  unfold Mcp.not_compiled in H. now apply bool_decide_eq_true in H.
Qed.

Lemma ids_imap (bs : list Llm.Backend) (l : list Mcp.Server.t) :
  forall g : nat -> nat,
    ids (imap (fun idx server => (server, g idx, bs)) l)
    = map Mcp.Server.registryId l.
Proof.
  induction l as [|s l IH]; intros g; [reflexivity|].
  rewrite imap_cons. cbn [ids map]. f_equal. exact (IH (g ∘ S)).
Qed.

Lemma ids_process_args (l : list Mcp.Server.t) (bs : list Llm.Backend) :
  ids (Mcp.process_args l bs) = map Mcp.Server.registryId l.
Proof. apply (ids_imap bs l (fun idx => idx mod length bs)). Qed.

Lemma process_args_dies (out : Mcp.Outside) (l : list Mcp.Server.t)
    (bs : list Llm.Backend) (arg : Mcp.process_arg) :
  bs <> [] -> arg ∈ Mcp.process_args l bs ->
  fst (fst arg) ∈ l /\
  match Mcp.process_server_with_model out arg with
  | Mcp.Returned _ => Mcp.worker_dies out (fst (fst arg)) = false
  | Mcp.Raised => Mcp.worker_dies out (fst (fst arg)) = true
  end.
Proof.
  intros Hbs Harg. unfold Mcp.process_args in Harg.
  apply elem_of_lookup_imap in Harg as (i & s & -> & Hs).
  split; [cbn [fst]; eapply list_elem_of_lookup_2; exact Hs|].
  cbn [fst]. unfold Mcp.process_server_with_model.
  destruct (Mcp.worker_dies out s); [reflexivity|].
  assert (Hlt : (i mod length bs) mod length bs < length bs).
  { apply Nat.mod_upper_bound. destruct bs; [done|]. cbn [length]. lia. }
  apply lookup_lt_is_Some_2 in Hlt as [b Hb]. now rewrite Hb.
Qed.

End Batch.

(** C1, as the code has it: through a full run (the initial pass, then the
    retry pass) of a compiler over records with distinct ids, no id is ever
    in both the compiled and the failed map, at any point at which they can
    be observed; once the run is over, a record of the batch whose worker
    returned a result is in exactly one of the two maps, and a record whose
    worker raised an unexpected exception is in neither. *)
Theorem one_outcome_per_id (out : Mcp.Outside) (registry : list Mcp.Server.t)
    (d : Mcp.Disk) (limit : option nat) (resume : bool) (workers : nat) :
  NoDup (map Mcp.Server.registryId registry) ->
  (forall args, Mcp.as_completed out args ≡ₚ args) ->
  let c := Mcp.load_servers registry (Mcp.init d) in
  let todo := Mcp.servers_to_process limit resume (Mcp.resume_progress resume c) in
  let c' := Mcp.run_all out limit resume workers c in
  (forall n, never_both (phase1_after out limit resume c n)) /\
  never_both c' /\
  (forall s, s ∈ todo ->
     if Mcp.worker_dies out s
     then in_neither c' (Mcp.Server.registryId s)
     else in_exactly_one c' (Mcp.Server.registryId s)).
Proof.
  intros Hnd Hperm c todo c'.
  set (c1 := Mcp.resume_progress resume c) in *.
  set (c2 := Mcp.start_phase1 out c1).
  set (args := Mcp.process_args todo (Mcp.backends c2)).
  set (c3 := Mcp.submit_all args c2).
  assert (Hcomp : Mcp.compiled c3 = Mcp.compiled c1 /\ Mcp.failed c3 = ∅
                  /\ Mcp.backends c2 = Llm.BACKENDS).
  { unfold c3. destruct (submit_all_fields args c2) as (-> & -> & _).
    unfold c2. destruct (start_phase1_fields out c1) as (-> & -> & _ & ->).
    unfold c1. destruct (resume_progress_fields resume c) as (_ & -> & _ & ->).
    done. }
  destruct Hcomp as (Hc3 & Hf3 & Hbs).
  assert (Hids : NoDup (ids args)).
  { unfold args. rewrite ids_process_args.
    apply (sublist_NoDup _ _ Hnd). apply map_sublist.
    etransitivity; [apply servers_to_process_sublist|].
    unfold c1. destruct (resume_progress_fields resume c) as (_ & _ & -> & _).
    apply sublist_filter. }
  assert (Hfresh : Forall (in_neither c3) (ids args)).
  { unfold args. rewrite ids_process_args. apply Forall_forall. intros id Hid.
    apply list_elem_of_In, in_map_iff in Hid as (s & <- & Hs).
    apply list_elem_of_In in Hs. split.
    - rewrite Hc3. exact (servers_to_process_fresh _ _ _ _ Hs).
    - rewrite Hf3. apply lookup_empty. }
  assert (Hstart : never_both c3).
  { intros id. right. rewrite Hf3. apply lookup_empty. }
  assert (Hdone_ids : ids (Mcp.as_completed out args) ≡ₚ ids args).
  { unfold ids. apply Permutation_map, Hperm. }
  assert (Hfresh' : Forall (in_neither c3) (ids (Mcp.as_completed out args)))
    by (now rewrite Hdone_ids).
  assert (Hprefix : forall n, never_both (phase1_after out limit resume c n)).
  { intros n. unfold phase1_after. fold c1. fold todo. fold c2. fold args. fold c3.
    apply foldl_consume_disjoint; [| |exact Hstart].
    - assert (Hd : NoDup (ids (Mcp.as_completed out args))) by (now rewrite Hdone_ids).
      apply (sublist_NoDup _ _ Hd). apply map_sublist, sublist_take.
    - apply Forall_forall. intros id Hid.
      rewrite Forall_forall in Hfresh. apply Hfresh.
      rewrite <- Hdone_ids.
      eapply elem_of_sublist; [exact Hid|].
      apply (map_sublist Mcp.arg_id), sublist_take. }
  assert (Hall : c' = Mcp.run_phase1 out limit resume workers c).
  { unfold c', Mcp.run_all, Mcp.run_phase2.
    now rewrite (none_retryable_nothing_to_retry _ _
                   (run_phase1_none_retryable out limit resume workers c
                      (init_none_retryable registry d))). }
  assert (Hrun : match todo with
                 | [] => c' = c2
                 | _ :: _ =>
                     c' = Mcp.flush out
                            (fst (foldl (Mcp.consume out) (c3, 0) (Mcp.as_completed out args)))
                 end).
  { rewrite Hall. unfold Mcp.run_phase1. fold c1. fold todo. fold c2.
    destruct todo; reflexivity. }
  split; [exact Hprefix|].
  split.
  { destruct todo as [|s0 todo'] eqn:Etodo.
    - rewrite Hrun. intros id. right. unfold c2.
      destruct (start_phase1_fields out c1) as (_ & -> & _). unfold c1.
      destruct (resume_progress_fields resume c) as (_ & -> & _). apply lookup_empty.
    - rewrite Hrun. intros id. rewrite flush_compiled, flush_failed.
      apply foldl_consume_disjoint; [|exact Hfresh'|exact Hstart].
      now rewrite Hdone_ids. }
  intros s Hs.
  destruct todo as [|s0 todo'] eqn:Etodo; [now apply elem_of_nil in Hs|].
  rewrite Hrun.
  assert (Hk : exists arg, arg ∈ args /\ fst (fst arg) = s).
  { apply list_elem_of_lookup in Hs as [i Hi].
    exists (s, i mod length (Mcp.backends c2), Mcp.backends c2). split; [|reflexivity].
    unfold args, Mcp.process_args.
    apply (elem_of_lookup_imap_2
             (fun idx server => (server, idx mod length (Mcp.backends c2), Mcp.backends c2))
             _ _ _ Hi). }
  destruct Hk as (arg & Harg & <-).
  assert (Hbne : Mcp.backends c2 <> []) by (rewrite Hbs; discriminate).
  destruct (process_args_dies out _ _ arg Hbne Harg) as [_ Hdies].
  assert (Hin : arg ∈ Mcp.as_completed out args) by (now rewrite (Hperm args)).
  assert (Hdn : NoDup (ids (Mcp.as_completed out args))) by (now rewrite Hdone_ids).
  assert (Hfr : in_neither c3 (Mcp.arg_id arg)).
  { rewrite Forall_forall in Hfresh. apply Hfresh. unfold ids.
    apply list_elem_of_In, in_map, list_elem_of_In, Harg. }
  pose proof (foldl_consume_at out _ c3 0 arg Hdn Hin Hfr) as Hat. cbv zeta in Hat.
  change (Mcp.Server.registryId (fst (fst arg))) with (Mcp.arg_id arg).
  unfold in_neither, in_exactly_one in *.
  rewrite flush_compiled, flush_failed.
  destruct (Mcp.process_server_with_model out arg); rewrite Hdies; exact Hat.
Qed.

(** The four records [a] .. [d], on an empty disk, with workers that return
    in the order of submission: no id ends up in both maps. *)
Lemma one_outcome_per_id_witness :
  NoDup (map Mcp.Server.registryId Sample.four) /\
  never_both (Mcp.run_all Sample.quiet None false 3
                (Mcp.load_servers Sample.four (Mcp.init Sample.no_disk))).
Proof.
  assert (Hnd : NoDup (map Mcp.Server.registryId Sample.four)).
  { apply (bool_decide_unpack _). vm_compute. exact I. }
  split; [exact Hnd|].
  apply (one_outcome_per_id Sample.quiet Sample.four Sample.no_disk None false 3).
  - exact Hnd.
  - intros args; reflexivity.
Defined.

(** C1 as the specification states it fails: when the worker of [a] dies of
    an unexpected exception, the run counts [a] as processed and flushes,
    and [a] is in neither map. *)
Lemma processed_yet_in_neither_map :
  let c := Mcp.run_all Sample.deadly None false 3
             (Mcp.load_servers Sample.one (Mcp.init Sample.no_disk)) in
  Mcp.Progress.processed (Mcp.progress c) = 1 /\
  flush_points 0 (Mcp.trace c) = [1] /\
  Mcp.compiled c !! "a" = None /\
  Mcp.failed c !! "a" = None /\
  ~ in_exactly_one c "a".
Proof.
  vm_compute. repeat (split; [reflexivity|]).
  intros [[[x H] _]|[_ [x H]]]; discriminate.
Qed.

(** ** Resume *)

(** C2 at a failing input.  The interrupted run left [a] in the failed
    document.  On [--resume] the MCP compiler reads the compiled document
    (when it is built) and the progress document back, and skips the records
    already compiled, but it never reads the failed document: its failed map
    is empty whatever the disk holds, so [a] is unknown to the resumed run
    and the next flush writes a failed document without [a].  The model
    compiler's [load_progress] does read the failed document back. *)
Theorem mcp_resume_forgets_failed :
  (forall registry d resume,
     Mcp.failed (Mcp.resume_progress resume (Mcp.load_servers registry (Mcp.init d)))
     = ∅) /\
  (forall registry d,
     Mcp.compiled (Mcp.load_servers registry (Mcp.init d)) = Mcp.load_compiled d /\
     Mcp.progress (Mcp.resume_progress true (Mcp.load_servers registry (Mcp.init d)))
     = Spawn.or_default (Mcp.PROGRESS_PATH d) Mcp.Progress.default) /\
  (forall limit resume c,
     forallb (Mcp.not_compiled c) (Mcp.servers_to_process limit resume c) = true) /\
  (let c := Mcp.main Sample.quiet Sample.two Sample.interrupted Sample.resume_args in
   (Mcp.failed_servers <$> Mcp.FAILEDSERVERS_PATH Sample.interrupted)
   = Some [Sample.failure "a"] /\
   Mcp.failed c !! "a" = None /\
   Mcp.compiled c !! "a" = None /\
   (map Mcp.FailedServer.id <$>
      (Mcp.failed_servers <$> Mcp.FAILEDSERVERS_PATH (Mcp.disk c))) = Some ["b"]) /\
  (let m := Model.load_progress
              (Model.ModelCompiler Sample.models Sample.interrupted_models) in
   is_Some (Model.failed m !! "a")).
Proof.
  split.
  { intros registry d resume.
    destruct (resume_progress_fields resume (Mcp.load_servers registry (Mcp.init d)))
      as (_ & -> & _). reflexivity. }
  split.
  { intros registry d. split; [reflexivity|].
    unfold Mcp.resume_progress, Mcp.load_progress.
    change (Mcp.PROGRESS_PATH (Mcp.disk (Mcp.load_servers registry (Mcp.init d))))
      with (Mcp.PROGRESS_PATH d).
    destruct (Mcp.PROGRESS_PATH d); reflexivity. }
  split.
  { intros limit resume c. unfold Mcp.servers_to_process.
    apply forallb_forall. intros x Hx. now apply filter_In in Hx. }
  split.
  { vm_compute. repeat split; reflexivity. }
  vm_compute. eauto.
Qed.

(** ** Substitution of a character class *)

Section SubChr.
Variable p : ascii -> bool.
Variable repl : list ascii.
Variable s : list ascii.

Lemma match_at_chr (pos : nat) :
  Re.match_at (Re.Chr p) s pos
  = match s !! pos with
    | Some c => if p c then Some (Re.Hit pos (S pos) None) else None
    | None => None
    end.
Proof. reflexivity. Qed.

Lemma search_chr_hit (pre : list ascii) : forall pos fuel c rest,
  drop pos s = (pre ++ c :: rest)%list ->
  Forall (fun x => p x = false) pre -> p c = true -> length pre <= fuel ->
  Re.search_aux fuel (Re.Chr p) s pos
  = Some (Re.Hit (pos + length pre) (S (pos + length pre)) None).
Proof.
  induction pre as [|x pre IH]; intros pos fuel c rest Hd Hpre Hc Hfuel.
  - assert (Hs : s !! pos = Some c).
    { rewrite <- (Nat.add_0_r pos), <- lookup_drop, Hd. reflexivity. }
    destruct fuel; cbn [Re.search_aux]; rewrite match_at_chr, Hs, Hc;
      cbn [length]; now rewrite Nat.add_0_r.
  - assert (Hs : s !! pos = Some x).
    { rewrite <- (Nat.add_0_r pos), <- lookup_drop, Hd. reflexivity. }
    apply Forall_cons in Hpre as [Hx Hpre].
    destruct fuel as [|fuel]; [cbn [length] in Hfuel; lia|].
    cbn [Re.search_aux]. rewrite match_at_chr, Hs, Hx.
    rewrite (IH (S pos) fuel c rest); [| |exact Hpre|exact Hc|cbn [length] in Hfuel; lia].
    + cbn [length]. now rewrite !Nat.add_succ_r.
    + replace (S pos) with (pos + 1) by lia. rewrite <- drop_drop, Hd. reflexivity.
Qed.

Lemma search_chr_miss (fuel : nat) : forall pos,
  Forall (fun x => p x = false) (drop pos s) ->
  Re.search_aux fuel (Re.Chr p) s pos = None.
Proof.
  induction fuel as [|fuel IH]; intros pos Hall.
  - cbn [Re.search_aux]. rewrite match_at_chr.
    destruct (s !! pos) as [x|] eqn:Hs; [|reflexivity].
    rewrite Forall_forall in Hall. rewrite (Hall x); [reflexivity|].
    apply list_elem_of_lookup. exists 0. now rewrite lookup_drop, Nat.add_0_r.
  - cbn [Re.search_aux]. rewrite match_at_chr.
    assert (Hnext : Forall (fun x => p x = false) (drop (S pos) s)).
    { replace (S pos) with (pos + 1) by lia. rewrite <- drop_drop.
      apply Forall_drop, Hall. }
    destruct (s !! pos) as [x|] eqn:Hs; [|now apply IH].
    rewrite Forall_forall in Hall. rewrite (Hall x); [now apply IH|].
    apply list_elem_of_lookup. exists 0. now rewrite lookup_drop, Nat.add_0_r.
Qed.

(** A list either has no element of the class, or splits at the first. *)
Lemma first_of_class (l : list ascii) :
  Forall (fun x => p x = false) l \/
  exists pre c rest,
    l = (pre ++ c :: rest)%list /\ Forall (fun x => p x = false) pre /\ p c = true.
Proof.
  induction l as [|x l IH]; [left; constructor|].
  destruct (p x) eqn:Hx.
  - right. exists [], x, l. repeat split; [constructor|exact Hx].
  - destruct IH as [IH|(pre & c & rest & -> & Hpre & Hc)].
    + left. now constructor.
    + right. exists (x :: pre), c, rest. repeat split; [now constructor|exact Hc].
Qed.

Lemma substituted_none (l : list ascii) :
  Forall (fun x => p x = false) l -> substituted p repl l = l.
Proof.
  induction 1 as [|x l Hx Hl IH]; [reflexivity|].
  unfold substituted in *. cbn [flat_map]. now rewrite Hx, IH.
Qed.

Lemma sub_aux_chr (fuel : nat) : forall pos,
  length s - pos < fuel ->
  Re.sub_aux fuel (Re.Chr p) repl s pos = substituted p repl (drop pos s).
Proof.
  induction fuel as [|fuel IH]; intros pos Hfuel; [lia|].
  cbn [Re.sub_aux]. unfold Re.search_from.
  destruct (first_of_class (drop pos s)) as [Hall|(pre & c & rest & Hd & Hpre & Hc)].
  - rewrite search_chr_miss by exact Hall. now rewrite substituted_none.
  - assert (Hlen : length pre < length s - pos).
    { rewrite <- length_drop, Hd, length_app. cbn [length]. lia. }
    rewrite (search_chr_hit pre pos _ c rest Hd Hpre Hc) by lia.
    cbn [Re.hit_start Re.hit_end].
    replace (pos + length pre <? S (pos + length pre)) with true
      by (symmetry; apply Nat.ltb_lt; lia).
    rewrite IH by lia.
    unfold Re.slice. replace (pos + length pre - pos) with (length pre) by lia.
    rewrite Hd, take_app_length.
    replace (S (pos + length pre)) with (pos + S (length pre)) by lia.
    rewrite <- drop_drop, Hd.
    replace (drop (S (length pre)) (pre ++ c :: rest)) with rest.
    2:{ change (c :: rest) with ([c] ++ rest)%list. rewrite app_assoc.
        replace (S (length pre)) with (length (pre ++ [c])%list)
          by (rewrite length_app; cbn [length]; lia).
        now rewrite drop_app_length. }
    transitivity (substituted p repl pre ++ substituted p repl (c :: rest))%list;
      [|symmetry; apply flat_map_app].
    rewrite (substituted_none pre Hpre). unfold substituted. cbn [flat_map].
    now rewrite Hc.
Qed.

End SubChr.

(** [re.sub] of a one-character class is a character-wise replacement. *)
Lemma sub_chr (p : ascii -> bool) (repl s : string) :
  Py.chars (Re.sub (Re.Chr p) repl s)
  = flat_map (fun c => if p c then Py.chars repl else [c]) (Py.chars s).
Proof.
  unfold Re.sub. rewrite chars_str, sub_aux_chr by lia. now rewrite drop_0.
Qed.

(** ** Trimming *)

Section Strip.
Variable p : ascii -> bool.

Lemma lstrip_by_suffix (l : list ascii) :
  exists pre, l = (pre ++ Py.lstrip_by p l)%list.
Proof.
  induction l as [|x l [pre IH]]; [now exists []|].
  cbn [Py.lstrip_by]. destruct (p x).
  - exists (x :: pre). cbn [app]. now rewrite <- IH.
  - now exists [].
Qed.

Lemma lstrip_by_head (l : list ascii) (x : ascii) :
  head (Py.lstrip_by p l) = Some x -> p x = false.
Proof.
  induction l as [|y l IH]; [discriminate|].
  cbn [Py.lstrip_by]. destruct (p y) eqn:Hy; [exact IH|].
  cbn [head]. now intros [= <-].
Qed.

Lemma last_rev (l : list ascii) : last (rev l) = head l.
Proof. destruct l as [|x l]; [reflexivity|]. cbn [rev head]. apply last_snoc. Qed.

Lemma head_rev (l : list ascii) : head (rev l) = last l.
Proof. rewrite <- (rev_involutive l) at 2. now rewrite last_rev. Qed.

Lemma rstrip_by_prefix (l : list ascii) :
  exists suf, l = (Py.rstrip_by p l ++ suf)%list.
Proof.
  unfold Py.rstrip_by. destruct (lstrip_by_suffix (rev l)) as [pre H].
  exists (rev pre). rewrite <- rev_app_distr, <- H. now rewrite rev_involutive.
Qed.

Lemma rstrip_by_last (l : list ascii) (x : ascii) :
  last (Py.rstrip_by p l) = Some x -> p x = false.
Proof. unfold Py.rstrip_by. rewrite last_rev. apply lstrip_by_head. Qed.

Lemma strip_by_infix (l : list ascii) :
  exists pre suf, l = (pre ++ Py.strip_by p l ++ suf)%list.
Proof.
  unfold Py.strip_by. destruct (lstrip_by_suffix l) as [pre Hpre].
  destruct (rstrip_by_prefix (Py.lstrip_by p l)) as [suf Hsuf].
  exists pre, suf. now rewrite <- Hsuf.
Qed.

Lemma strip_by_last (l : list ascii) (x : ascii) :
  last (Py.strip_by p l) = Some x -> p x = false.
Proof. apply rstrip_by_last. Qed.

Lemma strip_by_head (l : list ascii) (x : ascii) :
  head (Py.strip_by p l) = Some x -> p x = false.
Proof.
  unfold Py.strip_by. intros H. apply (lstrip_by_head l).
  destruct (rstrip_by_prefix (Py.lstrip_by p l)) as [suf Hsuf].
  rewrite Hsuf. destruct (Py.rstrip_by p (Py.lstrip_by p l)); [discriminate|exact H].
Qed.

Lemma strip_by_Forall (P : ascii -> Prop) (l : list ascii) :
  Forall P l -> Forall P (Py.strip_by p l).
Proof.
  destruct (strip_by_infix l) as (pre & suf & H). intros Hl. rewrite H in Hl.
  apply Forall_app in Hl as [_ Hl]. now apply Forall_app in Hl as [Hl _].
Qed.

Lemma strip_by_length (l : list ascii) : length (Py.strip_by p l) <= length l.
Proof.
  destruct (strip_by_infix l) as (pre & suf & H). rewrite H at 2.
  rewrite !length_app. lia.
Qed.

End Strip.

(** ** Tags *)

Lemma normalize_tag_chars (t : string) :
  Py.chars (Llm.normalize_tag t) = normalized_chars t.
Proof.
  unfold Llm.normalize_tag, normalized_chars, Py.strip_char, Py.prefix_slice,
    Py.strip, Py.lower.
  rewrite chars_str, sub_chr, !chars_str. f_equal.
  induction (take 25 _) as [|c l IH]; [reflexivity|].
  cbn [flat_map map]. rewrite IH. now destruct (Llm.tag_char c).
Qed.

Lemma collect_tags_from (l : list string) : forall acc,
  foldl (fun tags t =>
           let tag := Llm.normalize_tag t in
           if Llm.keep_tag tag then (tags ++ [tag])%list else tags) acc l
  = (acc ++ valid_tags l)%list.
Proof.
  unfold valid_tags. induction l as [|t l IH]; intros acc.
  - cbn [foldl map List.filter]. now rewrite app_nil_r.
  - cbn [foldl map List.filter]. cbv zeta. rewrite IH.
    destruct (Llm.keep_tag (Llm.normalize_tag t)); [|reflexivity].
    now rewrite <- app_assoc.
Qed.

Lemma kept_tag_well_formed (t : string) :
  Llm.keep_tag (Llm.normalize_tag t) = true -> well_formed_tag (Llm.normalize_tag t).
Proof.
  unfold Llm.keep_tag. intros H.
  apply andb_prop in H as [H Hlen]. apply andb_prop in H as [_ Hban].
  apply Nat.leb_le in Hlen.
  unfold well_formed_tag. rewrite <- (chars_length (Llm.normalize_tag t)) in *.
  rewrite normalize_tag_chars in *. unfold normalized_chars in *.
  split.
  { apply strip_by_Forall. apply Forall_forall. intros c Hc.
    apply list_elem_of_In, in_map_iff in Hc as (x & <- & _).
    destruct (Llm.tag_char x) eqn:E; [exact E|reflexivity]. }
  split.
  { split; [exact Hlen|].
    etransitivity; [apply strip_by_length|].
    rewrite length_map, length_take. lia. }
  split.
  { intros Hh. apply strip_by_head in Hh. now rewrite Ascii.eqb_refl in Hh. }
  split.
  { intros Hl. apply strip_by_last in Hl. now rewrite Ascii.eqb_refl in Hl. }
  unfold Llm.banned in Hban. apply negb_true_iff, bool_decide_eq_false in Hban.
  exact Hban.
Qed.

Lemma valid_tags_well_formed (raw : list string) :
  Forall well_formed_tag (valid_tags raw).
Proof.
  unfold valid_tags. apply Forall_forall. intros tag Htag.
  apply list_elem_of_In, filter_In in Htag as [Hin Hkeep].
  apply in_map_iff in Hin as (t & <- & _). now apply kept_tag_well_formed.
Qed.

(** C4, as the code has it: of the tags of a response only the first five
    are looked at.  Each of them is normalised (lower case, blanks trimmed,
    cut to 25 characters, every character outside [a-z0-9-] replaced by a
    hyphen, leading and trailing hyphens trimmed); the empty, the banned
    and the shorter than two characters are dropped; when the name and the
    description pass their own checks, the result is [None] exactly when
    fewer than two tags are left, and otherwise carries the first four of
    them at most, at least two, all well formed. *)
Theorem tags_come_from_the_first_five :
  (forall t, Py.chars (Llm.normalize_tag t) = normalized_chars t) /\
  (forall raw, Llm.collect_tags raw = valid_tags (take 5 raw)) /\
  (forall raw, Forall well_formed_tag (valid_tags raw)) /\
  (forall data,
     Llm.validate data
     = if name_and_description_pass data
       then if length (valid_tags (take 5 (Llm.data_tags data))) <? 2
            then None
            else Some {| Llm.name :=
                           Py.prefix_slice 60 (Llm.clean_name (Llm.data_name data));
                         Llm.description :=
                           Py.prefix_slice 200
                             (Llm.clean_description (Llm.data_description data));
                         Llm.tags := take 4 (valid_tags (take 5 (Llm.data_tags data))) |}
       else None) /\
  (forall data,
     match Llm.validate data with
     | Some m =>
         2 <= length (Llm.tags m) <= 4 /\ Forall well_formed_tag (Llm.tags m)
     | None => True
     end).
Proof.
  assert (Hcollect : forall raw, Llm.collect_tags raw = valid_tags (take 5 raw)).
  { intros raw. unfold Llm.collect_tags. now rewrite collect_tags_from. }
  assert (Hval : forall data,
     Llm.validate data
     = if name_and_description_pass data
       then if length (valid_tags (take 5 (Llm.data_tags data))) <? 2
            then None
            else Some {| Llm.name :=
                           Py.prefix_slice 60 (Llm.clean_name (Llm.data_name data));
                         Llm.description :=
                           Py.prefix_slice 200
                             (Llm.clean_description (Llm.data_description data));
                         Llm.tags := take 4 (valid_tags (take 5 (Llm.data_tags data))) |}
       else None).
  { intros data. unfold Llm.validate, name_and_description_pass. cbv zeta.
    rewrite Hcollect.
    rewrite !Nat.leb_antisym.
    destruct (String.length (Llm.clean_name _) <? 3); [reflexivity|].
    destruct (String.length (Llm.clean_description _) <? 20); reflexivity. }
  split; [exact normalize_tag_chars|].
  split; [exact Hcollect|].
  split; [exact valid_tags_well_formed|].
  split; [exact Hval|].
  intros data. rewrite Hval.
  destruct (name_and_description_pass data); [|exact I].
  destruct (length (valid_tags _) <? 2) eqn:E; [exact I|].
  apply Nat.ltb_ge in E. cbn [Llm.tags]. split.
  - rewrite length_take. lia.
  - apply Forall_take, valid_tags_well_formed.
Qed.

(** C4 as the specification states it fails: the response has two valid
    tags, [git] and [github], behind five generic ones; its name and its
    description pass; yet the result is [None], because the two valid tags
    are not among the first five. *)
Lemma valid_tags_beyond_the_fifth_are_lost :
  valid_tags (Llm.data_tags Sample.seven_tags) = ["git"; "github"] /\
  name_and_description_pass Sample.seven_tags = true /\
  Llm.validate Sample.seven_tags = None.
Proof. vm_compute. repeat split; reflexivity. Qed.

(** ** The retry policy of the inference call *)

Section Retry.
Variable svc : Llm.Service.
Variable prompt : string.
Variable fallback_model : option string.
Variable is_reasoning_model : bool.

Lemma backoff_capped (attempt : nat) (j : Q) :
  (Llm.backoff attempt j <= Llm.MAX_RETRY_DELAY)%Q.
Proof. unfold Llm.backoff. apply Q.le_min_r. Qed.

Lemma base_delay_capped : (Llm.BASE_RETRY_DELAY <= Llm.MAX_RETRY_DELAY)%Q.
Proof. unfold Llm.BASE_RETRY_DELAY, Llm.MAX_RETRY_DELAY, Qle. cbn. lia. Qed.

Ltac attempt_leaf :=
  do 5 eexists; split; [reflexivity|];
  split; [cbn [Llm.events]; rewrite <- ?app_assoc; reflexivity|].

(** What one pass through the loop body does: it never raises, sends one
    request to the current model, pauses at most once, and changes the
    model only to the fallback, when that is configured and differs. *)
Lemma attempt_body_spec (attempt : nat) (model : string) (w : Llm.World) :
  attempt < Llm.MAX_RETRIES ->
  exists c model' w' max_tokens pauses,
    Llm.attempt_body svc prompt fallback_model is_reasoning_model attempt model w
    = (inr (c, model'), w')
    /\ Llm.events w'
       = (Llm.events w ++ Llm.Create model Llm.StartWithBrace max_tokens :: pauses)%list
    /\ (pauses = [] \/ exists d, pauses = [Llm.Sleep d] /\ pause_ok (Llm.Sleep d))
    /\ (model' = model \/
        (fallback_model = Some model' /\ model' <> "" /\ model' <> model))
    /\ match c with Llm.Return r => answered svc prompt r | _ => True end.
Proof.
  intros Hattempt.
  cbv beta iota zeta delta
    [Llm.attempt_body Llm.try_except Llm.bind Llm.chat_create Llm.dispatch
     Llm.isinstance Llm.ret Llm.sleep Llm.random_uniform Llm.log Llm.raise].
  destruct (Llm.respond svc (Llm.requests w) model prompt) as [e|content] eqn:Er.
  - destruct e as [m|m|m|m]; reduce_matches.
    + attempt_leaf. split; [|split; [now left|exact I]].
      right. eexists. split; [reflexivity|].
      split; [|apply backoff_capped]. right. eauto.
    + destruct (attempt <? Llm.MAX_RETRIES - 1); reduce_matches; attempt_leaf.
      * split; [|split; [now left|exact I]].
        right. eexists. split; [reflexivity|].
        split; [now left|apply base_delay_capped].
      * split; [now left|]. split; [now left|exact I].
    + destruct (attempt <? Llm.MAX_RETRIES - 1); reduce_matches; attempt_leaf.
      * split; [|split; [now left|exact I]].
        right. eexists. split; [reflexivity|].
        split; [now left|apply base_delay_capped].
      * split; [now left|]. split; [now left|exact I].
    + destruct (Llm.is_connection_error (Llm.Exception m)); reduce_matches.
      * destruct fallback_model as [fb|]; reduce_matches.
        -- destruct (Llm.truthy (Some fb) && negb (String.eqb model fb)) eqn:E;
             reduce_matches; attempt_leaf.
           ++ apply andb_prop in E as [Et En].
              split; [now left|]. split; [|exact I]. right. split; [reflexivity|].
              unfold Llm.truthy in Et. apply negb_true_iff in Et, En.
              apply String.eqb_neq in Et, En. split; congruence.
           ++ split; [now left|]. split; [now left|exact I].
        -- attempt_leaf. split; [now left|]. split; [now left|exact I].
      * attempt_leaf. split; [now left|]. split; [now left|exact I].
  - destruct content as [c|]; reduce_matches.
    + destruct (Llm.truthy (Some c)); reduce_matches; attempt_leaf.
      * split; [now left|]. split; [now left|]. right. eauto.
      * split; [now left|]. split; [now left|]. now left.
    + attempt_leaf. split; [now left|]. split; [now left|]. now left.
Qed.

Lemma attempts_made_app (a b : list Llm.event) :
  attempts_made (a ++ b) = attempts_made a + attempts_made b.
Proof. unfold attempts_made. now rewrite List.filter_app, length_app. Qed.

Lemma fallback_shots_app (a b : list Llm.event) :
  fallback_shots (a ++ b) = fallback_shots a + fallback_shots b.
Proof. unfold fallback_shots. now rewrite List.filter_app, length_app. Qed.

(** The retry loop over a list of attempt numbers. *)
Lemma for_attempts_spec (attempts : list nat) : forall model w,
  Forall (fun a => a < Llm.MAX_RETRIES) attempts ->
  exists r model' w' evs,
    Llm.for_attempts svc prompt fallback_model is_reasoning_model attempts model w
    = (inr (r, model'), w')
    /\ Llm.events w' = (Llm.events w ++ evs)%list
    /\ attempts_made evs <= length attempts
    /\ fallback_shots evs = 0
    /\ Forall pause_ok evs
    /\ ((model' = model /\ Forall (sent_to model) evs) \/
        (fallback_model = Some model' /\ model' <> "" /\ model' <> model))
    /\ match r with Some v => answered svc prompt v | None => True end.
Proof.
  induction attempts as [|a rest IH]; intros model w Hall.
  - exists None, model, w, []. cbn [Llm.for_attempts]. unfold Llm.ret.
    rewrite app_nil_r. repeat split; [cbn; lia|constructor|left; split; [|constructor]; done].
  - apply Forall_cons in Hall as [Ha Hrest].
    destruct (attempt_body_spec a model w Ha)
      as (c & model1 & w1 & mt & pauses & Hbody & Hev & Hp & Hm & Hc).
    assert (Hpauses : attempts_made pauses = 0 /\ fallback_shots pauses = 0 /\
                      Forall pause_ok pauses /\ forall m, Forall (sent_to m) pauses).
    { destruct Hp as [->|(d & -> & Hd)].
      - repeat split; try reflexivity; constructor.
      - split; [reflexivity|]. split; [reflexivity|].
        split; [constructor; [exact Hd|constructor]|].
        intros m. constructor; [exact I|constructor]. }
    destruct Hpauses as (Hp1 & Hp2 & Hp3 & Hp4).
    assert (Hhead : attempts_made (Llm.Create model Llm.StartWithBrace mt :: pauses) = 1
                    /\ fallback_shots (Llm.Create model Llm.StartWithBrace mt :: pauses) = 0
                    /\ Forall pause_ok (Llm.Create model Llm.StartWithBrace mt :: pauses)
                    /\ Forall (sent_to model)
                         (Llm.Create model Llm.StartWithBrace mt :: pauses)).
    { change (Llm.Create model Llm.StartWithBrace mt :: pauses)
        with ([Llm.Create model Llm.StartWithBrace mt] ++ pauses)%list.
      rewrite attempts_made_app, fallback_shots_app, Hp1, Hp2.
      repeat split; try reflexivity.
      - apply Forall_app. split; [constructor; [exact I|constructor]|exact Hp3].
      - apply Forall_app. split; [constructor; [reflexivity|constructor]|apply Hp4]. }
    destruct Hhead as (Hh1 & Hh2 & Hh3 & Hh4).
    cbn [Llm.for_attempts]. unfold Llm.bind at 1. rewrite Hbody.
    destruct c as [v| |]; reduce_matches.
    + exists (Some v), model1, w1, (Llm.Create model Llm.StartWithBrace mt :: pauses).
      unfold Llm.ret. split; [reflexivity|]. split; [exact Hev|].
      split; [rewrite Hh1; cbn [length]; lia|]. split; [exact Hh2|].
      split; [exact Hh3|]. split; [|exact Hc].
      destruct Hm as [->|Hm]; [left; now split|right; exact Hm].
    + destruct (IH model1 w1 Hrest)
        as (r & model' & w' & evs & Hloop & Hev' & Hn & Hf & Hpo & Hm' & Hr).
      exists r, model', w', (Llm.Create model Llm.StartWithBrace mt :: pauses ++ evs)%list.
      split; [exact Hloop|].
      split; [rewrite Hev', Hev, <- app_assoc; reflexivity|].
      change (Llm.Create model Llm.StartWithBrace mt :: pauses ++ evs)%list
        with ((Llm.Create model Llm.StartWithBrace mt :: pauses) ++ evs)%list.
      rewrite attempts_made_app, fallback_shots_app, Hh1, Hh2, Hf.
      split; [cbn [length]; lia|]. split; [reflexivity|].
      split; [apply Forall_app; now split|]. split; [|exact Hr].
      destruct Hm as [->|(Hfb & Hne & Hdiff)].
      * destruct Hm' as [[-> Hsent]|Hm']; [left; split; [reflexivity|]|right; exact Hm'].
        apply Forall_app. now split.
      * right. destruct Hm' as [[-> _]|(Hfb' & _ & Hdiff')]; [now repeat split|].
        congruence.
    + exists None, model1, w1, (Llm.Create model Llm.StartWithBrace mt :: pauses).
      unfold Llm.ret. split; [reflexivity|]. split; [exact Hev|].
      split; [rewrite Hh1; cbn [length]; lia|]. split; [exact Hh2|].
      split; [exact Hh3|]. split; [|exact I].
      destruct Hm as [->|Hm]; [left; now split|right; exact Hm].
Qed.

(** The single call to the fallback: one request, no exception let out. *)
Lemma fallback_shot_spec (fb : string) (w : Llm.World) :
  exists v w',
    Llm.fallback_shot svc prompt fb w = (inr v, w')
    /\ Llm.events w'
       = (Llm.events w ++ [Llm.Create fb Llm.OnlyValidJson 600])%list
    /\ answered svc prompt v.
Proof.
  cbv beta iota zeta delta
    [Llm.fallback_shot Llm.try_except Llm.bind Llm.chat_create Llm.dispatch
     Llm.isinstance Llm.ret Llm.log Llm.raise].
  destruct (Llm.respond svc (Llm.requests w) fb prompt) as [e|content] eqn:Er.
  - destruct e; reduce_matches; do 2 eexists;
      (split; [reflexivity|]; split; [reflexivity|now left]).
  - destruct content as [c|]; reduce_matches.
    + destruct (Llm.truthy (Some c)); reduce_matches; do 2 eexists;
        (split; [reflexivity|]; split; [reflexivity|]).
      * right. eauto.
      * now left.
    + do 2 eexists. split; [reflexivity|]. split; [reflexivity|now left].
Qed.

End Retry.

Lemma no_shot_last_resort (backend : Llm.Backend) (all evs : list Llm.event) :
  fallback_shots evs = 0 -> Forall (last_resort backend all) evs.
Proof.
  unfold fallback_shots. induction evs as [|ev evs IH]; intros H; [constructor|].
  cbn [List.filter] in H. destruct (is_fallback_shot ev) eqn:E; [discriminate|].
  constructor; [|now apply IH].
  destruct ev as [m [] mt|d]; try exact I. discriminate.
Qed.

Lemma call_llm_spec (svc : Llm.Service) (prompt : string) (backend : Llm.Backend) :
  exists v w,
    Llm.call_llm svc prompt backend Llm.fresh = (inr v, w)
    /\ answered svc prompt v
    /\ attempts_made (Llm.events w) <= Llm.MAX_RETRIES
    /\ fallback_shots (Llm.events w) <= 1
    /\ Forall pause_ok (Llm.events w)
    /\ Forall (last_resort backend (Llm.events w)) (Llm.events w).
Proof.
  unfold Llm.call_llm. cbv zeta.
  set (reasoning := Py.contains "minimax" (Llm.model backend)
                    || Py.contains "m2.1" (Llm.model backend)).
  assert (Hthree : Forall (fun a => a < Llm.MAX_RETRIES) (seq 0 Llm.MAX_RETRIES)).
  { unfold Llm.MAX_RETRIES. cbn [seq]. repeat constructor. }
  destruct (for_attempts_spec svc prompt (Llm.fallback backend) reasoning
              (seq 0 Llm.MAX_RETRIES) (Llm.model backend) Llm.fresh Hthree)
    as (r & current & w1 & evs & Hloop & Hev & Hn & Hf & Hp & Hm & Hr).
  change (Llm.events Llm.fresh) with (@nil Llm.event) in Hev. cbn [app] in Hev.
  rewrite length_seq in Hn.
  unfold Llm.bind at 1. rewrite Hloop.
  destruct r as [v|]; reduce_matches.
  { exists v, w1. unfold Llm.ret. rewrite Hev.
    split; [reflexivity|]. split; [exact Hr|]. split; [exact Hn|].
    split; [lia|]. split; [exact Hp|]. now apply no_shot_last_resort. }
  assert (Hnone : exists v w,
             @Llm.ret (option Llm.CleanedMetadata) None w1 = (inr v, w)
             /\ answered svc prompt v
             /\ attempts_made (Llm.events w) <= Llm.MAX_RETRIES
             /\ fallback_shots (Llm.events w) <= 1
             /\ Forall pause_ok (Llm.events w)
             /\ Forall (last_resort backend (Llm.events w)) (Llm.events w)).
  { exists None, w1. unfold Llm.ret. rewrite Hev.
    split; [reflexivity|]. split; [now left|]. split; [exact Hn|].
    split; [lia|]. split; [exact Hp|]. now apply no_shot_last_resort. }
  destruct (Llm.fallback backend) as [fb|] eqn:Efb; [|exact Hnone].
  destruct (Llm.truthy (Some fb) && negb (String.eqb current fb)) eqn:E;
    [|exact Hnone].
  clear Hnone. apply andb_prop in E as [Et En].
  unfold Llm.truthy in Et. apply negb_true_iff in Et, En.
  apply String.eqb_neq in Et, En.
  destruct Hm as [[-> Hsent]|(Hfb' & _)]; [|congruence].
  destruct (fallback_shot_spec svc prompt fb w1) as (v & w2 & Hshot & Hev2 & Hv).
  exists v, w2. rewrite Hev2, Hev.
  split; [exact Hshot|]. split; [exact Hv|].
  rewrite attempts_made_app, fallback_shots_app, Hf.
  split; [cbn; lia|]. split; [cbn; lia|].
  assert (Hsent' : Forall (sent_to (Llm.model backend))
                     (evs ++ [Llm.Create fb Llm.OnlyValidJson 600])).
  { apply Forall_app. split; [exact Hsent|]. constructor; [exact I|constructor]. }
  split.
  { apply Forall_app. split; [exact Hp|]. constructor; [exact I|constructor]. }
  apply Forall_app. split; [now apply no_shot_last_resort|].
  constructor; [|constructor].
  split; [|split; [reflexivity|exact Hsent']].
  unfold distinct_fallback. rewrite Efb. repeat split; congruence.
Qed.

(** *** The call follows the policy *)

Section Policy.
Variable svc : Llm.Service.
Variable prompt : string.
Variable fallback_model : option string.
Variable is_reasoning_model : bool.

(** One pass through the loop body, by the answer of the service. *)
Lemma attempt_body_cases (attempt : nat) (model : string) (w : Llm.World) :
  exists c model' w',
    Llm.attempt_body svc prompt fallback_model is_reasoning_model attempt model w
    = (inr (c, model'), w') /\
    Llm.requests w' = S (Llm.requests w) /\
    match Llm.respond svc (Llm.requests w) model prompt with
    | inr content =>
        c = Llm.Return (read svc is_reasoning_model content) /\ model' = model /\
        Llm.draws w' = Llm.draws w /\
        Llm.events w'
        = (Llm.events w ++ [Llm.Create model Llm.StartWithBrace (tokens is_reasoning_model)])%list
    | inl e =>
        if rate_limited e
        then c = Llm.Continue /\ model' = model /\
             Llm.draws w' = S (Llm.draws w) /\
             Llm.events w'
             = (Llm.events w ++
                [Llm.Create model Llm.StartWithBrace (tokens is_reasoning_model);
                 Llm.Sleep (Llm.backoff attempt (Llm.uniform svc (Llm.draws w)))])%list
        else if transient e
        then c = Llm.Continue /\ model' = model /\
             Llm.draws w' = Llm.draws w /\
             Llm.events w'
             = (Llm.events w ++
                Llm.Create model Llm.StartWithBrace (tokens is_reasoning_model)
                :: (if attempt <? Llm.MAX_RETRIES - 1
                    then [Llm.Sleep Llm.BASE_RETRY_DELAY] else []))%list
        else
          Llm.draws w' = Llm.draws w /\
          Llm.events w'
          = (Llm.events w ++
             [Llm.Create model Llm.StartWithBrace (tokens is_reasoning_model)])%list /\
          match (if Llm.is_connection_error e
                 then usable_fallback fallback_model model else None) with
          | Some fb => c = Llm.Continue /\ model' = fb
          | None => c = Llm.Break /\ model' = model
          end
    end.
Proof.
  cbv beta iota zeta delta
    [Llm.attempt_body Llm.try_except Llm.bind Llm.chat_create Llm.dispatch
     Llm.isinstance Llm.ret Llm.sleep Llm.random_uniform Llm.log Llm.raise].
  destruct (Llm.respond svc (Llm.requests w) model prompt) as [e|content] eqn:Er.
  - destruct e as [m|m|m|m]; reduce_matches; cbn [rate_limited transient].
    + do 3 eexists. split; [reflexivity|]. split; [reflexivity|].
      cbn [Llm.events Llm.draws]. rewrite <- app_assoc. repeat split.
    + destruct (attempt <? Llm.MAX_RETRIES - 1); reduce_matches;
        do 3 eexists; (split; [reflexivity|]); (split; [reflexivity|]);
        cbn [Llm.events Llm.draws]; rewrite <- ?app_assoc; repeat split.
    + destruct (attempt <? Llm.MAX_RETRIES - 1); reduce_matches;
        do 3 eexists; (split; [reflexivity|]); (split; [reflexivity|]);
        cbn [Llm.events Llm.draws]; rewrite <- ?app_assoc; repeat split.
    + unfold usable_fallback.
      destruct (Llm.is_connection_error (Llm.Exception m)); reduce_matches.
      * destruct fallback_model as [fb|]; reduce_matches.
        -- destruct (Llm.truthy (Some fb) && negb (String.eqb model fb));
             reduce_matches; do 3 eexists; (split; [reflexivity|]);
             (split; [reflexivity|]); cbn [Llm.events Llm.draws]; repeat split.
        -- do 3 eexists. split; [reflexivity|]. split; [reflexivity|].
           cbn [Llm.events Llm.draws]. repeat split.
      * do 3 eexists. split; [reflexivity|]. split; [reflexivity|].
        cbn [Llm.events Llm.draws]. repeat split.
  - unfold read. destruct content as [c|]; reduce_matches.
    + destruct (Llm.truthy (Some c)); reduce_matches; do 3 eexists;
        (split; [reflexivity|]); (split; [reflexivity|]);
        cbn [Llm.events Llm.draws]; repeat split.
    + do 3 eexists. split; [reflexivity|]. split; [reflexivity|].
      cbn [Llm.events Llm.draws]. repeat split.
Qed.

(** The loop from the attempt [a] on, when the requests made so far are
    [a]: either it answers, as the policy has it, or it ends without an
    answer, and the policy goes on with what follows the loop. *)
Lemma for_attempts_policy (n : nat) : forall a model w,
  a + n = Llm.MAX_RETRIES -> Llm.requests w = a ->
  exists r model' w' evs,
    Llm.for_attempts svc prompt fallback_model is_reasoning_model (seq a n) model w
    = (inr (r, model'), w') /\
    Llm.events w' = (Llm.events w ++ evs)%list /\
    match r with
    | Some v =>
        retry_policy svc prompt fallback_model is_reasoning_model
          a model (Llm.draws w) evs v
    | None =>
        forall evs2 v,
          after_the_loop svc prompt fallback_model (Llm.requests w') model' evs2 v ->
          retry_policy svc prompt fallback_model is_reasoning_model
            a model (Llm.draws w) (evs ++ evs2)%list v
    end.
Proof.
  induction n as [|n IH]; intros a model w Ha Hw.
  - exists None, model, w, []. cbn [seq Llm.for_attempts]. unfold Llm.ret.
    rewrite app_nil_r. split; [reflexivity|]. split; [reflexivity|].
    intros evs2 v H. cbn [app]. rewrite Hw in H.
    assert (Ea : a = Llm.MAX_RETRIES) by lia. rewrite Ea in H |- *.
    now apply policy_exhausted.
  - assert (Hlt : a < Llm.MAX_RETRIES) by lia.
    destruct (attempt_body_cases a model w) as (c & model1 & w1 & Hbody & Hreq & Hcase).
    cbn [seq Llm.for_attempts]. unfold Llm.bind at 1. rewrite Hbody.
    rewrite Hw in Hcase.
    destruct (Llm.respond svc a model prompt) as [e|content] eqn:Er.
    + destruct (rate_limited e) eqn:Erl; [|destruct (transient e) eqn:Etr].
      * destruct Hcase as (-> & -> & Hd & Hev). reduce_matches.
        destruct (IH (S a) model w1) as (r & model' & w' & evs & Hloop & Hev' & Hr);
          [lia|lia|].
        exists r, model', w',
          (Llm.Create model Llm.StartWithBrace (tokens is_reasoning_model)
           :: Llm.Sleep (Llm.backoff a (Llm.uniform svc (Llm.draws w))) :: evs).
        split; [exact Hloop|].
        split; [rewrite Hev', Hev, <- app_assoc; reflexivity|].
        rewrite Hd in Hr. destruct r as [v|].
        -- now apply (policy_rate_limited _ _ _ _ a model (Llm.draws w) e).
        -- intros evs2 v H. cbn [app].
           apply (policy_rate_limited _ _ _ _ a model (Llm.draws w) e); auto.
      * destruct Hcase as (-> & -> & Hd & Hev). reduce_matches.
        destruct (IH (S a) model w1) as (r & model' & w' & evs & Hloop & Hev' & Hr);
          [lia|lia|].
        exists r, model', w',
          (Llm.Create model Llm.StartWithBrace (tokens is_reasoning_model)
           :: (if a <? Llm.MAX_RETRIES - 1 then [Llm.Sleep Llm.BASE_RETRY_DELAY] else [])
           ++ evs)%list.
        split; [exact Hloop|].
        split; [rewrite Hev', Hev, <- app_assoc; reflexivity|].
        rewrite Hd in Hr. destruct r as [v|].
        -- now apply (policy_transient _ _ _ _ a model (Llm.draws w) e).
        -- intros evs2 v H. cbn [app]. rewrite <- app_assoc.
           apply (policy_transient _ _ _ _ a model (Llm.draws w) e); auto.
      * assert (Hun : unexpected e = true) by (destruct e; done).
        destruct Hcase as (Hd & Hev & Hcase).
        destruct (Llm.is_connection_error e) eqn:Ec;
          [destruct (usable_fallback fallback_model model) as [fb|] eqn:Efb|].
        -- destruct Hcase as (-> & ->). reduce_matches.
           destruct (IH (S a) fb w1) as (r & model' & w' & evs & Hloop & Hev' & Hr);
             [lia|lia|].
           exists r, model', w',
             (Llm.Create model Llm.StartWithBrace (tokens is_reasoning_model) :: evs).
           split; [exact Hloop|].
           split; [rewrite Hev', Hev, <- app_assoc; reflexivity|].
           rewrite Hd in Hr. destruct r as [v|].
           ++ now apply (policy_switched _ _ _ _ a model (Llm.draws w) e fb).
           ++ intros evs2 v H. cbn [app].
              apply (policy_switched _ _ _ _ a model (Llm.draws w) e fb); auto.
        -- destruct Hcase as (-> & ->). reduce_matches.
           exists None, model, w1,
             [Llm.Create model Llm.StartWithBrace (tokens is_reasoning_model)].
           unfold Llm.ret. split; [reflexivity|]. split; [exact Hev|].
           intros evs2 v H. cbn [app]. rewrite Hreq, Hw in H.
           apply (policy_gave_up _ _ _ _ a model (Llm.draws w) e); auto.
        -- destruct Hcase as (-> & ->). reduce_matches.
           exists None, model, w1,
             [Llm.Create model Llm.StartWithBrace (tokens is_reasoning_model)].
           unfold Llm.ret. split; [reflexivity|]. split; [exact Hev|].
           intros evs2 v H. cbn [app]. rewrite Hreq, Hw in H.
           apply (policy_gave_up _ _ _ _ a model (Llm.draws w) e); auto.
    + destruct Hcase as (-> & -> & Hd & Hev). reduce_matches.
      exists (Some (read svc is_reasoning_model content)), model, w1,
        [Llm.Create model Llm.StartWithBrace (tokens is_reasoning_model)].
      unfold Llm.ret. split; [reflexivity|]. split; [exact Hev|].
      now apply policy_answered.
Qed.

(** The single call to the fallback, by the answer of the service. *)
Lemma fallback_shot_cases (fb : string) (w : Llm.World) :
  exists w',
    Llm.fallback_shot svc prompt fb w
    = (inr match Llm.respond svc (Llm.requests w) fb prompt with
           | inr content => read svc false content
           | inl _ => None
           end, w') /\
    Llm.events w' = (Llm.events w ++ [Llm.Create fb Llm.OnlyValidJson 600])%list.
Proof.
  cbv beta iota zeta delta
    [Llm.fallback_shot Llm.try_except Llm.bind Llm.chat_create Llm.dispatch
     Llm.isinstance Llm.ret Llm.log Llm.raise].
  destruct (Llm.respond svc (Llm.requests w) fb prompt) as [e|content] eqn:Er.
  - destruct e; reduce_matches; eexists; split; reflexivity.
  - unfold read. destruct content as [c|]; reduce_matches.
    + destruct (Llm.truthy (Some c)); reduce_matches; eexists; split; reflexivity.
    + eexists; split; reflexivity.
Qed.

End Policy.

Lemma call_llm_follows_policy (svc : Llm.Service) (prompt : string)
    (backend : Llm.Backend) :
  exists v w,
    Llm.call_llm svc prompt backend Llm.fresh = (inr v, w) /\
    retry_policy svc prompt (Llm.fallback backend) (reasoning_model backend)
      0 (Llm.model backend) 0 (Llm.events w) v.
Proof.
  unfold Llm.call_llm. cbv zeta. fold (reasoning_model backend).
  destruct (for_attempts_policy svc prompt (Llm.fallback backend)
              (reasoning_model backend) Llm.MAX_RETRIES 0 (Llm.model backend) Llm.fresh)
    as (r & current & w1 & evs & Hloop & Hev & Hr); [reflexivity|reflexivity|].
  change (Llm.events Llm.fresh) with (@nil Llm.event) in Hev. cbn [app] in Hev.
  change (Llm.draws Llm.fresh) with 0 in Hr.
  unfold Llm.bind at 1. rewrite Hloop.
  destruct r as [v|]; reduce_matches.
  { exists v, w1. unfold Llm.ret. rewrite Hev. now split. }
  assert (Hnone : usable_fallback (Llm.fallback backend) current = None ->
            exists v w,
              @Llm.ret (option Llm.CleanedMetadata) None w1 = (inr v, w) /\
              retry_policy svc prompt (Llm.fallback backend) (reasoning_model backend)
                0 (Llm.model backend) 0 (Llm.events w) v).
  { intros Hu. exists None, w1. unfold Llm.ret. split; [reflexivity|].
    rewrite Hev, <- (app_nil_r evs). apply Hr. unfold after_the_loop. now rewrite Hu. }
  unfold usable_fallback in Hnone.
  destruct (Llm.fallback backend) as [fb|] eqn:Efb; [|now apply Hnone].
  destruct (Llm.truthy (Some fb) && negb (String.eqb current fb)) eqn:E;
    [|now apply Hnone].
  clear Hnone.
  destruct (fallback_shot_cases svc prompt fb w1) as (w2 & Hshot & Hev2).
  eexists _, w2. split; [exact Hshot|]. rewrite Hev2, Hev. apply Hr.
  unfold after_the_loop, usable_fallback. now rewrite E.
Qed.

(** Under the policy, a call that never gets a response answers nothing. *)
Lemma policy_without_response (svc : Llm.Service) (prompt : string)
    (fallback : option string) (reasoning : bool) a m d evs v :
  retry_policy svc prompt fallback reasoning a m d evs v ->
  (forall n m', exists e, Llm.respond svc n m' prompt = inl e) ->
  v = None.
Proof.
  intros H Hfail.
  assert (Hafter : forall n current evs v,
             after_the_loop svc prompt fallback n current evs v -> v = None).
  { intros n current evs' v' Ha. unfold after_the_loop in Ha.
    destruct (usable_fallback fallback current) as [fb|]; destruct Ha as [_ ->];
      [|reflexivity].
    destruct (Hfail n fb) as [e ->]. reflexivity. }
  induction H as [a m d content Ha Hr|a m d e evs v Ha Hr He _ IH|
                  a m d e evs v Ha Hr He _ IH|a m d e fb evs v Ha Hr He Hc Hu _ IH|
                  a m d e evs v Ha Hr He Hc Hal|m d evs v Hal]; eauto.
  destruct (Hfail a m) as [e He]. congruence.
Qed.

(** Under the policy, on a service that only answers with rate limits,
    timeouts and API errors, the three attempts all go to the same model,
    and the fallback is then taken once, when there is one to turn to. *)
Lemma policy_on_retryable_errors (svc : Llm.Service) (prompt : string)
    (fallback : option string) (reasoning : bool) a m d evs v :
  retry_policy svc prompt fallback reasoning a m d evs v ->
  (forall n m', exists e, Llm.respond svc n m' prompt = inl e /\ unexpected e = false) ->
  attempts_made evs = Llm.MAX_RETRIES - a /\
  Forall (sent_to m) evs /\
  match usable_fallback fallback m with
  | Some fb =>
      last evs = Some (Llm.Create fb Llm.OnlyValidJson 600) /\ fallback_shots evs = 1
  | None => fallback_shots evs = 0
  end.
Proof.
  intros H Hfail.
  induction H as [a m d content Ha Hr|a m d e evs v Ha Hr He _ IH|
                  a m d e evs v Ha Hr He _ IH|a m d e fb evs v Ha Hr He Hc Hu _ IH|
                  a m d e evs v Ha Hr He Hc Hal|m d evs v Hal].
  - destruct (Hfail a m) as (e & He & _). congruence.
  - destruct IH as (Hn & Hs & Hf).
    change (Llm.Create m Llm.StartWithBrace (tokens reasoning)
            :: Llm.Sleep (Llm.backoff a (Llm.uniform svc d)) :: evs)
      with ([Llm.Create m Llm.StartWithBrace (tokens reasoning);
             Llm.Sleep (Llm.backoff a (Llm.uniform svc d))] ++ evs)%list.
    rewrite attempts_made_app, fallback_shots_app, Hn.
    split; [change (attempts_made [_; _]) with 1; lia|].
    split; [apply Forall_app; split; [repeat constructor|exact Hs]|].
    destruct (usable_fallback fallback m) as [fb|]; [|exact Hf].
    destruct Hf as [Hl Hf]. split; [|exact Hf].
    rewrite last_app, Hl. reflexivity.
  - destruct IH as (Hn & Hs & Hf).
    set (pause := if a <? Llm.MAX_RETRIES - 1
                  then [Llm.Sleep Llm.BASE_RETRY_DELAY] else []).
    assert (Hpause : attempts_made pause = 0 /\ fallback_shots pause = 0 /\
                     Forall (sent_to m) pause).
    { unfold pause. destruct (a <? Llm.MAX_RETRIES - 1); repeat split;
        repeat constructor. }
    destruct Hpause as (Hp1 & Hp2 & Hp3).
    change (Llm.Create m Llm.StartWithBrace (tokens reasoning) :: pause ++ evs)%list
      with ([Llm.Create m Llm.StartWithBrace (tokens reasoning)] ++ pause ++ evs)%list.
    rewrite !attempts_made_app, !fallback_shots_app, Hn, Hp1, Hp2.
    split; [change (attempts_made [_]) with 1; lia|].
    split; [repeat (apply Forall_app; split); [repeat constructor|exact Hp3|exact Hs]|].
    destruct (usable_fallback fallback m) as [fb|]; [|exact Hf].
    destruct Hf as [Hl Hf]. split; [|exact Hf].
    rewrite !last_app, Hl. reflexivity.
  - destruct (Hfail a m) as (e' & He' & Hne). congruence.
  - destruct (Hfail a m) as (e' & He' & Hne). congruence.
  - rewrite Nat.sub_diag. unfold after_the_loop in Hal.
    destruct (usable_fallback fallback m) as [fb|]; destruct Hal as [-> _].
    + repeat split; repeat constructor.
    + repeat split; constructor.
Qed.

(** C5: for every service, prompt and backend, [_call_llm] lets no
    exception out and follows the retry policy.  Its loop makes at most
    [MAX_RETRIES = 3] attempts, the [a]-th being the [a]-th request.  After
    a rate limit it backs off for [min(1.0 * 2^a + jitter, 10)] seconds,
    with a fresh draw of the jitter, and goes on; after a timeout or
    another error of the API it pauses for the fixed delay of 1s when an
    attempt is left, and goes on; a connection error makes the attempts
    that are left go to the fallback, when one is configured and is not
    the current model; any other error ends the loop; a response that
    arrived is the answer.  When the loop ends without an answer, one
    more request goes out, to the fallback, if one is configured and is
    not the current model, and its answer is the result; otherwise the
    result is [None].  So a call that never gets a response answers
    [None], and on a service that only answers with rate limits, timeouts
    and API errors the three attempts go to the backend's model and the
    fallback is then taken once.  No pause exceeds 10s. *)
Theorem call_llm_retry_policy :
  Llm.MAX_RETRIES = 3 /\
  (forall attempt j,
     Llm.backoff attempt j = Qmin (1 * inject_Z (2 ^ Z.of_nat attempt) + j) 10 /\
     (Llm.backoff attempt j <= 10)%Q) /\
  (forall svc prompt backend,
     exists v w,
       Llm.call_llm svc prompt backend Llm.fresh = (inr v, w)
       /\ answered svc prompt v
       /\ attempts_made (Llm.events w) <= 3
       /\ fallback_shots (Llm.events w) <= 1
       /\ Forall pause_ok (Llm.events w)
       /\ Forall (last_resort backend (Llm.events w)) (Llm.events w)) /\
  (forall msg jitter decode prompt,
     Llm.call_llm (Sample.failing (Llm.RateLimitError msg) jitter decode) prompt
       Sample.qwen Llm.fresh
     = (inr None,
        {| Llm.requests := 4; Llm.draws := 3;
           Llm.events :=
             [ Llm.Create "qwen/qwen3-32b" Llm.StartWithBrace 600;
               Llm.Sleep (Llm.backoff 0 (jitter 0));
               Llm.Create "qwen/qwen3-32b" Llm.StartWithBrace 600;
               Llm.Sleep (Llm.backoff 1 (jitter 1));
               Llm.Create "qwen/qwen3-32b" Llm.StartWithBrace 600;
               Llm.Sleep (Llm.backoff 2 (jitter 2));
               Llm.Create "meta-llama/llama-3.3-70b-instruct" Llm.OnlyValidJson 600 ] |})) /\
  (forall msg jitter decode prompt,
     Llm.call_llm (Sample.failing (Llm.APITimeoutError msg) jitter decode) prompt
       Sample.qwen Llm.fresh
     = (inr None, fixed_delay_run)) /\
  (forall msg jitter decode prompt,
     Llm.call_llm (Sample.failing (Llm.APIError msg) jitter decode) prompt
       Sample.qwen Llm.fresh
     = (inr None, fixed_delay_run)) /\
  (forall svc prompt backend,
     exists v w,
       Llm.call_llm svc prompt backend Llm.fresh = (inr v, w) /\
       retry_policy svc prompt (Llm.fallback backend) (reasoning_model backend)
         0 (Llm.model backend) 0 (Llm.events w) v) /\
  (forall svc prompt backend r w,
     Llm.call_llm svc prompt backend Llm.fresh = (r, w) ->
     (forall n m, exists e, Llm.respond svc n m prompt = inl e) ->
     r = inr None) /\
  (forall svc prompt backend r w,
     Llm.call_llm svc prompt backend Llm.fresh = (r, w) ->
     (forall n m, exists e, Llm.respond svc n m prompt = inl e /\ unexpected e = false) ->
     attempts_made (Llm.events w) = 3 /\
     Forall (sent_to (Llm.model backend)) (Llm.events w) /\
     match usable_fallback (Llm.fallback backend) (Llm.model backend) with
     | Some fb =>
         last (Llm.events w) = Some (Llm.Create fb Llm.OnlyValidJson 600) /\
         fallback_shots (Llm.events w) = 1
     | None => fallback_shots (Llm.events w) = 0
     end).
Proof.
  split; [reflexivity|].
  split; [intros attempt j; split; [reflexivity|apply backoff_capped]|].
  split; [exact call_llm_spec|].
  split.
  { intros msg jitter decode prompt. vm_compute. reflexivity. }
  split; [intros msg jitter decode prompt; vm_compute; reflexivity|].
  split; [intros msg jitter decode prompt; vm_compute; reflexivity|].
  split; [exact call_llm_follows_policy|].
  split.
  - intros svc prompt backend r w Hcall Hfail.
    destruct (call_llm_follows_policy svc prompt backend) as (v & w' & E & Hpol).
    rewrite E in Hcall. injection Hcall as <- <-. f_equal.
    exact (policy_without_response _ _ _ _ _ _ _ _ _ Hpol Hfail).
  - intros svc prompt backend r w Hcall Hfail.
    destruct (call_llm_follows_policy svc prompt backend) as (v & w' & E & Hpol).
    rewrite E in Hcall. injection Hcall as <- <-.
    exact (policy_on_retryable_errors _ _ _ _ _ _ _ _ _ Hpol Hfail).
Qed.


(** * Further properties of the code *)

(** ** The candidates of a record *)

Section Candidates.

Lemma nonempty_Some (o : option string) (u : string) :
  Spawn.nonempty o = Some u -> u <> "".
Proof.
  destruct o as [s|]; cbn [Spawn.nonempty]; [|discriminate].
  destruct (String.eqb_spec s ""); [discriminate|]. now intros [= <-].
Qed.

Lemma package_configs_shape (pkgs : list Spawn.Package) :
  length (Spawn.package_configs pkgs) <= 1 /\
  Forall (fun c => from_package c = true /\ Spawn.cfg_remoteUrl c = None)
    (Spawn.package_configs pkgs).
Proof.
  induction pkgs as [|pkg pkgs IH]; cbn [Spawn.package_configs].
  - split; [cbn; lia|constructor].
  - cbv zeta.
    destruct (match Spawn.spawn pkg with Some sp => _ | None => false end).
    { split; [cbn; lia|]. repeat constructor. }
    destruct (bool_decide (Spawn.registryType pkg = Some "npm")).
    { split; [cbn; lia|]. repeat constructor. }
    destruct (bool_decide (Spawn.registryType pkg = Some "pypi")).
    { split; [cbn; lia|]. repeat constructor. }
    exact IH.
Qed.

Lemma remote_configs_shape (rs : list Spawn.Remote) :
  Forall (fun c => Spawn.transport c = "http" /\ http_target_allowed c)
    (Spawn.remote_configs rs).
Proof.
  induction rs as [|r rs IH]; cbn [Spawn.remote_configs]; [constructor|].
  destruct (Spawn.nonempty (Spawn.url r)) as [u|] eqn:Eu; [|exact IH].
  destruct (Spawn.denylisted u) eqn:Ed; [exact IH|].
  constructor; [|exact IH]. split; [reflexivity|].
  unfold http_target_allowed, Spawn.http_config. cbn [Spawn.cfg_remoteUrl].
  split; [exact (nonempty_Some _ _ Eu)|exact Ed].
Qed.

Lemma dedupe_app (l1 : list Spawn.Config) : forall seen l2,
  exists seen',
    Spawn.dedupe seen (l1 ++ l2) = (Spawn.dedupe seen l1 ++ Spawn.dedupe seen' l2)%list.
Proof.
  induction l1 as [|c l1 IH]; intros seen l2; [now exists seen|].
  cbn [app Spawn.dedupe]. destruct (bool_decide _); [apply IH|].
  destruct (IH (Spawn.transport c :: seen) l2) as [seen' H].
  exists seen'. cbn [app]. now rewrite H.
Qed.

Lemma dedupe_sublist (l : list Spawn.Config) : forall seen,
  Spawn.dedupe seen l `sublist_of` l.
Proof.
  induction l as [|c l IH]; intros seen; cbn [Spawn.dedupe]; [constructor|].
  destruct (bool_decide _); constructor; apply IH.
Qed.

Lemma dedupe_seen_kind (t : string) (l : list Spawn.Config) : forall seen,
  t ∈ seen -> Forall (fun c => Spawn.transport c = t) l -> Spawn.dedupe seen l = [].
Proof.
  induction l as [|d l IH]; intros seen Hin Hall; [reflexivity|].
  apply Forall_cons in Hall as [Hd Hall]. cbn [Spawn.dedupe].
  rewrite Hd, bool_decide_eq_true_2 by exact Hin. now apply IH.
Qed.

Lemma dedupe_one_kind (t : string) (l : list Spawn.Config) (seen : list string) :
  Forall (fun c => Spawn.transport c = t) l -> length (Spawn.dedupe seen l) <= 1.
Proof.
  destruct l as [|c l]; intros Hall; [cbn; lia|].
  pose proof Hall as Hall'. apply Forall_cons in Hall' as [Hc Hl].
  cbn [Spawn.dedupe].
  destruct (bool_decide_reflect (Spawn.transport c ∈ seen)) as [Hin|Hin].
  - rewrite Hc in Hin. rewrite (dedupe_seen_kind t l seen Hin Hl). cbn. lia.
  - rewrite (dedupe_seen_kind t l (Spawn.transport c :: seen)); [cbn; lia| |exact Hl].
    rewrite Hc. left.
Qed.

Lemma dedupe_length (l : list Spawn.Config) (seen : list string) :
  length (Spawn.dedupe seen l) <= length l.
Proof. apply sublist_length, dedupe_sublist. Qed.

(** The candidates, by where they come from. *)
Lemma candidate_configs_parts (server : Spawn.Origin) (raw : option Spawn.Origin) :
  exists pkg https docker,
    Spawn.candidate_configs server raw = (pkg ++ https ++ docker)%list /\
    length pkg <= 1 /\
    Forall (fun c => from_package c = true /\ Spawn.cfg_remoteUrl c = None) pkg /\
    Forall (fun c => Spawn.transport c = "http" /\ http_target_allowed c) https /\
    length docker <= 1 /\
    Forall (fun c => Spawn.transport c = "docker" /\ Spawn.cfg_remoteUrl c = None) docker.
Proof.
  unfold Spawn.candidate_configs. cbv zeta.
  set (r := Spawn.or_default raw server).
  destruct (package_configs_shape (Spawn.packages r)) as [Hp1 Hp2].
  exists (Spawn.package_configs (Spawn.packages r)).
  exists (Spawn.remote_configs (Spawn.remotes r) ++
          match Spawn.nonempty (Spawn.or_else (Spawn.remoteUrl r) (Spawn.remoteUrl server)) with
          | Some u => if Spawn.denylisted u then [] else [Spawn.http_config u "sse"]
          | None => []
          end)%list.
  eexists. split; [now rewrite <- !app_assoc|].
  split; [exact Hp1|]. split; [exact Hp2|].
  split.
  { apply Forall_app. split; [apply remote_configs_shape|].
    destruct (Spawn.nonempty _) as [u|] eqn:Eu; [|constructor].
    destruct (Spawn.denylisted u) eqn:Ed; [constructor|].
    constructor; [|constructor]. split; [reflexivity|].
    unfold http_target_allowed, Spawn.http_config. cbn [Spawn.cfg_remoteUrl].
    split; [exact (nonempty_Some _ _ Eu)|exact Ed]. }
  destruct (Spawn.nonempty (Spawn.or_else (Spawn.image r) (Spawn.image server))).
  - split; [cbn; lia|]. repeat constructor.
  - split; [cbn; lia|constructor].
Qed.

End Candidates.

Lemma Forall_of_sublist {A} (P : A -> Prop) (l1 l2 : list A) :
  l1 `sublist_of` l2 -> Forall P l2 -> Forall P l1.
Proof.
  intros Hsub Hall. apply Forall_forall. intros x Hx.
  rewrite Forall_forall in Hall. apply Hall. eapply elem_of_sublist; eauto.
Qed.

(** What holds of all candidates holds of the configurations returned. *)
Lemma get_spawn_configs_Forall (P : Spawn.Config -> Prop) server raw :
  Forall P (Spawn.candidate_configs server raw) ->
  Forall P (Spawn.get_spawn_configs server raw).
Proof.
  intros H. unfold Spawn.get_spawn_configs. rewrite sort_by_key_perm.
  eapply Forall_of_sublist; [apply dedupe_sublist|exact H].
Qed.

Lemma candidates_allowed server raw :
  Forall http_target_allowed (Spawn.candidate_configs server raw).
Proof.
  destruct (candidate_configs_parts server raw)
    as (pkg & https & docker & -> & _ & Hp & Hh & _ & Hd).
  rewrite !Forall_app. repeat split.
  - eapply Forall_impl; [exact Hp|]. intros c [Hk Hu].
    unfold http_target_allowed. rewrite Hu. intros E.
    unfold from_package in Hk. rewrite E in Hk. discriminate.
  - eapply Forall_impl; [exact Hh|]. now intros c [_ H].
  - eapply Forall_impl; [exact Hd|]. intros c [Hk Hu].
    unfold http_target_allowed. rewrite Hu, Hk. discriminate.
Qed.

(** X1: [get_spawn_configs] never offers a placeholder endpoint: every
    configuration it returns that has a remote target has a non-empty one
    that contains none of [localhost], [127.0.0.1], [your-], [example.com],
    [0.0.0.0] in any letter case, and a configuration without a target is
    not an [http] one.  A record whose only hint is
    [http://localhost:3000] gets no configuration at all. *)
Theorem http_configs_avoid_placeholders :
  (forall server raw,
     Forall http_target_allowed (Spawn.get_spawn_configs server raw)) /\
  (forall u,
     Spawn.denylisted u
     = negb (forallb (fun p => negb (Py.contains p (Py.lower u)))
               ["localhost"; "127.0.0.1"; "your-"; "example.com"; "0.0.0.0"])) /\
  Spawn.get_spawn_configs Sample.local_only None = [].
Proof.
  split; [intros; apply get_spawn_configs_Forall, candidates_allowed|].
  split; [|reflexivity].
  intros u. unfold Spawn.denylisted, Spawn.placeholder_hosts. cbn [existsb forallb].
  repeat destruct (Py.contains _ _); reflexivity.
Qed.

(** X2: the fallback chain of a record is short and of known kinds: at
    most three configurations, each of a kind of the priority table, and at
    most one that comes from a package ([npx] or [stdio], never both). *)
Theorem spawn_configs_are_few_and_known :
  forall server raw,
    length (Spawn.get_spawn_configs server raw) <= 3 /\
    Forall (fun c => Spawn.transport c ∈ Spawn.TRANSPORT_PRIORITY)
      (Spawn.get_spawn_configs server raw) /\
    length (List.filter from_package (Spawn.get_spawn_configs server raw)) <= 1.
Proof.
  intros server raw.
  destruct (candidate_configs_parts server raw)
    as (pkg & https & docker & Hc & Hp1 & Hp & Hh & Hd1 & Hd).
  assert (Hhttp : forall seen,
             length (Spawn.dedupe seen https) <= 1).
  { intros seen. apply (dedupe_one_kind "http").
    eapply Forall_impl; [exact Hh|]. now intros c [H _]. }
  split.
  { unfold Spawn.get_spawn_configs.
    rewrite (Permutation_length (sort_by_key_perm _)), Hc.
    destruct (dedupe_app pkg [] (https ++ docker)) as [s1 ->].
    destruct (dedupe_app https s1 docker) as [s2 ->].
    rewrite !length_app.
    pose proof (dedupe_length pkg []). pose proof (Hhttp s1).
    pose proof (dedupe_length docker s2). lia. }
  split.
  { apply get_spawn_configs_Forall. rewrite Hc, !Forall_app. repeat split.
    - eapply Forall_impl; [exact Hp|]. intros c [Hk _].
      unfold from_package in Hk. apply orb_prop in Hk as [Hk|Hk];
        apply String.eqb_eq in Hk; rewrite Hk; unfold Spawn.TRANSPORT_PRIORITY;
        set_solver.
    - eapply Forall_impl; [exact Hh|]. intros c [-> _].
      unfold Spawn.TRANSPORT_PRIORITY. set_solver.
    - eapply Forall_impl; [exact Hd|]. intros c [-> _].
      unfold Spawn.TRANSPORT_PRIORITY. set_solver. }
  unfold Spawn.get_spawn_configs.
  assert (Hperm : List.filter from_package (Spawn.sort_by_key
                    (Spawn.dedupe [] (Spawn.candidate_configs server raw)))
                  ≡ₚ List.filter from_package
                       (Spawn.dedupe [] (Spawn.candidate_configs server raw))).
  { generalize (sort_by_key_perm (Spawn.dedupe [] (Spawn.candidate_configs server raw))).
    generalize (Spawn.sort_by_key (Spawn.dedupe [] (Spawn.candidate_configs server raw))).
    generalize (Spawn.dedupe [] (Spawn.candidate_configs server raw)).
    intros l2 l1 Hperm. induction Hperm as [|x l l' _ IH|x y l|l l' l'' _ IH1 _ IH2].
    - reflexivity.
    - cbn [List.filter]. destruct (from_package x); [now constructor|exact IH].
    - cbn [List.filter]. destruct (from_package x), (from_package y);
        try reflexivity. apply perm_swap.
    - now rewrite IH1. }
  rewrite (Permutation_length Hperm), Hc.
  destruct (dedupe_app pkg [] (https ++ docker)) as [s1 ->].
  destruct (dedupe_app https s1 docker) as [s2 ->].
  rewrite !List.filter_app, !length_app.
  assert (Hnone : forall l : list Spawn.Config,
             Forall (fun c => from_package c = false) l ->
             length (List.filter from_package l) = 0).
  { induction 1 as [|x l Hx _ IH]; [reflexivity|].
    cbn [List.filter]. now rewrite Hx. }
  assert (H1 : length (List.filter from_package (Spawn.dedupe [] pkg)) <= 1).
  { etransitivity; [apply sublist_length, List_filter_sublist|].
    pose proof (dedupe_length pkg []). lia. }
  rewrite (Hnone (Spawn.dedupe s1 https)), (Hnone (Spawn.dedupe s2 docker)); [lia| |].
  - eapply Forall_of_sublist; [apply dedupe_sublist|].
    eapply Forall_impl; [exact Hd|]. intros c [Hk _].
    unfold from_package. now rewrite Hk.
  - eapply Forall_of_sublist; [apply dedupe_sublist|].
    eapply Forall_impl; [exact Hh|]. intros c [Hk _].
    unfold from_package. now rewrite Hk.
Qed.

(** ** The outcomes of the record processor *)

Lemma compiled_shape_more (server : Mcp.Server.t) (config : Spawn.Config)
    (rest : list Spawn.Config) (e : Mcp.CompiledServer.t) :
  compiled_shape server rest e -> compiled_shape server (config :: rest) e.
Proof.
  unfold compiled_shape. intros (H1 & H2 & H3 & H4). repeat split; try tauto.
  now right.
Qed.

Lemma result_shape_more (out : Mcp.Outside) (server : Mcp.Server.t)
    (config : Spawn.Config) (rest : list Spawn.Config) (i : nat)
    (tried : list string) (e0 c0 : string) (r : Mcp.result) :
  result_shape out server rest (S i)
    (tried ++ [Spawn.transport config])
    (Mcp.sr_error (Mcp.spawn_server_via_runtime out i (Mcp.Server.registryId server) config))
    (Mcp.sr_error_code
       (Mcp.spawn_server_via_runtime out i (Mcp.Server.registryId server) config)) r ->
  result_shape out server (config :: rest) i tried e0 c0 r.
Proof.
  destruct r as [[[[e|] [f|]] [|]] [t n|t vars|code]]; cbn [result_shape]; try done.
  - intros (H & H'). split; [now apply compiled_shape_more|exact H'].
  - intros (H & H'). split; [now apply compiled_shape_more|exact H'].
  - intros ((H1 & H2 & H3 & H4 & H5) & H'). split; [|exact H'].
    unfold failed_shape. split; [exact H1|]. split; [exact H2|].
    split; [rewrite H3, <- app_assoc; reflexivity|]. split; [exact H4|].
    destruct rest as [|c1 rest'].
    + cbn [last length] in *. replace (i + 1 - 1) with i by lia. exact H5.
    + change (last (config :: c1 :: rest')) with (last (c1 :: rest')).
      destruct (last (c1 :: rest')) as [cfg|] eqn:El;
        [|apply last_None in El; discriminate El].
      cbn [length] in *.
      replace (i + S (S (length rest')) - 1) with (S i + S (length rest') - 1) by lia.
      exact H5.
Qed.

Lemma try_configs_shape (out : Mcp.Outside) (server : Mcp.Server.t)
    (backend : Llm.Backend) (configs : list Spawn.Config) :
  forall i tried e0 c0,
    result_shape out server configs i tried e0 c0
      (Mcp.try_configs out server backend configs i tried e0 c0).
Proof.
  induction configs as [|config rest IH]; intros i tried e0 c0.
  - unfold Mcp.try_configs, Mcp.all_transports_failed. cbn [result_shape].
    split; [|reflexivity]. unfold failed_shape, kinds.
    cbn [Mcp.FailedServer.id Mcp.FailedServer.registryId
         Mcp.FailedServer.transports_tried Mcp.FailedServer.retryable
         Mcp.FailedServer.error Mcp.FailedServer.error_code map last].
    rewrite app_nil_r. repeat split.
  - cbn [Mcp.try_configs]. reduce_matches.
    set (res := Mcp.spawn_server_via_runtime out i (Mcp.Server.registryId server) config).
    assert (Hcred :
      result_shape out server (config :: rest) i tried e0 c0
        match
          (if bool_decide (Credentials.detect_required_vars (Mcp.sr_error res) = ∅)
           then None
           else match Mcp.clean_server_from_repo out i server backend with
                | Some m =>
                    Some (Mcp.compiled_entry out server m config [] true
                            (Credentials.detect_required_vars (Mcp.sr_error res)))
                | None => None
                end)
        with
        | Some compiled =>
            (Some compiled, None, true,
             Mcp.CREDENTIALS (Spawn.transport config)
               (map fst (map_to_list
                           (Credentials.detect_required_vars (Mcp.sr_error res)))))
        | None =>
            Mcp.try_configs out server backend rest (S i)
              (tried ++ [Spawn.transport config]) (Mcp.sr_error res)
              (Mcp.sr_error_code res)
        end).
    { destruct (bool_decide_reflect
                  (Credentials.detect_required_vars (Mcp.sr_error res) = ∅)) as [Hv|Hv].
      - apply result_shape_more, IH.
      - destruct (Mcp.clean_server_from_repo out i server backend) as [m|];
          [|apply result_shape_more, IH].
        cbn [result_shape]. unfold compiled_shape, Mcp.compiled_entry.
        cbn [Mcp.CompiledServer.id Mcp.CompiledServer.registryId
             Mcp.CompiledServer.spawn Mcp.CompiledServer.transport
             Mcp.CompiledServer.working_transport Mcp.CompiledServer.tool_count
             Mcp.CompiledServer.tools Mcp.CompiledServer.spawn_failed
             Mcp.CompiledServer.vars_required length].
        repeat split; [left|exact Hv]. }
    destruct (Mcp.success res && negb (bool_decide (Mcp.sr_tools res = []))) eqn:Es;
      reduce_matches; [|exact Hcred].
    destruct (Mcp.clean_server_with_tools out i server (Mcp.sr_tools res) backend)
      as [m|]; reduce_matches; [|exact Hcred].
    apply andb_prop in Es as [_ Et]. apply negb_true_iff, bool_decide_eq_false in Et.
    cbn [result_shape]. unfold compiled_shape, Mcp.compiled_entry.
    cbn [Mcp.CompiledServer.id Mcp.CompiledServer.registryId
         Mcp.CompiledServer.spawn Mcp.CompiledServer.transport
         Mcp.CompiledServer.working_transport Mcp.CompiledServer.tool_count
         Mcp.CompiledServer.tools Mcp.CompiledServer.spawn_failed
         Mcp.CompiledServer.vars_required].
    repeat split; [left|exact Et].
Qed.

(** X3: what [process_server_with_model] returns, when it returns: exactly
    one entry, with the flag and the status that go with it.  A compiled
    entry carries the record's id and the configuration that worked, which
    is one of the record's configurations; it has tools and asks for no
    credentials ([spawn_failed] false, status SUCCESS), or has no tool and
    names at least one variable ([spawn_failed] true, status CREDENTIALS).
    A failed entry lists the kinds of all the configurations, in the order
    in which they were tried, keeps the error and the code of the last
    spawn (both empty when the record had nothing to spawn from), and is
    not retryable. *)
Theorem processor_outcomes :
  forall out arg,
    match Mcp.process_server_with_model out arg with
    | Mcp.Returned r =>
        let server := fst (fst arg) in
        result_shape out server
          (Spawn.get_spawn_configs (Mcp.Server.origin_keys server) (Mcp.Server.raw server))
          0 [] "" "" r
    | Mcp.Raised => True
    end.
Proof.
  intros out [[server model_idx] backends]. unfold Mcp.process_server_with_model.
  destruct (Mcp.worker_dies out server); [exact I|].
  destruct (backends !! _); [|exact I].
  cbv zeta. cbn [fst]. apply try_configs_shape.
Qed.

(** ** The counters of phase 1 *)

Lemma List_filter_perm {A} (p : A -> bool) (l1 l2 : list A) :
  l1 ≡ₚ l2 -> List.filter p l1 ≡ₚ List.filter p l2.
Proof.
  induction 1 as [|x l1 l2 _ IH|x y l|l1 l2 l3 _ IH1 _ IH2]; cbn [List.filter].
  - constructor.
  - destruct (p x); [now constructor|exact IH].
  - destruct (p x), (p y); try reflexivity. constructor.
  - now transitivity (List.filter p l2).
Qed.

Section Counts.
Variable out : Mcp.Outside.

Lemma flush_progress c :
  Mcp.progress (Mcp.flush out c)
  = Mcp.set_updated (Mcp.stamp_now out c) (Mcp.progress c).
Proof. reflexivity. Qed.

Lemma record_result_counts id r c :
  one_entry r ->
  Mcp.Progress.processed (Mcp.progress (Mcp.record_result id r c))
  = S (Mcp.Progress.processed (Mcp.progress c)) /\
  settled (Mcp.progress (Mcp.record_result id r c)) = S (settled (Mcp.progress c)) /\
  Mcp.Progress.last_processed_id (Mcp.progress (Mcp.record_result id r c)) = id.
Proof.
  destruct r as [[[[e|] [f|]] ok] msg]; cbn [one_entry]; try done; intros _;
    unfold Mcp.record_result, settled.
  - destruct (ok && bool_decide _); repeat split; cbn; lia.
  - repeat split; cbn; lia.
Qed.

Lemma consume_counts c k arg :
  let c' := fst (Mcp.consume out (c, k) arg) in
  Mcp.Progress.processed (Mcp.progress c') = S (Mcp.Progress.processed (Mcp.progress c)) /\
  settled (Mcp.progress c') + (if raises out arg then 1 else 0)
  = S (settled (Mcp.progress c)).
Proof.
  cbv zeta. unfold Mcp.consume, raises.
  destruct (Mcp.process_server_with_model out arg) as [r|] eqn:E.
  - apply process_one_entry in E.
    destruct (record_result_counts (Mcp.arg_id arg) r c E) as (Hp & Hs & _).
    destruct (Mcp.CHECKPOINT_INTERVAL <=? S k); cbn [fst].
    + rewrite flush_progress. split; [exact Hp|].
      rewrite Nat.add_0_r. exact Hs.
    + split; [exact Hp|]. rewrite Nat.add_0_r. exact Hs.
  - cbn [fst]. split; [reflexivity|]. unfold settled. cbn. lia.
Qed.

Lemma foldl_consume_counts args : forall c k,
  let c' := fst (foldl (Mcp.consume out) (c, k) args) in
  Mcp.Progress.processed (Mcp.progress c')
  = Mcp.Progress.processed (Mcp.progress c) + length args /\
  settled (Mcp.progress c') + length (List.filter (raises out) args)
  = settled (Mcp.progress c) + length args.
Proof.
  induction args as [|arg args IH]; intros c k; cbv zeta.
  - cbn [foldl fst length List.filter]. lia.
  - cbn [foldl length List.filter].
    destruct (Mcp.consume out (c, k) arg) as [c1 k1] eqn:E.
    pose proof (consume_counts c k arg) as H. cbv zeta in H. rewrite E in H.
    cbn [fst] in H. destruct H as [Hp Hs].
    specialize (IH c1 k1). cbv zeta in IH. destruct IH as [IHp IHs].
    rewrite IHp, Hp. split; [lia|].
    destruct (raises out arg); cbn [length]; lia.
Qed.

Lemma record_result_static id r c :
  Mcp.Progress.total (Mcp.progress (Mcp.record_result id r c))
  = Mcp.Progress.total (Mcp.progress c) /\
  Mcp.Progress.phase (Mcp.progress (Mcp.record_result id r c))
  = Mcp.Progress.phase (Mcp.progress c).
Proof.
  destruct r as [[[[e|] [f|]] ok] msg]; unfold Mcp.record_result;
    try destruct (ok && bool_decide _); split; reflexivity.
Qed.

Lemma foldl_consume_static args : forall c k,
  let c' := fst (foldl (Mcp.consume out) (c, k) args) in
  Mcp.Progress.total (Mcp.progress c') = Mcp.Progress.total (Mcp.progress c) /\
  Mcp.Progress.phase (Mcp.progress c') = Mcp.Progress.phase (Mcp.progress c).
Proof.
  induction args as [|arg args IH]; intros c k; cbv zeta; [done|].
  cbn [foldl]. unfold Mcp.consume at 2 4.
  destruct (Mcp.process_server_with_model out arg) as [r|].
  - destruct (record_result_static (Mcp.arg_id arg) r c) as [Ht Hp].
    destruct (Mcp.CHECKPOINT_INTERVAL <=? S k).
    + destruct (IH (Mcp.flush out (Mcp.record_result (Mcp.arg_id arg) r c)) 0)
        as [-> ->].
      rewrite flush_progress. split; [exact Ht|exact Hp].
    + destruct (IH (Mcp.record_result (Mcp.arg_id arg) r c) (S k)) as [-> ->].
      split; [exact Ht|exact Hp].
  - destruct (IH (Mcp.update_progress Mcp.add_processed
                    (Mcp.emit (Mcp.Line Mcp.ERROR (Mcp.arg_id arg)) c)) k) as [-> ->].
    split; reflexivity.
Qed.

Lemma submit_all_progress args : forall c,
  Mcp.progress (Mcp.submit_all args c) = Mcp.progress c.
Proof.
  unfold Mcp.submit_all. induction args as [|a args IH]; intros c; [done|].
  cbn [foldl]. now rewrite IH.
Qed.

Lemma start_phase1_progress c :
  Mcp.progress (Mcp.start_phase1 out c)
  = Mcp.begin_phase1 (length (Mcp.servers c)) (Mcp.stamp_now out c) (Mcp.progress c).
Proof. unfold Mcp.start_phase1. now destruct (String.eqb _ _). Qed.

End Counts.

(** X4: the counters after phase 1, whatever the order in which the
    futures complete.  [processed] grows by the size of the batch, while
    [success_count] and [failed_count] together grow only by the number of
    workers that returned: they fall short of [processed] by one for every
    worker that raised.  [total] is the number of records loaded, not the
    size of the batch, and [phase] is 1, also when there was nothing to
    process. *)
Theorem phase1_counters (out : Mcp.Outside) (limit : option nat) (resume : bool)
    (workers : nat) (c : Mcp.Compiler) :
  (forall args, Mcp.as_completed out args ≡ₚ args) ->
  let c0 := Mcp.resume_progress resume c in
  let todo := Mcp.servers_to_process limit resume c0 in
  let c' := Mcp.run_phase1 out limit resume workers c in
  Mcp.Progress.processed (Mcp.progress c')
  = Mcp.Progress.processed (Mcp.progress c0) + length todo /\
  settled (Mcp.progress c')
  + length (List.filter (raises out) (Mcp.process_args todo (Mcp.backends c)))
  = settled (Mcp.progress c0) + length todo /\
  Mcp.Progress.total (Mcp.progress c') = length (Mcp.servers c) /\
  Mcp.Progress.phase (Mcp.progress c') = 1.
Proof.
  intros Hperm c0 todo c'. unfold c', Mcp.run_phase1. fold c0. fold todo.
  destruct (resume_progress_fields resume c) as (_ & _ & Hsrv & Hb). fold c0 in Hsrv, Hb.
  destruct (start_phase1_fields out c0) as (_ & _ & _ & Hb').
  destruct todo as [|s todo'] eqn:Etodo.
  - rewrite start_phase1_progress, Hsrv. cbn [length Mcp.process_args imap List.filter].
    repeat split; try reflexivity; cbn; lia.
  - rewrite Hb', Hb.
    set (args := Mcp.process_args (s :: todo') (Mcp.backends c)).
    rewrite flush_progress.
    pose proof (foldl_consume_counts out (Mcp.as_completed out args)
                  (Mcp.submit_all args (Mcp.start_phase1 out c0)) 0) as H.
    cbv zeta in H. destruct H as [Hp Hs].
    rewrite submit_all_progress, start_phase1_progress in Hp, Hs.
    assert (Hlen : length (Mcp.as_completed out args) = length (s :: todo')).
    { rewrite (Permutation_length (Hperm args)). unfold args, Mcp.process_args.
      now rewrite length_imap. }
    assert (Hraise : length (List.filter (raises out) (Mcp.as_completed out args))
                     = length (List.filter (raises out) args)).
    { apply Permutation_length, List_filter_perm, Hperm. }
    rewrite Hlen in Hp, Hs. rewrite Hraise in Hs.
    split; [exact Hp|]. split; [exact Hs|].
    destruct (foldl_consume_static out (Mcp.as_completed out args)
                (Mcp.submit_all args (Mcp.start_phase1 out c0)) 0) as [Ht Hph].
    rewrite submit_all_progress, start_phase1_progress in Ht, Hph.
    split; [rewrite <- Hsrv; exact Ht|exact Hph].
Qed.


(** The counters over the four records [a] .. [d], when the futures
    complete in the reverse order and the worker of [b] raises: four
    processed, three settled. *)
Lemma phase1_counters_witness :
  let c := Mcp.load_servers Sample.four (Mcp.init Sample.no_disk) in
  let c' := Mcp.run_phase1 Sample.moody None false 3 c in
  (forall args, Mcp.as_completed Sample.moody args ≡ₚ args) /\
  Mcp.Progress.processed (Mcp.progress c') = 4 /\
  settled (Mcp.progress c') + 1 = 4.
Proof.
  assert (Hperm : forall args, Mcp.as_completed Sample.moody args ≡ₚ args).
  { intros args. symmetry. apply Permutation_rev. }
  split; [exact Hperm|].
  destruct (phase1_counters Sample.moody None false 3
              (Mcp.load_servers Sample.four (Mcp.init Sample.no_disk)) Hperm)
    as (Hp & Hs & _).
  split; [exact Hp|exact Hs].
Defined.


(** ** The batch of phase 1 *)

Lemma fst_imap {A B} (f : A -> string) (l : list A) :
  forall g : nat -> B, map fst (imap (fun k s => (f s, g k)) l) = map f l.
Proof.
  induction l as [|s l IH]; intros g; [reflexivity|].
  rewrite imap_cons. cbn [map fst]. f_equal. exact (IH (g ∘ S)).
Qed.

(** The ids phase 1 submits are those of its batch, in the order of the
    batch. *)
Lemma run_phase1_sent (out : Mcp.Outside) limit resume workers c :
  map fst (submitted (Mcp.trace (Mcp.run_phase1 out limit resume workers c)))
  = (map fst (submitted (Mcp.trace c)) ++
     map Mcp.Server.registryId
       (Mcp.servers_to_process limit resume (Mcp.resume_progress resume c)))%list.
Proof.
  pose proof (run_phase1_trace out limit resume workers c) as H. cbv zeta in H.
  rewrite H. clear H.
  destruct (Mcp.servers_to_process limit resume (Mcp.resume_progress resume c))
    as [|s todo].
  - cbn [map]. now rewrite app_nil_r.
  - rewrite !submitted_app, submitted_process_args, submitted_loop_actions.
    cbn [app]. unfold flush_writes, submitted at 3. cbn [omap list_omap submission].
    rewrite app_nil_r, map_app. f_equal. apply fst_imap.
Qed.

Lemma servers_to_process_cut limit c :
  let last := Mcp.Progress.last_processed_id (Mcp.progress c) in
  if negb (String.eqb last "")
  then Mcp.servers_to_process limit true c
       `sublist_of` drop (Mcp.start_idx last (Mcp.servers c)) (Mcp.servers c)
  else True.
Proof.
  cbv zeta. unfold Mcp.servers_to_process. cbn [andb].
  destruct (negb (String.eqb _ "")); [|exact I].
  etransitivity; [apply List_filter_sublist|]. apply apply_limit_sublist.
Qed.

Lemma servers_to_process_length limit resume c :
  length (Mcp.servers_to_process limit resume c)
  <= match limit with Some (S n) => S n | _ => length (Mcp.servers c) end.
Proof.
  destruct limit as [[|n]|].
  - apply sublist_length, servers_to_process_sublist.
  - unfold Mcp.servers_to_process.
    etransitivity; [apply sublist_length, List_filter_sublist|].
    cbn [Mcp.apply_limit]. rewrite length_take. lia.
  - apply sublist_length, servers_to_process_sublist.
Qed.

(** X5: what phase 1 of a fresh compiler submits.  The ids sent to the
    workers are ids of registry records of origin [mcp], in the order of
    the registry and each record at most once; none of them is in the
    compiled document found on disk; a limit [n > 0] bounds their number
    (a limit of 0 is no limit).  On resume from a checkpoint that names a
    last processed id, nothing is sent up to and including the first
    record with that id; when no record has that id, the first record of
    the registry is left out all the same. *)
Theorem phase1_sends_fresh_records :
  forall out registry d limit resume workers,
    let c := Mcp.load_servers registry (Mcp.init d) in
    let sent :=
      map fst (submitted (Mcp.trace (Mcp.run_phase1 out limit resume workers c))) in
    let last :=
      Mcp.Progress.last_processed_id (Mcp.progress (Mcp.resume_progress resume c)) in
    sent `sublist_of`
      map Mcp.Server.registryId (filter (fun s => Mcp.Server.origin s = "mcp") registry) /\
    Forall (fun registry_id => Mcp.load_compiled d !! registry_id = None) sent /\
    length sent <= match limit with Some (S n) => S n | _ => length registry end /\
    if resume && negb (String.eqb last "")
    then match Mcp.first_index last (Mcp.servers c) with
         | Some i => sent `sublist_of` map Mcp.Server.registryId (drop (S i) (Mcp.servers c))
         | None => sent `sublist_of` map Mcp.Server.registryId (drop 1 (Mcp.servers c))
         end
    else True.
Proof.
  intros out registry d limit resume workers c sent last.
  assert (Hsent : sent = map Mcp.Server.registryId
                           (Mcp.servers_to_process limit resume
                              (Mcp.resume_progress resume c))).
  { unfold sent. now rewrite run_phase1_sent. }
  destruct (resume_progress_fields resume c) as (Hc & _ & Hs & _).
  set (c0 := Mcp.resume_progress resume c) in *.
  rewrite Hsent. split.
  { apply map_sublist. etransitivity; [apply servers_to_process_sublist|].
    now rewrite Hs. }
  split.
  { apply Forall_forall. intros registry_id Hid.
    apply list_elem_of_fmap in Hid as (s & -> & Hin).
    apply servers_to_process_fresh in Hin. now rewrite Hc in Hin. }
  split.
  { rewrite length_map. etransitivity; [apply servers_to_process_length|].
    rewrite Hs. destruct limit as [[|n]|]; try apply length_filter. lia. }
  destruct resume; cbn [andb]; [|exact I].
  pose proof (servers_to_process_cut limit c0) as Hcut. cbv zeta in Hcut.
  fold last in Hcut. destruct (negb (String.eqb last "")); [|exact I].
  rewrite Hs in Hcut. unfold Mcp.start_idx in Hcut.
  destruct (Mcp.first_index last (Mcp.servers c)) as [i|];
    apply map_sublist; exact Hcut.
Qed.


(** ** The cadence of the checkpoints, for a batch of any size *)

Lemma cadence_closed (n : nat) : forall seen k,
  k < 15 ->
  cadence seen k n = map (fun j => seen + (15 - k) + 15 * j) (seq 0 ((n + k) / 15)).
Proof.
  induction n as [|n IH]; intros seen k Hk.
  - cbn [cadence]. rewrite Nat.add_0_l, Nat.div_small by exact Hk. reflexivity.
  - cbn [cadence]. unfold Mcp.CHECKPOINT_INTERVAL.
    destruct (Nat.leb_spec 15 (S k)) as [Hge|Hlt].
    + assert (k = 14) as -> by lia.
      rewrite (IH (S seen) 0) by lia.
      replace (S n + 14) with (n + 1 * 15) by lia.
      rewrite Nat.div_add, Nat.add_0_r by discriminate.
      replace (n / 15 + 1) with (S (n / 15)) by lia.
      cbn [seq map]. f_equal; [lia..|].
      rewrite <- seq_shift, map_map. apply map_ext. intros j. lia.
    + rewrite (IH (S seen) (S k)) by lia.
      replace (n + S k) with (S n + k) by lia.
      apply map_ext. intros j. lia.
Qed.

(** X6: the flushes of phase 1 over a batch of [n] records whose workers
    all return, whatever the order in which they complete.  An empty batch
    is not flushed at all.  Otherwise there is a flush after every
    fifteenth completion and one more at the end of the batch, so
    [n / 15 + 1] flushes of three files each; when [n] is a multiple of 15,
    the last two flushes follow each other with no completion between
    them. *)
Theorem checkpoint_cadence (out : Mcp.Outside) (registry : list Mcp.Server.t)
    (d : Mcp.Disk) (limit : option nat) (resume : bool) (workers : nat) :
  let c := Mcp.load_servers registry (Mcp.init d) in
  let n := length (Mcp.servers_to_process limit resume (Mcp.resume_progress resume c)) in
  (forall s, Mcp.worker_dies out s = false) ->
  (forall args, Mcp.as_completed out args ≡ₚ args) ->
  let c' := Mcp.run_phase1 out limit resume workers c in
  flush_points 0 (Mcp.trace c')
  = (if n =? 0 then [] else map (fun j => 15 * S j) (seq 0 (n / 15)) ++ [n])%list /\
  List.filter is_write (Mcp.trace c')
  = (if n =? 0 then []
     else concat (map (fun _ => flush_writes) (seq 0 (n / 15 + 1)))).
Proof.
  intros c n Halive Hperm c'.
  pose proof (run_phase1_trace out limit resume workers c) as Htr. cbv zeta in Htr.
  fold c' in Htr. unfold n.
  set (todo := Mcp.servers_to_process limit resume (Mcp.resume_progress resume c)) in *.
  set (args := Mcp.process_args todo (Mcp.backends c)) in *.
  assert (Hn : length (Mcp.as_completed out args) = length todo).
  { rewrite (Permutation_length (Hperm args)). unfold args, Mcp.process_args.
    now rewrite length_imap. }
  assert (Hret : Forall (returns out) (Mcp.as_completed out args)).
  { rewrite (Hperm args). apply process_args_return; [discriminate|exact Halive]. }
  rewrite Htr. clear Htr.
  destruct todo as [|s todo'] eqn:Etodo; [split; reflexivity|].
  set (m := length (s :: todo')) in *.
  assert (Hm : (m =? 0) = false) by (apply Nat.eqb_neq; unfold m; cbn [length]; lia).
  rewrite Hm.
  assert (Hsub : forall seen l tail,
             flush_points seen
               (map (fun arg => Mcp.Submit (Mcp.arg_id arg) (snd (fst arg))) l ++ tail)
             = flush_points seen tail).
  { intros seen l tail. induction l as [|a l IH]; [reflexivity|exact IH]. }
  assert (Hsubw : forall l tail,
             List.filter is_write
               (map (fun arg => Mcp.Submit (Mcp.arg_id arg) (snd (fst arg))) l ++ tail)
             = List.filter is_write tail).
  { intros l tail. induction l as [|a l IH]; [reflexivity|exact IH]. }
  change (Mcp.trace c) with (@nil Mcp.action). cbn [app].
  split.
  - rewrite Hsub, (loop_actions_points out _ 0 0 flush_writes Hret), Hn.
    rewrite cadence_closed by lia. rewrite Nat.add_0_r, Nat.add_0_l.
    cbn [flush_writes flush_points]. f_equal.
    apply map_ext. intros j. lia.
  - rewrite Hsubw, List.filter_app, (loop_actions_writes out _ 0 0 Hret), Hn.
    rewrite cadence_closed by lia. rewrite Nat.add_0_r.
    rewrite map_map, Nat.add_1_r, seq_S, map_app, concat_app.
    cbn [map concat]. now rewrite app_nil_r.
Qed.

(** The cadence at the first thirty of the records [s00] .. [s36]: two
    flushes after the thirtieth completion. *)
Lemma checkpoint_cadence_witness :
  let c := Mcp.load_servers Sample.batch37 (Mcp.init Sample.no_disk) in
  let c' := Mcp.run_phase1 Sample.quiet (Some 30) false 3 c in
  (forall s, Mcp.worker_dies Sample.quiet s = false) /\
  (forall args, Mcp.as_completed Sample.quiet args ≡ₚ args) /\
  flush_points 0 (Mcp.trace c') = [15; 30; 30].
Proof.
  split; [intros s; reflexivity|]. split; [intros args; reflexivity|].
  apply (checkpoint_cadence Sample.quiet Sample.batch37 Sample.no_disk (Some 30) false 3).
  - intros s; reflexivity.
  - intros args; reflexivity.
Defined.


(** ** What a restart finds on disk *)

Section Restart.
Variable out : Mcp.Outside.

Lemma foldl_by_id_keys (l : list Mcp.CompiledServer.t) : forall acc,
  keys_match acc -> keys_match (foldl by_id acc l).
Proof.
  induction l as [|s l IH]; intros acc Hacc; [exact Hacc|].
  cbn [foldl]. apply IH. unfold by_id. now apply map_Forall_insert_2.
Qed.

Lemma foldl_pairs (l : list (string * Mcp.CompiledServer.t)) : forall acc,
  Forall (fun kv => Mcp.CompiledServer.id kv.2 = kv.1) l ->
  foldl by_id acc (map snd l) = foldl (fun m kv => <[kv.1 := kv.2]> m) acc l.
Proof.
  induction l as [|[k v] l IH]; intros acc Hl; [reflexivity|].
  apply Forall_cons in Hl as [Hk Hl]. cbn [map foldl snd fst] in *.
  unfold by_id at 2. rewrite Hk. now apply IH.
Qed.

Lemma foldl_insert_list_to_map (l : list (string * Mcp.CompiledServer.t)) :
  NoDup (l.*1) ->
  foldl (fun m kv => <[kv.1 := kv.2]> m) ∅ l
  = (list_to_map l : gmap string Mcp.CompiledServer.t).
Proof.
  induction l as [|[k v] l IH] using rev_ind; intros Hnd; [reflexivity|].
  rewrite fmap_app in Hnd. apply NoDup_app in Hnd as (Hl & Hk & _).
  rewrite foldl_snoc, IH by exact Hl. cbn [fst snd].
  rewrite list_to_map_snoc; [reflexivity|].
  intros Hin. apply (Hk k Hin). cbn. left.
Qed.

(** A map filed by id is read back from its values. *)
Lemma load_values (m : gmap string Mcp.CompiledServer.t) :
  keys_match m -> foldl by_id ∅ (Mcp.values m) = m.
Proof.
  intros Hm. unfold Mcp.values. rewrite foldl_pairs.
  - rewrite foldl_insert_list_to_map by apply NoDup_fst_map_to_list.
    apply list_to_map_to_list.
  - apply Forall_forall. intros [k v] Hkv. apply elem_of_map_to_list in Hkv.
    exact (Hm k v Hkv).
Qed.

Lemma init_on_disk (d : Mcp.Disk) : compiled_on_disk (Mcp.init d).
Proof.
  split; [|reflexivity]. cbn [Mcp.init Mcp.compiled]. unfold Mcp.load_compiled.
  destruct (Mcp.MCPCOMPILED_PATH d) as [doc|]; [|apply map_Forall_empty].
  apply foldl_by_id_keys, map_Forall_empty.
Qed.

Lemma process_compiled_id arg e f ok msg :
  Mcp.process_server_with_model out arg = Mcp.Returned (Some e, f, ok, msg) ->
  Mcp.CompiledServer.id e = Mcp.arg_id arg.
Proof.
  destruct arg as [[server model_idx] backends].
  unfold Mcp.process_server_with_model, Mcp.arg_id. cbn [fst].
  destruct (Mcp.worker_dies out server); [discriminate|].
  destruct (backends !! _) as [backend|]; [|discriminate].
  intros [= E].
  pose proof (try_configs_shape out server backend
                (Spawn.get_spawn_configs (Mcp.Server.origin_keys server)
                   (Mcp.Server.raw server)) 0 [] "" "") as H.
  rewrite E in H.
  destruct f as [f|]; [destruct ok, msg; done|].
  destruct ok; [|destruct msg; done].
  destruct msg as [t n|t vars|code]; cbn [result_shape] in H; [| |done].
  - destruct H as ((Hid & _) & _). exact Hid.
  - destruct H as ((Hid & _) & _). exact Hid.
Qed.

Lemma consume_keys c k arg :
  keys_match (Mcp.compiled c) ->
  keys_match (Mcp.compiled (fst (Mcp.consume out (c, k) arg))).
Proof.
  intros Hc. unfold Mcp.consume.
  destruct (Mcp.process_server_with_model out arg) as [r|] eqn:E; [|exact Hc].
  assert (Hr : keys_match (Mcp.compiled (Mcp.record_result (Mcp.arg_id arg) r c))).
  { pose proof (record_result_maps (Mcp.arg_id arg) r c (process_one_entry out arg r E))
      as H.
    destruct r as [[[[e|] f] ok] msg].
    - destruct H as [-> _]. apply map_Forall_insert_2; [|exact Hc].
      exact (process_compiled_id arg e f ok msg E).
    - destruct f as [f|]; [|done]. destruct H as [-> _]. exact Hc. }
  destruct (Mcp.CHECKPOINT_INTERVAL <=? S k); exact Hr.
Qed.

Lemma foldl_consume_keys args : forall c k,
  keys_match (Mcp.compiled c) ->
  keys_match (Mcp.compiled (fst (foldl (Mcp.consume out) (c, k) args))).
Proof.
  induction args as [|arg args IH]; intros c k Hc; [exact Hc|].
  cbn [foldl]. destruct (Mcp.consume out (c, k) arg) as [c1 k1] eqn:E.
  apply IH. pose proof (consume_keys c k arg Hc) as H. now rewrite E in H.
Qed.

Lemma retry_result_compiled id r c :
  Mcp.compiled (Mcp.retry_result id r c)
  = match r with
    | (Some e, _, _, _) => <[id := e]> (Mcp.compiled c)
    | _ => Mcp.compiled c
    end.
Proof.
  destruct r as [[[[e|] [f|]] ok] msg]; unfold Mcp.retry_result;
    try destruct (ok && bool_decide _); reflexivity.
Qed.

Lemma foldl_consume_retry_keys args : forall c,
  keys_match (Mcp.compiled c) ->
  keys_match (Mcp.compiled (foldl (Mcp.consume_retry out) c args)).
Proof.
  induction args as [|arg args IH]; intros c Hc; [exact Hc|].
  cbn [foldl]. apply IH. unfold Mcp.consume_retry.
  destruct (Mcp.process_server_with_model out arg) as [r|] eqn:E; [|exact Hc].
  rewrite retry_result_compiled. destruct r as [[[[e|] f] ok] msg]; [|exact Hc].
  apply map_Forall_insert_2; [|exact Hc].
  exact (process_compiled_id arg e f ok msg E).
Qed.

Lemma flush_on_disk c :
  keys_match (Mcp.compiled c) -> compiled_on_disk (Mcp.flush out c).
Proof.
  intros Hc. split; [exact Hc|].
  change (foldl by_id ∅ (Mcp.values (Mcp.compiled c)) = Mcp.compiled c).
  now apply load_values.
Qed.

Lemma run_phase1_on_disk limit resume workers c :
  compiled_on_disk c -> compiled_on_disk (Mcp.run_phase1 out limit resume workers c).
Proof.
  intros [Hk Hd]. unfold Mcp.run_phase1.
  assert (H0 : compiled_on_disk (Mcp.start_phase1 out (Mcp.resume_progress resume c))).
  { unfold Mcp.start_phase1, Mcp.resume_progress.
    destruct resume; [destruct (Mcp.load_progress c)|];
      destruct (String.eqb _ _); split; assumption. }
  destruct (Mcp.servers_to_process limit resume (Mcp.resume_progress resume c));
    [exact H0|].
  apply flush_on_disk, foldl_consume_keys.
  destruct (submit_all_fields
              (Mcp.process_args (t :: l)
                 (Mcp.backends (Mcp.start_phase1 out (Mcp.resume_progress resume c))))
              (Mcp.start_phase1 out (Mcp.resume_progress resume c))) as (-> & _).
  exact (proj1 H0).
Qed.

Lemma run_phase2_on_disk limit c :
  compiled_on_disk c -> compiled_on_disk (Mcp.run_phase2 out limit c).
Proof.
  intros [Hk Hd]. unfold Mcp.run_phase2.
  destruct (Mcp.servers_to_retry limit c) as [|s todo]; [now split|].
  set (c1 := foldl _ _ _).
  assert (H1 : keys_match (Mcp.compiled c1)).
  { apply foldl_consume_retry_keys.
    destruct (submit_all_fields
                (Mcp.process_args (s :: todo)
                   (Mcp.backends (Mcp.remove_from_failed (s :: todo) c)))
                (Mcp.remove_from_failed (s :: todo) c)) as (-> & _).
    exact Hk. }
  split; [exact H1|].
  change (foldl by_id ∅ (Mcp.values (Mcp.compiled c1)) = Mcp.compiled c1).
  now apply load_values.
Qed.

End Restart.

(** X7: whatever the command line and whatever the workers do, a compiler
    object created on the disk a run leaves behind starts with exactly the
    compiled map the run ended with: none of the compiled entries is lost
    or changed by the round trip through the compiled document, because
    every entry is filed under its own [id]. *)
Theorem compiled_map_survives_restart :
  forall out registry d a,
    let c' := Mcp.main out registry d a in
    keys_match (Mcp.compiled c') /\
    Mcp.compiled (Mcp.init (Mcp.disk c')) = Mcp.compiled c'.
Proof.
  intros out registry d a. cbv zeta. unfold Mcp.main.
  set (c := if 0 <? Mcp.arg_start a then _ else _).
  assert (Hc : compiled_on_disk c).
  { unfold c. destruct (0 <? Mcp.arg_start a); apply (init_on_disk d). }
  set (limit := match Mcp.arg_limit a with Some (S n) => _ | _ => _ end).
  change (compiled_on_disk
            match Mcp.arg_phase a with
            | Some 1 => Mcp.run_phase1 out limit (Mcp.arg_resume a) (Mcp.arg_workers a) c
            | Some 2 => Mcp.run_phase2 out limit c
            | _ => Mcp.run_all out limit (Mcp.arg_resume a) (Mcp.arg_workers a) c
            end).
  assert (Hall : compiled_on_disk
                   (Mcp.run_all out limit (Mcp.arg_resume a) (Mcp.arg_workers a) c)).
  { apply run_phase2_on_disk, run_phase1_on_disk, Hc. }
  destruct (Mcp.arg_phase a) as [[|[|[|p]]]|]; try exact Hall.
  - now apply run_phase1_on_disk.
  - now apply run_phase2_on_disk.
Qed.


(** ** The retry pass retries once *)

Section RetryPass.
Variable out : Mcp.Outside.

Lemma remove_sub (l : list Mcp.Server.t) : forall (m : gmap string Mcp.FailedServer.t) k f,
  foldl (fun m s => delete (Mcp.Server.registryId s) m) m l !! k = Some f ->
  m !! k = Some f.
Proof.
  induction l as [|s l IH]; intros m k f H; [exact H|].
  cbn [foldl] in H. apply IH in H. now apply lookup_delete_Some in H as [_ H].
Qed.

Lemma remove_in (l : list Mcp.Server.t) : forall (m : gmap string Mcp.FailedServer.t) s,
  s ∈ l ->
  foldl (fun m s => delete (Mcp.Server.registryId s) m) m l
    !! Mcp.Server.registryId s = None.
Proof.
  induction l as [|a l IH]; intros m s Hs; [now apply elem_of_nil in Hs|].
  cbn [foldl]. apply elem_of_cons in Hs as [->|Hs]; [|now apply IH].
  destruct (foldl _ _ l !! Mcp.Server.registryId a) as [f|] eqn:E; [|reflexivity].
  apply remove_sub in E. now rewrite lookup_delete_eq in E.
Qed.

Lemma retry_result_failed id r c :
  Mcp.failed (Mcp.retry_result id r c)
  = match r with
    | (_, Some e, _, _) => <[id := Mcp.FailedServer.set_retryable false e]> (Mcp.failed c)
    | _ => Mcp.failed c
    end.
Proof.
  destruct r as [[[[e|] [f|]] ok] msg]; unfold Mcp.retry_result;
    try destruct (ok && bool_decide _); reflexivity.
Qed.

Lemma retry_result_servers id r c :
  Mcp.servers (Mcp.retry_result id r c) = Mcp.servers c.
Proof.
  destruct r as [[[[e|] [f|]] ok] msg]; unfold Mcp.retry_result;
    try destruct (ok && bool_decide _); reflexivity.
Qed.

Lemma foldl_consume_retry_failed m0 args : forall c,
  retryable_from m0 (Mcp.failed c) ->
  retryable_from m0 (Mcp.failed (foldl (Mcp.consume_retry out) c args)) /\
  Mcp.servers (foldl (Mcp.consume_retry out) c args) = Mcp.servers c.
Proof.
  induction args as [|arg args IH]; intros c Hc; [now split|].
  cbn [foldl].
  assert (H1 : retryable_from m0 (Mcp.failed (Mcp.consume_retry out c arg)) /\
               Mcp.servers (Mcp.consume_retry out c arg) = Mcp.servers c).
  { unfold Mcp.consume_retry.
    destruct (Mcp.process_server_with_model out arg) as [r|]; [|now split].
    rewrite retry_result_failed, retry_result_servers. split; [|reflexivity].
    destruct r as [[[e [f|]] ok] msg]; [|exact Hc].
    intros k g Hk Hg. apply lookup_insert_Some in Hk as [[_ <-]|[_ Hk]].
    - discriminate Hg.
    - exact (Hc k g Hk Hg). }
  destruct H1 as [H1 Hs]. destruct (IH _ H1) as [H2 Hs']. split; [exact H2|].
  now rewrite Hs'.
Qed.

(** The failed map and the records after a retry pass that had something
    to retry. *)
Lemma run_phase2_failed limit c :
  Mcp.servers (Mcp.run_phase2 out limit c) = Mcp.servers c /\
  retryable_from
    (match Mcp.servers_to_retry limit c with
     | [] => Mcp.failed c
     | _ :: _ => Mcp.failed (Mcp.remove_from_failed (Mcp.servers_to_retry limit c) c)
     end)
    (Mcp.failed (Mcp.run_phase2 out limit c)).
Proof.
  unfold Mcp.run_phase2.
  destruct (Mcp.servers_to_retry limit c) as [|s todo]; [split; [reflexivity|]|].
  { intros k f Hk _. exact Hk. }
  set (c1 := Mcp.remove_from_failed (s :: todo) c).
  destruct (foldl_consume_retry_failed (Mcp.failed c1)
              (Mcp.as_completed out (Mcp.process_args (s :: todo) (Mcp.backends c1)))
              (Mcp.submit_all (Mcp.process_args (s :: todo) (Mcp.backends c1)) c1))
    as [H Hs].
  { destruct (submit_all_fields (Mcp.process_args (s :: todo) (Mcp.backends c1)) c1)
      as (_ & -> & _).
    intros k f Hk _. exact Hk. }
  split; [|exact H].
  change (Mcp.servers (foldl (Mcp.consume_retry out)
                         (Mcp.submit_all
                            (Mcp.process_args (s :: todo) (Mcp.backends c1)) c1)
                         (Mcp.as_completed out
                            (Mcp.process_args (s :: todo) (Mcp.backends c1))))
          = Mcp.servers c).
  rewrite Hs.
  now destruct (submit_all_fields (Mcp.process_args (s :: todo) (Mcp.backends c1)) c1)
    as (_ & _ & -> & _).
Qed.

End RetryPass.

(** X8: the retry pass, on any state of the compiler and whatever the
    workers do.  No record it retried may be retried again afterwards: its
    entry is taken out of the failed map before the workers start, and
    comes back, if at all, marked as not retryable.  The pass makes no
    other record retryable, so that after a pass without a limit a second
    pass finds nothing to retry. *)
Theorem retry_pass_retries_once :
  forall out limit c,
    Forall (fun s => Mcp.retryable_failure (Mcp.run_phase2 out limit c) s = false)
      (Mcp.servers_to_retry limit c) /\
    Forall (fun s => Mcp.retryable_failure (Mcp.run_phase2 out limit c) s
                     && negb (Mcp.retryable_failure c s) = false)
      (Mcp.servers c) /\
    forall limit', Mcp.servers_to_retry limit' (Mcp.run_phase2 out None c) = [].
Proof.
  intros out limit c.
  assert (Hold : forall limit s,
             Mcp.retryable_failure (Mcp.run_phase2 out limit c) s = true ->
             Mcp.retryable_failure c s = true /\ s ∉ Mcp.servers_to_retry limit c).
  { intros lim s. destruct (run_phase2_failed out lim c) as [_ H].
    unfold Mcp.retryable_failure at 1.
    destruct (Mcp.failed (Mcp.run_phase2 out lim c) !! Mcp.Server.registryId s)
      as [f|] eqn:Ef; [|discriminate].
    intros Hf. specialize (H _ _ Ef Hf).
    destruct (Mcp.servers_to_retry lim c) as [|s0 todo] eqn:Etodo.
    - split; [|apply not_elem_of_nil]. unfold Mcp.retryable_failure. now rewrite H.
    - unfold Mcp.remove_from_failed in H. cbn [Mcp.failed Mcp.with_failed] in H.
      split.
      + apply remove_sub in H. unfold Mcp.retryable_failure. now rewrite H.
      + intros Hin. apply (remove_in _ (Mcp.failed c)) in Hin. congruence. }
  split.
  { apply Forall_forall. intros s Hs.
    destruct (Mcp.retryable_failure (Mcp.run_phase2 out limit c) s) eqn:E;
      [|reflexivity].
    now destruct (Hold limit s E) as [_ Hn]. }
  split.
  { apply Forall_forall. intros s _.
    destruct (Mcp.retryable_failure (Mcp.run_phase2 out limit c) s) eqn:E;
      [|reflexivity].
    destruct (Hold limit s E) as [-> _]. reflexivity. }
  intros limit'. unfold Mcp.servers_to_retry at 1.
  destruct (run_phase2_failed out None c) as [-> _].
  assert (Hnil : List.filter (Mcp.retryable_failure (Mcp.run_phase2 out None c))
                   (Mcp.servers c) = []).
  { destruct (List.filter _ _) as [|s l] eqn:E; [reflexivity|].
    assert (Hs : List.In s (List.filter
                              (Mcp.retryable_failure (Mcp.run_phase2 out None c))
                              (Mcp.servers c))) by (rewrite E; now left).
    apply filter_In in Hs as [Hin Hr].
    destruct (Hold None s Hr) as [Hc Hn]. exfalso. apply Hn.
    unfold Mcp.servers_to_retry. cbn [Mcp.apply_limit].
    apply list_elem_of_In, filter_In. now split. }
  rewrite Hnil. now destruct limit' as [[|n]|].
Qed.


(** ** What the patterns capture *)

Section Matching.
Variable s : list ascii.

(** The matcher is sound: what it hands to its continuation is a match. *)
Lemma run_sound {A} (r : Re.re) :
  forall pos cap (k : nat -> option Re.span -> option A) x,
    Re.run s r pos cap k = Some x ->
    exists pos' cap', matches s r pos cap pos' cap' /\ k pos' cap' = Some x.
Proof.
  induction r as [|p|r1 IH1 r2 IH2|r1 IH1 r2 IH2|r1 IH1|r1 IH1| |];
    intros pos cap k x H;
    [cbn [Re.run] in H..|idtac|cbn [Re.run] in H|cbn [Re.run] in H|cbn [Re.run] in H].
  - eauto using matches_Eps.
  - unfold Re.char_at in H. destruct (s !! pos) as [c|] eqn:E; [|done].
    destruct (p c) eqn:Ep; [|done]. eauto using matches_Chr.
  - apply IH1 in H as (p1 & c1 & H1 & H). apply IH2 in H as (p2 & c2 & H2 & H).
    eauto using matches_Cat.
  - destruct (Re.run s r1 pos cap k) as [y|] eqn:E1.
    + injection H as ->. apply IH1 in E1 as (p1 & c1 & H1 & Hk).
      eauto using matches_Alt_l.
    + apply IH2 in H as (p1 & c1 & H1 & Hk). eauto using matches_Alt_r.
  - change (star_loop s r1 k (S (length s - pos)) pos cap = Some x) in H.
    revert H. generalize (S (length s - pos)). intros fuel. revert pos cap.
    induction fuel as [|fuel IHf]; intros pos cap H.
    + exists pos, cap. split; [apply matches_Star_0|exact H].
    + change (match Re.run s r1 pos cap
                      (fun pos' cap' =>
                         if pos <? pos' then star_loop s r1 k fuel pos' cap' else None)
              with
              | Some x => Some x
              | None => k pos cap
              end = Some x) in H.
      destruct (Re.run s r1 pos cap _) as [y|] eqn:E1.
      * injection H as ->. apply IH1 in E1 as (p1 & c1 & H1 & Hk).
        destruct (pos <? p1); [|done].
        apply IHf in Hk as (p2 & c2 & H2 & Hk).
        eauto using matches_Star_S.
      * eauto using matches_Star_0.
  - apply IH1 in H as (p1 & c1 & H1 & Hk). eauto using matches_Group.
  - destruct (pos =? 0) eqn:E; [|done]. apply Nat.eqb_eq in E as ->.
    eauto using matches_Bol.
  - destruct (xorb _ _) eqn:E; [|done]. eauto using matches_WordB.
Qed.

Lemma match_at_sound (r : Re.re) (pos : nat) (h : Re.hit) :
  Re.match_at r s pos = Some h ->
  exists e cap, matches s r pos None e cap /\ h = Re.Hit pos e cap.
Proof.
  unfold Re.match_at. intros H. apply run_sound in H as (e & cap & Hm & [= <-]).
  eauto.
Qed.

Lemma search_aux_sound (r : Re.re) (fuel : nat) : forall pos h,
  Re.search_aux fuel r s pos = Some h ->
  exists pos' e cap, matches s r pos' None e cap /\ h = Re.Hit pos' e cap.
Proof.
  induction fuel as [|fuel IH]; intros pos h H; cbn [Re.search_aux] in H.
  - destruct (Re.match_at r s pos) as [h'|] eqn:E; [|done]. injection H as ->.
    apply match_at_sound in E as (e & cap & Hm & ->). eauto.
  - destruct (Re.match_at r s pos) as [h'|] eqn:E.
    + injection H as ->. apply match_at_sound in E as (e & cap & Hm & ->). eauto.
    + now apply IH in H.
Qed.

Lemma findall_aux_sound (r : Re.re) (fuel : nat) : forall pos,
  Forall (fun g => exists pos' e cap,
            matches s r pos' None e cap /\ g = Re.group1 s (Re.Hit pos' e cap))
    (Re.findall_aux fuel r s pos).
Proof.
  induction fuel as [|fuel IH]; intros pos; cbn [Re.findall_aux]; [constructor|].
  destruct (Re.search_from r s pos) as [h|] eqn:E; [|constructor].
  unfold Re.search_from in E. apply search_aux_sound in E as (p & e & cap & Hm & ->).
  constructor; [eauto|]. cbn [Re.hit_start Re.hit_end].
  destruct (p <? e); [apply IH|]. destruct (e <? length s); [apply IH|constructor].
Qed.

(** *** Taking a match apart *)

Lemma matches_Cat_inv r1 r2 a c b c' :
  matches s (Re.Cat r1 r2) a c b c' ->
  exists m cm, matches s r1 a c m cm /\ matches s r2 m cm b c'.
Proof. inversion 1; subst; eauto. Qed.

Lemma matches_Group_inv r a c b c' :
  matches s (Re.Group r) a c b c' ->
  c' = Some (a, b) /\ exists c1, matches s r a c b c1.
Proof. inversion 1; subst; eauto. Qed.

Lemma matches_Chr_inv p a c b c' :
  matches s (Re.Chr p) a c b c' -> b = S a /\ c' = c /\ all_in s p a b.
Proof.
  inversion 1; subst. repeat split. intros i Hi.
  assert (i = a) as -> by lia. eauto.
Qed.

Lemma all_in_app p a m b : all_in s p a m -> all_in s p m b -> all_in s p a b.
Proof.
  intros H1 H2 i Hi. destruct (Nat.lt_ge_cases i m); [apply H1|apply H2]; lia.
Qed.

Lemma matches_Star_Chr p : forall a c b c',
  matches s (Re.Star (Re.Chr p)) a c b c' -> a <= b /\ c' = c /\ all_in s p a b.
Proof.
  intros a c b c' H. remember (Re.Star (Re.Chr p)) as r eqn:Er.
  induction H as [| | | | |r pos cap|r p0 c0 p1 c1 p2 c2 H1 _ H2 IH2| | |];
    try discriminate Er.
  - repeat split; [lia|]. intros i Hi. lia.
  - injection Er as ->. apply matches_Chr_inv in H1 as (-> & -> & Ha).
    destruct (IH2 eq_refl) as (Hle & -> & Hb).
    repeat split; [lia|]. now apply (all_in_app p p0 (S p0)).
Qed.

Lemma matches_at_least p (n : nat) : forall a c b c',
  matches s (Re.at_least n (Re.Chr p)) a c b c' ->
  a + n <= b /\ c' = c /\ all_in s p a b.
Proof.
  induction n as [|n IH]; intros a c b c' H; cbn [Re.at_least] in H.
  - apply matches_Star_Chr in H as (Hle & -> & Ha). repeat split; [lia|exact Ha].
  - apply matches_Cat_inv in H as (m & cm & H1 & H2).
    apply matches_Chr_inv in H1 as (-> & -> & Ha).
    apply IH in H2 as (Hle & -> & Hb).
    repeat split; [lia|]. now apply (all_in_app p a (S a)).
Qed.

(** A first character of the class [h], then [n] or more of the class
    [t]. *)
Lemma matches_name h t (n : nat) a c b c' :
  matches s (Re.Cat (Re.Chr h) (Re.at_least n (Re.Chr t))) a c b c' ->
  S (a + n) <= b /\ all_in s h a (S a) /\ all_in s t (S a) b.
Proof.
  intros H. apply matches_Cat_inv in H as (m & cm & H1 & H2).
  apply matches_Chr_inv in H1 as (-> & -> & Ha).
  apply matches_at_least in H2 as (Hle & -> & Hb).
  repeat split; [lia|exact Ha|exact Hb].
Qed.

Lemma no_group_cap (r : Re.re) a c b c' :
  matches s r a c b c' -> no_group r = true -> c' = c.
Proof.
  induction 1 as [| |r1 r2 p0 c0 p1 c1 p2 c2 _ IH1 _ IH2| | | |
                  r p0 c0 p1 c1 p2 c2 _ IH1 _ IH2| | |];
    cbn [no_group]; intros Hr; try reflexivity; try discriminate Hr.
  - apply andb_prop in Hr as [Hr1 Hr2]. now rewrite (IH2 Hr2), (IH1 Hr1).
  - apply andb_prop in Hr as [Hr1 _]. auto.
  - apply andb_prop in Hr as [_ Hr2]. auto.
  - now rewrite (IH2 Hr), (IH1 Hr).
Qed.

Lemma slice_all_in p a b :
  a <= b -> all_in s p a b ->
  length (Re.slice s a b) = b - a /\
  Forall (fun c => p c = true) (Re.slice s a b).
Proof.
  intros Hab Hall. unfold Re.slice. split.
  - rewrite length_take, length_drop.
    destruct (Nat.eq_dec a b) as [->|Hne]; [lia|].
    destruct (Hall (b - 1)) as (c & Hc & _); [lia|].
    apply lookup_lt_Some in Hc. lia.
  - apply Forall_lookup. intros i x Hi.
    apply lookup_take_Some in Hi as [Hi Hlt]. rewrite lookup_drop in Hi.
    destruct (Hall (a + i)) as (c & Hc & Hp); [lia|]. congruence.
Qed.

End Matching.


(** ** The names credential detection returns *)

Lemma var_head_tail (c : ascii) :
  Credentials.var_head c = true -> Credentials.var_tail c = true.
Proof.
  unfold Credentials.var_head, Credentials.var_tail.
  destruct (Py.is_upper c), (Py.is_digit c), (Py.code c =? 95); done.
Qed.

Lemma icase_head_tail (c : ascii) :
  Re.icase Credentials.var_head c = true -> Re.icase Credentials.var_tail c = true.
Proof.
  unfold Re.icase. intros H.
  apply orb_true_iff in H as [H|H]; [apply orb_true_iff in H as [H|H]|];
    apply var_head_tail in H; rewrite H; now rewrite ?orb_true_r.
Qed.

Lemma icase_upper_head (c : ascii) :
  Re.icase Credentials.var_head c = true ->
  Credentials.var_head (Py.upper_char c) = true.
Proof.
  destruct c as [[] [] [] [] [] [] [] []]; vm_compute;
    intros H; try reflexivity; discriminate H.
Qed.

Lemma icase_upper_tail (c : ascii) :
  Re.icase Credentials.var_tail c = true ->
  Credentials.var_tail (Py.upper_char c) = true.
Proof.
  destruct c as [[] [] [] [] [] [] [] []]; vm_compute;
    intros H; try reflexivity; discriminate H.
Qed.

Lemma str_length (l : list ascii) : String.length (Py.str l) = length l.
Proof. now rewrite <- chars_length, chars_str. Qed.

(** The text of a group that starts with a character of the class [h] and
    goes on with [n] or more of the class [t]. *)
Lemma name_group (s : list ascii) (h t : ascii -> bool) (n a b : nat) c c' :
  (forall x, h x = true -> t x = true) ->
  matches s (Re.Cat (Re.Chr h) (Re.at_least n (Re.Chr t))) a c b c' ->
  S n <= length (Re.slice s a b) /\
  Forall (fun x => t x = true) (Re.slice s a b) /\
  exists x, head (Re.slice s a b) = Some x /\ h x = true.
Proof.
  intros Hht H. apply matches_name in H as (Hle & Hh & Ht).
  assert (Hall : all_in s t a b).
  { apply (all_in_app s t a (S a)); [|exact Ht].
    intros i Hi. destruct (Hh i Hi) as (x & Hx & Hhx). eauto. }
  destruct (slice_all_in s t a b) as [Hlen Hfor]; [lia|exact Hall|].
  split; [lia|]. split; [exact Hfor|].
  destruct (Hh a) as (x & Hx & Hhx); [lia|]. exists x. split; [|exact Hhx].
  rewrite head_lookup. unfold Re.slice.
  rewrite lookup_take_lt by lia. rewrite lookup_drop, Nat.add_0_r. exact Hx.
Qed.

Lemma env_name_str (n : nat) (l : list ascii) :
  n <= length l ->
  Forall (fun x => Credentials.var_tail x = true) l ->
  (exists x, head l = Some x /\ Credentials.var_head x = true) ->
  env_name n (Py.str l).
Proof.
  intros Hn Hl Hh. unfold env_name. rewrite str_length, chars_str. auto.
Qed.

Lemma env_name_weaken (n m : nat) (var_name : string) :
  m <= n -> env_name n var_name -> env_name m var_name.
Proof. intros Hle (Hn & H). split; [lia|exact H]. Qed.

Lemma captured_pattern1 (text g : string) :
  captured Credentials.pattern1 text g -> env_name 2 g.
Proof.
  intros (pos & e & cap & Hm & ->).
  unfold Credentials.pattern1, Re.cats in Hm.
  apply matches_Cat_inv in Hm as (m1 & c1 & _ & Hm).
  apply matches_Cat_inv in Hm as (m2 & c2 & _ & Hm).
  apply matches_Group_inv in Hm as (-> & c3 & Hm).
  apply (name_group _ _ _ 1) in Hm as (Hlen & Hfor & Hhead);
    [|exact var_head_tail].
  unfold Re.group1. cbn [Re.hit_group]. now apply env_name_str.
Qed.

Lemma captured_pattern2 (text g : string) :
  captured Credentials.pattern2 text g -> env_name 3 (Py.upper g).
Proof.
  intros (pos & e & cap & Hm & ->).
  unfold Credentials.pattern2, Re.cats in Hm.
  apply matches_Cat_inv in Hm as (m1 & c1 & Hg & Hm).
  apply matches_Group_inv in Hg as (-> & c3 & Hg).
  apply no_group_cap in Hm; [|reflexivity]. subst cap.
  apply name_group in Hg as (Hlen & Hfor & x & Hx & Hhx); [|exact icase_head_tail].
  unfold Re.group1. cbn [Re.hit_group]. unfold Py.upper. rewrite chars_str.
  apply env_name_str.
  - now rewrite length_map.
  - apply Forall_map. eapply Forall_impl; [exact Hfor|].
    intros y Hy. now apply icase_upper_tail.
  - exists (Py.upper_char x). split; [|now apply icase_upper_head].
    destruct (Re.slice (Py.chars text) pos m1); [discriminate Hx|].
    now injection Hx as ->.
Qed.

Lemma captured_pattern3 (text g : string) :
  captured Credentials.pattern3 text g -> env_name 4 g.
Proof.
  intros (pos & e & cap & Hm & ->).
  unfold Credentials.pattern3, Re.cats in Hm.
  apply matches_Cat_inv in Hm as (m1 & c1 & Hw & Hm).
  apply matches_Cat_inv in Hm as (m2 & c2 & Hg & Hw2).
  apply matches_Group_inv in Hg as (-> & c3 & Hg).
  apply no_group_cap in Hw2; [|reflexivity]. subst cap.
  apply name_group in Hg as (Hlen & Hfor & Hhead); [|exact var_head_tail].
  unfold Re.group1. cbn [Re.hit_group]. now apply env_name_str.
Qed.

Lemma search_captured (r : Re.re) (text g : string) :
  Re.search r text = Some g -> captured r text g.
Proof.
  unfold Re.search. cbv zeta.
  destruct (Re.search_from r (Py.chars text) 0) as [h|] eqn:E; [|done].
  intros [= <-]. unfold Re.search_from in E.
  apply search_aux_sound in E as (pos & e & cap & Hm & ->).
  exists pos, e, cap. now split.
Qed.

Lemma findall_captured (r : Re.re) (text : string) :
  Forall (captured r text) (Re.findall r text).
Proof. unfold Re.findall. cbv zeta. apply findall_aux_sound. Qed.

Lemma collect_names (P : string -> string -> Prop) (l : list string) :
  Forall (fun var_name =>
            var_name ∉ Credentials.structural_words ->
            P var_name (Credentials.required var_name)) l ->
  forall acc : gmap string string,
    map_Forall P acc ->
    map_Forall P
      (foldl (fun vars_required var_name =>
                if bool_decide (var_name ∈ Credentials.structural_words)
                then vars_required
                else <[var_name := Credentials.required var_name]> vars_required)
         acc l).
Proof.
  induction 1 as [|x l Hx _ IH]; intros acc Hacc; [exact Hacc|].
  cbn [foldl]. apply IH.
  destruct (bool_decide_reflect (x ∈ Credentials.structural_words)) as [Hin|Hout];
    [exact Hacc|].
  apply map_Forall_insert_2; [now apply Hx|exact Hacc].
Qed.

(** X9: the hint [detect_required_vars] files under a variable is
    ["Required: "] followed by its name.  A message that matches the first
    pattern reports the one name the pattern captured, which has the shape
    of an environment variable name: two characters or more, all of them
    capitals, digits or underscores, the first not a digit.  A message that
    matches the second pattern, and not the first, reports one name as
    well, the captured text in upper case; the pattern is matched without
    regard to case, so that this is known to be such a name (of three
    characters or more) for a message of ASCII characters only.  Otherwise
    every reported name is such a name of four characters or more, and is
    none of the excluded words. *)
Theorem detected_names_are_variable_names :
  forall error_msg,
    let vars_required := Credentials.detect_required_vars error_msg in
    map_Forall (fun var_name hint => hint = "Required: " ++ var_name) vars_required /\
    match Re.search Credentials.pattern1 error_msg,
          Re.search Credentials.pattern2 error_msg with
    | Some g, _ =>
        vars_required = {[ g := "Required: " ++ g ]} /\ env_name 2 g
    | None, Some g =>
        vars_required = {[ Py.upper g := "Required: " ++ Py.upper g ]} /\
        (ascii_text error_msg -> env_name 3 (Py.upper g))
    | None, None =>
        map_Forall (fun var_name _ =>
                      env_name 4 var_name /\
                      var_name ∉ Credentials.structural_words)
          vars_required
    end.
Proof.
  intros error_msg. cbv zeta. unfold Credentials.detect_required_vars.
  destruct (Re.search Credentials.pattern1 error_msg) as [g1|] eqn:E1.
  { split; [apply map_Forall_insert_2; [reflexivity|apply map_Forall_empty]|].
    split; [apply insert_empty|].
    now apply search_captured, captured_pattern1 in E1. }
  destruct (Re.search Credentials.pattern2 error_msg) as [g2|] eqn:E2.
  { split; [apply map_Forall_insert_2; [reflexivity|apply map_Forall_empty]|].
    split; [apply insert_empty|]. intros _.
    now apply search_captured, captured_pattern2 in E2. }
  split.
  - apply collect_names; [|apply map_Forall_empty].
    apply Forall_forall. intros g _ _. reflexivity.
  - apply (collect_names (fun var_name _ =>
                            env_name 4 var_name /\
                            var_name ∉ Credentials.structural_words));
      [|apply map_Forall_empty].
    eapply Forall_impl; [apply findall_captured|].
    intros g Hg Hout. split; [|exact Hout]. now apply (captured_pattern3 error_msg).
Qed.


(** ** The name and the description of an accepted response *)

Lemma prefix_slice_chars (n : nat) (text : string) :
  Py.chars (Py.prefix_slice n text) = take n (Py.chars text).
Proof. unfold Py.prefix_slice. apply chars_str. Qed.

Lemma prefix_slice_length (n : nat) (text : string) :
  String.length (Py.prefix_slice n text) = Nat.min n (String.length text).
Proof.
  rewrite <- chars_length, prefix_slice_chars, length_take. now rewrite chars_length.
Qed.

Lemma strip_head (text : string) :
  match head (Py.chars (Py.strip text)) with
  | Some c => Py.is_space c = false
  | None => True
  end.
Proof.
  unfold Py.strip. rewrite chars_str.
  destruct (head _) as [c|] eqn:E; [|exact I]. now apply strip_by_head in E.
Qed.

(** A trimmed text of [lo] characters or more, cut to [hi]. *)
Lemma cut_bounded (lo hi : nat) (text : string) :
  0 < hi -> lo <= hi -> lo <= String.length (Py.strip text) ->
  bounded_text lo hi (Py.prefix_slice hi (Py.strip text)).
Proof.
  intros Hhi Hle Hlen. split; [rewrite prefix_slice_length; lia|].
  rewrite prefix_slice_chars. pose proof (strip_head text) as H.
  destruct hi as [|hi]; [lia|].
  destruct (Py.chars (Py.strip text)) as [|c l]; [exact I|exact H].
Qed.

(** X10: a response that passes validation carries a name of 3 to 60
    characters and a description of 20 to 200 characters, neither of which
    starts with a blank; each is its cleaned text, cut at the end when it
    is longer than that.  The same holds for what [_parse_json_response]
    answers, whatever the decoding of the content gave. *)
Theorem accepted_name_and_description :
  (forall data,
     match Llm.validate data with
     | Some m =>
         bounded_text 3 60 (Llm.name m) /\
         bounded_text 20 200 (Llm.description m) /\
         Llm.name m = Py.prefix_slice 60 (Llm.clean_name (Llm.data_name data)) /\
         Llm.description m
         = Py.prefix_slice 200 (Llm.clean_description (Llm.data_description data))
     | None => True
     end) /\
  (forall decode content is_reasoning_model,
     match Llm.parse_json_response decode content is_reasoning_model with
     | Some m => bounded_text 3 60 (Llm.name m) /\ bounded_text 20 200 (Llm.description m)
     | None => True
     end).
Proof.
  assert (H : forall data,
             match Llm.validate data with
             | Some m =>
                 bounded_text 3 60 (Llm.name m) /\
                 bounded_text 20 200 (Llm.description m) /\
                 Llm.name m = Py.prefix_slice 60 (Llm.clean_name (Llm.data_name data)) /\
                 Llm.description m
                 = Py.prefix_slice 200
                     (Llm.clean_description (Llm.data_description data))
             | None => True
             end).
  { intros data. unfold Llm.validate. cbv zeta.
    destruct (Nat.ltb_spec (String.length (Llm.clean_name (Llm.data_name data))) 3)
      as [|Hn]; [exact I|].
    destruct (Nat.ltb_spec
                (String.length (Llm.clean_description (Llm.data_description data))) 20)
      as [|Hd]; [exact I|].
    destruct (length (Llm.collect_tags (Llm.data_tags data)) <? 2); [exact I|].
    cbn [Llm.name Llm.description].
    split; [apply cut_bounded; [lia|lia|exact Hn]|].
    split; [apply cut_bounded; [lia|lia|exact Hd]|]. split; reflexivity. }
  split; [exact H|].
  intros decode content flag. unfold Llm.parse_json_response.
  destruct (decode flag content) as [data|]; [|exact I].
  specialize (H data). destruct (Llm.validate data) as [m|]; [|exact I].
  destruct H as (Hn & Hd & _). now split.
Qed.


(** ** Backend selection *)

Section Select.
Context {B : Type}.
Variable model : B -> string.

Lemma first_named_listed (name : option string) (l : list B) (b : B) :
  first_named model name l = Some b ->
  b ∈ l /\ Some (model b) = name /\ Llm.truthy name = true.
Proof.
  induction l as [|x l IH]; [discriminate|]. cbn [first_named].
  destruct (Llm.truthy name) eqn:Et; cbn [andb].
  - destruct (bool_decide_reflect (Some (model x) = name)) as [Hx|Hx].
    + intros [= <-]. split; [left|]. now split.
    + intros H. destruct (IH H) as (Hin & Hm & _). split; [now right|]. now split.
  - intros H. destruct (IH H) as (_ & _ & [=]).
Qed.

Lemma first_named_none (name : option string) (l : list B) :
  Llm.truthy name = false \/ Forall (fun b => Some (model b) <> name) l ->
  first_named model name l = None.
Proof.
  intros H. induction l as [|x l IH]; [reflexivity|]. cbn [first_named].
  destruct H as [Ht|Hall].
  - rewrite Ht. cbn [andb]. apply IH. now left.
  - apply Forall_cons in Hall as [Hx Hl].
    rewrite (bool_decide_eq_false_2 _ Hx), andb_false_r. apply IH. now right.
Qed.

Lemma first_named_found (l : list B) (b : B) :
  NoDup (map model l) -> b ∈ l -> model b <> "" ->
  first_named model (Some (model b)) l = Some b.
Proof.
  intros Hnd Hin Hne. induction l as [|x l IH]; [now apply elem_of_nil in Hin|].
  cbn [map] in Hnd. apply NoDup_cons in Hnd as [Hx Hnd].
  cbn [first_named Llm.truthy].
  assert (Ht : negb (String.eqb (model b) "") = true).
  { apply negb_true_iff, String.eqb_neq, Hne. }
  rewrite Ht. cbn [andb].
  apply elem_of_cons in Hin as [->|Hin].
  - now rewrite bool_decide_eq_true_2.
  - rewrite bool_decide_eq_false_2; [now apply IH|].
    intros [= E]. apply Hx. rewrite E.
    change (model b ∈ model <$> l). now apply list_elem_of_fmap_2.
Qed.

End Select.

(** X11: [_select_backend] of either service never fails and always
    answers one of the service's backends; asked for the model of a listed
    backend it answers that very backend, so the service a worker builds
    from [backend["model"]] has the backend of its task; asked for nothing,
    for the empty name or for a model that no backend has, it answers the
    first backend. *)
Theorem select_backend_finds_the_backend :
  (forall name, exists b,
     LLMService.select_backend name = Some b /\ b ∈ Llm.BACKENDS) /\
  (forall b, b ∈ Llm.BACKENDS ->
             LLMService.select_backend (Some (Llm.model b)) = Some b) /\
  (forall name,
     Llm.truthy name = false \/ Forall (fun b => Some (Llm.model b) <> name) Llm.BACKENDS ->
     LLMService.select_backend name = head Llm.BACKENDS) /\
  (forall name, exists b,
     ToolCallingLLMService.select_backend name = Some b /\ b ∈ Model.BACKENDS) /\
  (forall b, b ∈ Model.BACKENDS ->
             ToolCallingLLMService.select_backend (Some (Model.model b)) = Some b) /\
  (forall name,
     Llm.truthy name = false \/
     Forall (fun b => Some (Model.model b) <> name) Model.BACKENDS ->
     ToolCallingLLMService.select_backend name = head Model.BACKENDS).
Proof.
  assert (Hgen : forall (B : Type) (model : B -> string) (l : list B) (d : B),
             head l = Some d ->
             NoDup (map model l) -> Forall (fun b => model b <> "") l ->
             (forall name, exists b, select_backend_in model l name = Some b /\ b ∈ l) /\
             (forall b, b ∈ l -> select_backend_in model l (Some (model b)) = Some b) /\
             (forall name,
                Llm.truthy name = false \/ Forall (fun b => Some (model b) <> name) l ->
                select_backend_in model l name = head l)).
  { intros B model l d Hd Hnd Hne. unfold select_backend_in. split; [|split].
    - intros name. destruct (first_named model name l) as [b|] eqn:E.
      + exists b. split; [reflexivity|]. now apply first_named_listed in E.
      + exists d. split; [exact Hd|]. destruct l; [discriminate|].
        injection Hd as ->. left.
    - intros b Hb. rewrite first_named_found; [reflexivity|exact Hnd|exact Hb|].
      rewrite Forall_forall in Hne. now apply Hne.
    - intros name H. now rewrite first_named_none. }
  destruct (Hgen _ Llm.model Llm.BACKENDS
              {| Llm.provider := "qwen"; Llm.model := "qwen/qwen3-32b";
                 Llm.fallback := Some "meta-llama/llama-3.3-70b-instruct" |})
    as (H1 & H2 & H3).
  { reflexivity. }
  { apply (bool_decide_unpack _). vm_compute. exact I. }
  { repeat constructor; discriminate. }
  destruct (Hgen _ Model.model Model.BACKENDS
              {| Model.provider := "ollama"; Model.model := "qwen";
                 Model.endpoint := "/ollama/qwen/chat" |})
    as (H4 & H5 & H6).
  { reflexivity. }
  { apply (bool_decide_unpack _). vm_compute. exact I. }
  { repeat constructor; discriminate. }
  repeat split; assumption.
Qed.

(** ** The tool loop of the model service *)

Section ToolLoop.
Context {Data : Type}.
Variable out : ToolCallingLLMService.Outside Data.
Variables url model : string.

Lemma posted_app (a b : list ToolCallingLLMService.event) :
  posted (a ++ b) = (posted a ++ posted b)%list.
Proof. apply omap_app. Qed.

Lemma run_tools_spec (calls : list ToolCallingLLMService.ToolCall) :
  forall messages log,
    exists extra new,
      ToolCallingLLMService.run_tools out calls messages log
      = ((messages ++ extra)%list, (log ++ new)%list) /\
      Forall added_message extra /\ posted new = [] /\
      Forall (sent_for url model) new.
Proof.
  induction calls as [|tc calls IH]; intros messages log;
    cbn [ToolCallingLLMService.run_tools].
  - exists [], []. rewrite !app_nil_r. repeat split; constructor.
  - destruct (bool_decide _); [|apply IH].
    destruct (IH (messages ++
                  [ToolCallingLLMService.ToolMessage
                     (Py.prefix_slice 2000
                        (ToolCallingLLMService.web_search out
                           (Spawn.or_default (ToolCallingLLMService.query tc) "")))])%list
                 (log ++
                  [ToolCallingLLMService.Search
                     (Spawn.or_default (ToolCallingLLMService.query tc) "")])%list)
      as (extra & new & E & Hex & Hp & Hs).
    eexists (_ :: extra), (_ :: new). rewrite E, <- !app_assoc. cbn [app].
    split; [reflexivity|]. split; [|split].
    + constructor; [|exact Hex]. cbn [added_message].
      rewrite prefix_slice_length. lia.
    + exact Hp.
    + constructor; [exact I|exact Hs].
Qed.

Lemma tool_turns_spec (turns : nat) : forall i messages log,
  exists new rest,
    snd (ToolCallingLLMService.tool_turns out url model turns i messages log)
    = (log ++ new)%list /\
    Forall (sent_for url model) new /\
    posted new = match turns with O => [] | S _ => messages :: rest end /\
    length (posted new) <= turns /\
    grows messages rest /\
    final_answer out url model i (posted new)
      (fst (ToolCallingLLMService.tool_turns out url model turns i messages log)).
Proof.
  induction turns as [|turns IH]; intros i messages log;
    cbn [ToolCallingLLMService.tool_turns].
  - exists [], []. rewrite app_nil_r. cbn [fst snd].
    split; [reflexivity|]. split; [constructor|]. split; [reflexivity|].
    split; [change (0 <= 0); lia|]. split; exact I.
  - assert (Hstop : exists new rest,
               (log ++ [ToolCallingLLMService.Post url model messages])%list
               = (log ++ new)%list /\
               Forall (sent_for url model) new /\
               posted new = messages :: rest /\
               length (posted new) <= S turns /\
               grows messages rest /\
               final_answer out url model i (posted new) (@None Data)).
    { exists [ToolCallingLLMService.Post url model messages], [].
      split; [reflexivity|]. split; [constructor; [now split|constructor]|].
      split; [reflexivity|]. split; [change (1 <= S turns); lia|]. split; exact I. }
    destruct (ToolCallingLLMService.post out i url model messages)
      as [|status_code msg] eqn:Epost; [exact Hstop|].
    destruct (Nat.eqb_spec status_code 200) as [->|Hne]; cbn [negb]; [|exact Hstop].
    destruct (ToolCallingLLMService.tool_calls msg) as [|tc calls] eqn:Ecalls.
    + exists [ToolCallingLLMService.Post url model messages], []. cbn [fst snd].
      split; [reflexivity|]. split; [constructor; [now split|constructor]|].
      split; [reflexivity|]. split; [change (1 <= S turns); lia|]. split; [exact I|].
      unfold final_answer.
      destruct (ToolCallingLLMService.parse_json_response out _) as [data|] eqn:Ep;
        [|exact I].
      exists messages, msg. cbn [posted omap list_omap length last].
      replace (i + 1 - 1) with i by lia. repeat split; assumption.
    + destruct (run_tools_spec (tc :: calls)
                  (messages ++ [ToolCallingLLMService.Assistant msg])%list
                  (log ++ [ToolCallingLLMService.Post url model messages])%list)
        as (extra & new1 & E & Hex & Hp1 & Hs1).
      rewrite E.
      destruct (IH (S i)
                  ((messages ++ [ToolCallingLLMService.Assistant msg]) ++ extra)%list
                  ((log ++ [ToolCallingLLMService.Post url model messages]) ++ new1)%list)
        as (new2 & rest & E2 & Hs2 & Hp2 & Hlen & Hg & Hfin).
      exists (ToolCallingLLMService.Post url model messages :: new1 ++ new2)%list.
      exists (match turns with
              | O => []
              | S _ => ((messages ++ [ToolCallingLLMService.Assistant msg]) ++ extra)%list
                       :: rest
              end).
      split; [rewrite E2, <- !app_assoc; reflexivity|].
      split.
      { constructor; [now split|]. apply Forall_app. now split. }
      assert (Hposted :
                posted (ToolCallingLLMService.Post url model messages :: new1 ++ new2)
                = messages :: posted new2).
      { change (ToolCallingLLMService.Post url model messages :: new1 ++ new2)%list
          with ([ToolCallingLLMService.Post url model messages] ++ new1 ++ new2)%list.
        rewrite !posted_app, Hp1. reflexivity. }
      rewrite Hposted, Hp2.
      split; [reflexivity|].
      split; [cbn [length]; rewrite Hp2 in Hlen; lia|].
      split.
      { destruct turns as [|turns']; [exact I|]. cbn [grows]. split; [|exact Hg].
        exists (ToolCallingLLMService.Assistant msg :: extra).
        split; [now rewrite <- app_assoc|]. split; [discriminate|].
        constructor; [|exact Hex]. cbn [added_message]. now rewrite Ecalls. }
      { rewrite Hp2 in Hfin. unfold final_answer in *.
        destruct (fst (ToolCallingLLMService.tool_turns out url model turns (S i) _ _))
          as [data|]; [|exact I].
        destruct Hfin as (ms & m & Hlast & Hpost & Hnone & Hparse).
        destruct turns as [|turns']; [discriminate Hlast|].
        exists ms, m. split; [exact Hlast|]. split; [|now split].
        cbn [length] in *.
        replace (i + S (S (length rest)) - 1) with (S i + S (length rest) - 1) by lia.
        exact Hpost. }
Qed.

End ToolLoop.

(** X12: one call of [_call_ollama_with_tools].  It posts at least once
    and at most three times, always to the endpoint and for the model of
    its backend.  The first conversation posted is the system prompt and
    the user's prompt; each later one is the one before with messages
    added at its end: the reply that asked for tools, then search results
    of 2000 characters at most.  It answers something only when the last
    request came back with status 200 and no tool call, and then what the
    content of that reply reads as; in particular three replies that all
    ask for tools end in nothing. *)
Theorem tool_loop_is_bounded :
  forall (Data : Type) (out : ToolCallingLLMService.Outside Data) prompt backend,
    let url := ToolCallingLLMService.server out ++ Model.endpoint backend in
    let model := Model.model backend in
    let start := [ToolCallingLLMService.System (ToolCallingLLMService.system_prompt out);
                  ToolCallingLLMService.User prompt] in
    let result := fst (ToolCallingLLMService.call_ollama_with_tools out prompt backend) in
    let log := snd (ToolCallingLLMService.call_ollama_with_tools out prompt backend) in
    1 <= length (posted log) <= 3 /\
    Forall (sent_for url model) log /\
    (exists rest, posted log = start :: rest /\ grows start rest) /\
    final_answer out url model 0 (posted log) result.
Proof.
  intros Data out prompt backend url model start result log.
  unfold result, log, ToolCallingLLMService.call_ollama_with_tools. fold url model start.
  destruct (tool_turns_spec out url model 3 0 start [])
    as (new & rest & E & Hs & Hp & Hlen & Hg & Hfin).
  rewrite E. cbn [app]. rewrite Hp in *.
  split; [cbn [length] in *; lia|]. split; [exact Hs|]. split; [eauto|exact Hfin].
Qed.


(** ** The run of the model compiler *)

Section ModelRun.
Variable out : Model.Outside.

Lemma model_flush_fields c :
  Model.compiled (Model.flush out c) = Model.compiled c /\
  Model.failed (Model.flush out c) = Model.failed c /\
  Model.progress (Model.flush out c) = Model.progress c /\
  Model.models (Model.flush out c) = Model.models c.
Proof. repeat split; reflexivity. Qed.

Lemma model_consume_spec c it :
  let c' := Model.consume out c it in
  Model.processed (Model.progress c') = S (Model.processed (Model.progress c)) /\
  outcomes (Model.progress c') = S (outcomes (Model.progress c)) /\
  Model.total (Model.progress c') = Model.total (Model.progress c) /\
  accounted c' (Model.model_id (fst (snd it))) /\
  forall key, accounted c key -> accounted c' key.
Proof.
  destruct it as [i [m backend]]. cbv zeta. unfold Model.consume. cbn [fst snd].
  assert (Hkeep : forall (c1 : Model.Compiler) (b : bool),
             Model.compiled (if b then Model.flush out c1 else c1) = Model.compiled c1 /\
             Model.failed (if b then Model.flush out c1 else c1) = Model.failed c1 /\
             Model.progress (if b then Model.flush out c1 else c1) = Model.progress c1).
  { intros c1 []; repeat split; reflexivity. }
  destruct (Model.compile_model_worker out i m backend) as [data|].
  - match goal with
    | |- context [if ?b then Model.flush out ?c1 else ?c1] =>
        destruct (Hkeep c1 b) as (Hc & Hf & Hp)
    end.
    unfold accounted, outcomes. rewrite Hc, Hf, Hp.
    cbn [Model.set_state Model.compiled Model.failed Model.progress Model.processed
         Model.success_count Model.failed_count Model.total].
    split; [reflexivity|]. split; [lia|]. split; [reflexivity|].
    split; [left; rewrite lookup_insert_eq; eauto|].
    intros key [H|H]; [left|now right].
    destruct (decide (Model.model_id m = key)) as [->|Hne];
      [rewrite lookup_insert_eq; eauto|now rewrite lookup_insert_ne].
  - match goal with
    | |- context [if ?b then Model.flush out ?c1 else ?c1] =>
        destruct (Hkeep c1 b) as (Hc & Hf & Hp)
    end.
    unfold accounted, outcomes. rewrite Hc, Hf, Hp.
    cbn [Model.set_state Model.compiled Model.failed Model.progress Model.processed
         Model.success_count Model.failed_count Model.total].
    split; [reflexivity|]. split; [lia|]. split; [reflexivity|].
    split; [right; rewrite lookup_insert_eq; eauto|].
    intros key [H|H]; [now left|right].
    destruct (decide (Model.model_id m = key)) as [->|Hne];
      [rewrite lookup_insert_eq; eauto|now rewrite lookup_insert_ne].
Qed.

Lemma model_foldl_consume_spec (l : list (nat * (Model.Entry * option Model.Backend))) :
  forall c,
    let c' := foldl (Model.consume out) c l in
    Model.processed (Model.progress c') = Model.processed (Model.progress c) + length l /\
    outcomes (Model.progress c') = outcomes (Model.progress c) + length l /\
    Model.total (Model.progress c') = Model.total (Model.progress c) /\
    Forall (fun it => accounted c' (Model.model_id (fst (snd it)))) l /\
    forall key, accounted c key -> accounted c' key.
Proof.
  induction l as [|it l IH]; intros c; cbv zeta.
  - cbn [foldl length]. repeat split; try lia; [constructor|auto].
  - cbn [foldl length].
    pose proof (model_consume_spec c it) as H1. cbv zeta in H1.
    destruct H1 as (Hp & Ho & Ht & Hit & Hmono).
    specialize (IH (Model.consume out c it)). cbv zeta in IH.
    destruct IH as (IHp & IHo & IHt & IHall & IHmono).
    rewrite IHp, IHo, IHt, Hp, Ho, Ht.
    split; [lia|]. split; [lia|]. split; [reflexivity|].
    split; [constructor; [now apply IHmono|exact IHall]|].
    intros key Hkey. now apply IHmono, Hmono.
Qed.

End ModelRun.

(** X13: the run of the model compiler.  Every model of the batch is
    counted once as processed and once as a success or as a failure, and
    ends with an entry in the compiled or in the failed map: unlike the MCP
    compiler, this one has no path on which a model is counted and filed
    nowhere.  [total] is the number of models loaded, not the size of the
    batch. *)
Theorem model_run_accounts_for_every_model :
  forall out limit (resume : bool) workers c,
    let c0 := if resume then Model.load_progress c else c in
    let todo := Model.models_to_process limit resume c0 in
    let c' := Model.run out limit resume workers c in
    Model.processed (Model.progress c')
    = Model.processed (Model.progress c0) + length todo /\
    outcomes (Model.progress c') = outcomes (Model.progress c0) + length todo /\
    Model.total (Model.progress c') = length (Model.models c0) /\
    Forall (fun m => accounted c' (Model.model_id m)) todo.
Proof.
  intros out limit resume workers c c0 todo c'.
  unfold c', Model.run. fold c0. cbv zeta. fold todo.
  destruct todo as [|m todo'] eqn:Etodo.
  - cbn [length Model.set_state Model.progress Model.processed Model.total].
    unfold outcomes.
    cbn [Model.set_state Model.progress Model.success_count Model.failed_count].
    repeat split; try lia. constructor.
  - set (ts := Model.tasks (m :: todo') Model.BACKENDS).
    set (c1 := Model.announce ts _).
    destruct (model_flush_fields out
                (foldl (Model.consume out) c1 (imap (fun i t => (i, t)) ts)))
      as (Hc & Hf & Hp & _).
    unfold accounted. rewrite Hc, Hf, Hp.
    pose proof (model_foldl_consume_spec out (imap (fun i t => (i, t)) ts) c1) as H.
    cbv zeta in H. destruct H as (Hproc & Hout & Htot & Hall & _).
    assert (Hlen : length (imap (fun i t => (i, t)) ts) = length (m :: todo')).
    { unfold ts, Model.tasks. now rewrite !length_imap. }
    rewrite Hlen in Hproc, Hout.
    split; [exact Hproc|]. split; [exact Hout|]. split; [exact Htot|].
    apply Forall_forall. intros x Hx.
    apply list_elem_of_lookup_1 in Hx as [k Hk].
    rewrite Forall_forall in Hall.
    apply (Hall (k, (x, Model.BACKENDS !! (k mod length Model.BACKENDS)))).
    apply list_elem_of_lookup. exists k.
    rewrite list_lookup_imap. unfold ts, Model.tasks. rewrite list_lookup_imap, Hk.
    reflexivity.
Qed.


(** ** What a resumed model compiler finds *)

Section Refile.
Context {V : Type}.
Variable key : V -> string.





End Refile.

Section ModelResume.
Variable out : Model.Outside.






End ModelResume.

